(** * Storage migration engine: IndexedDB to localStorage

    A shallow embedding of [src/lib/storage/local-storage-migration.ts]:
    the schema validator [hasValidIndexedDBSchema], the legacy-store
    adapter [ProviderDB] and the [LocalStorageMigration] engine.

    Asynchronous code is modelled sequentially: every [await] runs its
    promise to settlement before the continuation, which is how one call
    behaves when no other task is in flight.  Rejections and [throw] are
    the [Throw] result of a state-and-exception monad in which state
    changes made before the exception are kept, as in JavaScript.

    The browser is part of the state.  What an [indexedDB.open] request
    will meet (a synchronous exception, an [error] event, a [blocked]
    event, an exception in the success handler, a failing store request)
    is read from a list of fates, so that a statement about every list is
    a statement about every behaviour of the database.  Every open
    request is taken to end in [success] or [error]; a store that exists
    is taken to have the indexes of the persisted schema. *)

From Stdlib Require Import ZArith List String Bool Arith Lia DecimalString.
Import ListNotations.
Local Open Scope string_scope.
Local Open Scope list_scope.

(* ===================================================================== *)
(** ** JavaScript values and exceptions *)
(* ===================================================================== *)

(** The values a metadata entry (typed [unknown]) can hold.  Numbers are
    restricted to the integers and NaN. *)
Inductive JSValue : Type :=
| JUndefined
| JNull
| JBool (b : bool)
| JNumber (n : Z)
| JNaN
| JString (s : string).

(** ToBoolean. *)
Definition truthy (v : JSValue) : bool :=
  match v with
  | JUndefined | JNull | JNaN => false
  | JBool b => b
  | JNumber n => negb (n =? 0)%Z
  | JString s => negb (s =? "")
  end.

(** [a || b] on values. *)
Definition js_or (a b : JSValue) : JSValue := if truthy a then a else b.

Definition string_of_nat (n : nat) : string :=
  NilZero.string_of_uint (Nat.to_uint n).

Definition string_of_Z (z : Z) : string :=
  NilZero.string_of_int (Z.to_int z).

(** ToString, as used by template literals. *)
Definition js_toString (v : JSValue) : string :=
  match v with
  | JUndefined => "undefined"
  | JNull => "null"
  | JBool true => "true"
  | JBool false => "false"
  | JNumber n => string_of_Z n
  | JNaN => "NaN"
  | JString s => s
  end.

(** What can be thrown: an [Error] object (a [DOMException] included) or
    any other value. *)
Inductive exn : Type :=
| JSError (name message : string)
| Thrown (v : JSValue).

(** [error instanceof Error ? error.message : "Unknown error"] *)
Definition error_message (e : exn) : string :=
  match e with
  | JSError _ m => m
  | Thrown _ => "Unknown error"
  end.

(** [`${error}`]: Error.prototype.toString for error objects. *)
Definition exn_toString (e : exn) : string :=
  match e with
  | JSError n m =>
      if n =? "" then m
      else if m =? "" then n
      else String.append n (String.append ": " m)
  | Thrown v => js_toString v
  end.

Definition NotFoundError : exn :=
  JSError "NotFoundError"
    "Failed to execute 'transaction' on 'IDBDatabase': One of the specified object stores was not found.".

(* ===================================================================== *)
(** ** Records of the data model *)
(* ===================================================================== *)

Module EncryptedData.
Record t : Type := mk { iv : string; data : string }.
End EncryptedData.

(** Modelled from the spec: the type [ProfileRecord] is declared in
    [./types], which is not among the sources.  Section 3 of the spec
    gives a profile record an [id], a [name] and an [isDefault] flag;
    the engine reads nothing else of it. *)
Module ProfileRecord.
Record t : Type := mk {
  id : string;
  name : string;
  isDefault : bool
}.
End ProfileRecord.

Inductive ProviderType : Type := builtin | custom.

Module ProviderConfig.
Record t : Type := mk {
  id : string;
  profileId : string;
  providerId : string;
  providerType : ProviderType;
  apiKey : option EncryptedData.t;
  model : string;
  baseUrl : option string;
  enabled : bool;
  customName : option string;
  customModels : option (list string);
  createdAt : Z;
  updatedAt : Z
}.
End ProviderConfig.

(** The argument of [saveProviderConfig]: a provider config without
    [id], [createdAt] and [updatedAt]. *)
Module ProviderConfigInput.
Record t : Type := mk {
  profileId : string;
  providerId : string;
  providerType : ProviderType;
  apiKey : option EncryptedData.t;
  model : string;
  baseUrl : option string;
  enabled : bool;
  customName : option string;
  customModels : option (list string)
}.
End ProviderConfigInput.

(** A record of the [app_metadata] object store. *)
Module MetaRecord.
Record t : Type := mk { key : string; value : JSValue }.
End MetaRecord.

(* ===================================================================== *)
(** ** The IndexedDB environment *)
(* ===================================================================== *)

(** What happens inside the [onsuccess] handler of an open request. *)
Inductive BodyFate : Type :=
| BodyOk
| BodyThrows (e : exn)      (* an exception in the handler's try block *)
| RequestFails (e : exn).   (* the store request fires its error event  *)

(** The event that ends an open request. *)
Inductive OpenFinal : Type :=
| FinalError (e : exn)
| FinalSuccess (body : BodyFate).

(** The fate of one [indexedDB.open] call: it raises at once, or the
    request fires an optional [blocked] event followed by its final
    [error] or [success] event. *)
Inductive Fate : Type :=
| OpenThrows (e : exn)
| OpenEvents (blocked : bool) (final : OpenFinal).

Definition fine : Fate := OpenEvents false (FinalSuccess BodyOk).

Inductive AdapterOp : Type :=
| GetAllProfiles
| GetProviderConfigsByProfile
| GetMetadata
| GetSchemaVersion
| DeleteProviderConfig
| DeleteProfile.

(** One call of an operation of [ProviderDB], with its argument and the
    exception it ended in, if any. *)
Record AdapterCall : Type := mkCall {
  op : AdapterOp;
  arg : string;
  failure : option exn
}.

(** The database "ai-settings-db" as the code sees it.  [fates] lists
    what will happen to the coming open requests, oldest first; a request
    issued when the list is empty goes [fine].  [opens], [open_conns] and
    [history] record what was done: the number of [indexedDB.open] calls,
    the connections obtained and not yet closed, the adapter calls made,
    oldest first. *)
Record IndexedDB : Type := mkIDB {
  defined : bool;                       (* typeof indexedDB !== "undefined" *)
  objectStoreNames : list string;
  profiles : list ProfileRecord.t;      (* keyPath "id" *)
  provider_configs : list ProviderConfig.t;
  app_metadata : list MetaRecord.t;     (* keyPath "key" *)
  fates : list Fate;
  opens : nat;
  open_conns : nat;
  history : list AdapterCall
}.

Inductive ConsoleLevel : Type := LogLevel | WarnLevel | ErrorLevel.

Record ConsoleEntry : Type := mkConsole {
  level : ConsoleLevel;
  text : string;
  detail : option exn
}.

(** The state a call of the module runs in: the database, the two
    module-level variables, the localStorage provider and the console. *)
Record World (D : Type) : Type := mkWorld {
  indexedDB : IndexedDB;
  indexedDBSchemaValid : bool;
  ProviderDB : bool;                    (* ProviderDB !== null *)
  localStorageProvider : D;
  console : list ConsoleEntry
}.
Arguments mkWorld {D}.
Arguments indexedDB {D}.
Arguments indexedDBSchemaValid {D}.
Arguments ProviderDB {D}.
Arguments localStorageProvider {D}.
Arguments console {D}.

Definition with_indexedDB {D} (f : IndexedDB -> IndexedDB) (w : World D) : World D :=
  mkWorld (f (indexedDB w)) (indexedDBSchemaValid w) (ProviderDB w)
          (localStorageProvider w) (console w).

Definition with_flag {D} (b : bool) (w : World D) : World D :=
  mkWorld (indexedDB w) b (ProviderDB w) (localStorageProvider w) (console w).

Definition with_provider {D} (d : D) (w : World D) : World D :=
  mkWorld (indexedDB w) (indexedDBSchemaValid w) (ProviderDB w) d (console w).

Definition with_console {D} (c : ConsoleEntry) (w : World D) : World D :=
  mkWorld (indexedDB w) (indexedDBSchemaValid w) (ProviderDB w)
          (localStorageProvider w) (console w ++ [c]).

(* ===================================================================== *)
(** ** The state-and-exception monad *)
(* ===================================================================== *)

Inductive Res (A : Type) : Type :=
| Ok (a : A)
| Throw (e : exn).
Arguments Ok {A}.
Arguments Throw {A}.

Definition M (D A : Type) : Type := World D -> Res A * World D.

Definition ret {D A} (a : A) : M D A := fun w => (Ok a, w).

Definition throw {D A} (e : exn) : M D A := fun w => (Throw e, w).

Definition bind {D A B} (m : M D A) (k : A -> M D B) : M D B :=
  fun w =>
    match m w with
    | (Ok a, w1) => k a w1
    | (Throw e, w1) => (Throw e, w1)
    end.

(** [try { m } catch (error) { h error }] *)
Definition try_catch {D A} (m : M D A) (h : exn -> M D A) : M D A :=
  fun w =>
    match m w with
    | (Ok a, w1) => (Ok a, w1)
    | (Throw e, w1) => h e w1
    end.

Definition gets {D A} (f : World D -> A) : M D A := fun w => (Ok (f w), w).

Definition modify {D} (f : World D -> World D) : M D unit := fun w => (Ok tt, f w).

Declare Scope js_scope.
Delimit Scope js_scope with js.
Notation "x <- m ;; k" := (bind m (fun x => k))
  (at level 61, m at next level, right associativity) : js_scope.
Notation "m ;; k" := (bind m (fun _ => k))
  (at level 61, right associativity) : js_scope.
Local Open Scope js_scope.

(** [for (const x of l) { f x }] *)
Fixpoint forEach {D A} (f : A -> M D unit) (l : list A) : M D unit :=
  match l with
  | [] => ret tt
  | x :: rest => f x ;; forEach f rest
  end.

(** A [for ... of] loop that updates local variables [acc]. *)
Fixpoint forFold {D A S} (f : S -> A -> M D S) (l : list A) (acc : S) : M D S :=
  match l with
  | [] => ret acc
  | x :: rest => acc' <- f acc x ;; forFold f rest acc'
  end.

Definition console_log {D} (t : string) : M D unit :=
  modify (with_console (mkConsole LogLevel t None)).
Definition console_warn {D} (t : string) (e : option exn) : M D unit :=
  modify (with_console (mkConsole WarnLevel t e)).
Definition console_error {D} (t : string) (e : option exn) : M D unit :=
  modify (with_console (mkConsole ErrorLevel t e)).

(* ===================================================================== *)
(** ** Primitive steps on the database *)
(* ===================================================================== *)

Definition next_fate (db : IndexedDB) : Fate :=
  match fates db with
  | [] => fine
  | f :: _ => f
  end.

(** [indexedDB.open("ai-settings-db", 1)]: the call is counted and its
    fate leaves the list. *)
Definition issue_open (db : IndexedDB) : IndexedDB :=
  mkIDB (defined db) (objectStoreNames db) (profiles db) (provider_configs db)
        (app_metadata db) (tl (fates db)) (S (opens db)) (open_conns db)
        (history db).

(** The success event hands over a connection. *)
Definition connect (db : IndexedDB) : IndexedDB :=
  mkIDB (defined db) (objectStoreNames db) (profiles db) (provider_configs db)
        (app_metadata db) (fates db) (opens db) (S (open_conns db))
        (history db).

(** [db.close()] *)
Definition close (db : IndexedDB) : IndexedDB :=
  mkIDB (defined db) (objectStoreNames db) (profiles db) (provider_configs db)
        (app_metadata db) (fates db) (opens db) (pred (open_conns db))
        (history db).

Definition record_call (c : AdapterCall) (db : IndexedDB) : IndexedDB :=
  mkIDB (defined db) (objectStoreNames db) (profiles db) (provider_configs db)
        (app_metadata db) (fates db) (opens db) (open_conns db)
        (history db ++ [c]).

Definition set_profiles (l : list ProfileRecord.t) (db : IndexedDB) : IndexedDB :=
  mkIDB (defined db) (objectStoreNames db) l (provider_configs db)
        (app_metadata db) (fates db) (opens db) (open_conns db) (history db).

Definition set_provider_configs (l : list ProviderConfig.t) (db : IndexedDB) : IndexedDB :=
  mkIDB (defined db) (objectStoreNames db) (profiles db) l
        (app_metadata db) (fates db) (opens db) (open_conns db) (history db).

(** [existingStores.includes(store)] *)
Definition includes (l : list string) (s : string) : bool :=
  existsb (String.eqb s) l.

Definition requiredStores : list string :=
  ["profiles"; "provider_configs"; "app_metadata"].

(* ===================================================================== *)
(** ** Schema validator *)
(* ===================================================================== *)

(** [const request = indexedDB.open("ai-settings-db", 1)], up to the event
    that ends the request.  A synchronous failure of [open] is thrown. *)
Definition open_request {D} : M D (bool * OpenFinal) :=
  fun w =>
    let w1 := with_indexedDB issue_open w in
    match next_fate (indexedDB w) with
    | OpenThrows e => (Throw e, w1)
    | OpenEvents blocked final => (Ok (blocked, final), w1)
    end.

(** [resolve(v)] on a promise that an earlier handler may have settled
    already (then the call changes nothing), read after the call. *)
Definition settle (promise : option bool) (v : bool) : bool :=
  match promise with
  | Some b => b
  | None => v
  end.

(** An exception raised inside the [try] block of a success handler. *)
Definition handler_body {D} (body : BodyFate) : M D unit :=
  match body with
  | BodyThrows e => throw e
  | _ => ret tt
  end.

(** The promise is followed through all the events of the request: a
    [blocked] event resolves it first, and the handler of the final event
    still runs.  No store request is issued here, so a [RequestFails]
    fate behaves as [BodyOk]. *)
Definition hasValidIndexedDBSchema {D} : M D bool :=
  idb <- gets indexedDB ;;
  if negb (defined idb) then ret false
  else
    request <- try_catch (r <- open_request ;; ret (Some r))
                         (fun _ => ret None) ;;
    match request with
    | None => ret false                                   (* catch { return false } *)
    | Some (blocked, final) =>
        (* request.onblocked = () => resolve(false) *)
        let promise := if blocked then Some false else None in
        match final with
        | FinalError _ => ret (settle promise false)      (* request.onerror *)
        | FinalSuccess body =>                            (* request.onsuccess *)
            modify (with_indexedDB connect) ;;
            v <- try_catch
                   (handler_body body ;;
                    db <- gets indexedDB ;;
                    let existingStores := objectStoreNames db in
                    let hasAllStores :=
                      forallb (fun store => includes existingStores store)
                              requiredStores in
                    modify (with_indexedDB close) ;;
                    ret hasAllStores)
                   (fun _ => ret false) ;;
            ret (settle promise v)
        end
    end.

(* ===================================================================== *)
(** ** Legacy-store adapter *)
(* ===================================================================== *)

(** The body every adapter operation hands to [new Promise]: open the
    database, start a transaction on [store], issue one request and settle
    with its result.  No [onblocked] handler is installed, so a blocked
    event is ignored.  The connection is closed on the success path only.
    For the two deletions the promise settles when the transaction
    completes, which is taken to follow the request's success. *)
Definition transact {D A} (store : string)
    (run : IndexedDB -> A * IndexedDB) : M D A :=
  r <- open_request ;;
  match snd r with
  | FinalError e => throw e                 (* request.onerror: reject(request.error) *)
  | FinalSuccess body =>
      modify (with_indexedDB connect) ;;
      handler_body body ;;                  (* catch (error) { reject(error) } *)
      db <- gets indexedDB ;;
      if negb (includes (objectStoreNames db) store)
      then throw NotFoundError              (* db.transaction([store], ...) *)
      else
        match body with
        | RequestFails e => throw e         (* the request's onerror: reject *)
        | _ =>
            a <- (fun w => let (a, db') := run (indexedDB w) in
                           (Ok a, with_indexedDB (fun _ => db') w)) ;;
            modify (with_indexedDB close) ;;
            ret a
        end
  end.

(** An adapter call, entered in the history when it settles. *)
Definition traced {D A} (o : AdapterOp) (a : string) (m : M D A) : M D A :=
  fun w =>
    match m w with
    | (Ok v, w1) => (Ok v, with_indexedDB (record_call (mkCall o a None)) w1)
    | (Throw e, w1) => (Throw e, with_indexedDB (record_call (mkCall o a (Some e))) w1)
    end.

Module ProviderDB.

Definition isAvailable {D} : M D bool := gets indexedDBSchemaValid.

Definition getAllProfiles {D} : M D (list ProfileRecord.t) :=
  traced GetAllProfiles ""
    (valid <- gets indexedDBSchemaValid ;;
     if negb valid then ret []
     else transact "profiles" (fun db => (profiles db, db))).

Definition getProviderConfigsByProfile {D} (profileId : string)
  : M D (list ProviderConfig.t) :=
  traced GetProviderConfigsByProfile profileId
    (valid <- gets indexedDBSchemaValid ;;
     if negb valid then ret []
     else transact "provider_configs"
            (fun db => (filter (fun c => ProviderConfig.profileId c =? profileId)
                               (provider_configs db), db))).

(** [store.get(key)] on [app_metadata]. *)
Definition get_meta (key : string) (db : IndexedDB) : option MetaRecord.t :=
  find (fun r => MetaRecord.key r =? key) (app_metadata db).

Definition getMetadata {D} (key : string) : M D JSValue :=
  traced GetMetadata key
    (valid <- gets indexedDBSchemaValid ;;
     if negb valid then ret JNull
     else transact "app_metadata"
            (fun db => (match get_meta key db with
                        | Some result => MetaRecord.value result
                        | None => JNull
                        end, db))).

(** [resolve(result?.value || 0)] *)
Definition getSchemaVersion {D} : M D JSValue :=
  traced GetSchemaVersion ""
    (valid <- gets indexedDBSchemaValid ;;
     if negb valid then ret (JNumber 0)
     else transact "app_metadata"
            (fun db => (js_or (match get_meta "schema_version" db with
                               | Some result => MetaRecord.value result
                               | None => JUndefined
                               end) (JNumber 0), db))).

Definition deleteProviderConfig {D} (id : string) : M D unit :=
  traced DeleteProviderConfig id
    (valid <- gets indexedDBSchemaValid ;;
     if negb valid then ret tt
     else transact "provider_configs"
            (fun db => (tt, set_provider_configs
                              (filter (fun c => negb (ProviderConfig.id c =? id))
                                      (provider_configs db)) db))).

Definition deleteProfile {D} (id : string) : M D unit :=
  traced DeleteProfile id
    (valid <- gets indexedDBSchemaValid ;;
     if negb valid then ret tt
     else transact "profiles"
            (fun db => (tt, set_profiles
                              (filter (fun p => negb (ProfileRecord.id p =? id))
                                      (profiles db)) db))).

(** [resolve(getRequest.result || null)].  The engine never calls this
    operation; it is not entered in the history. *)
Definition getProfile {D} (id : string) : M D (option ProfileRecord.t) :=
  valid <- gets indexedDBSchemaValid ;;
  if negb valid then ret None
  else transact "profiles"
         (fun db => (find (fun p => ProfileRecord.id p =? id) (profiles db), db)).

End ProviderDB.

(* ===================================================================== *)
(** ** The localStorage provider *)
(* ===================================================================== *)

Module LocalStorageProvider.

(** Modelled from the spec: the class [LocalStorageProvider]
    ([local-storage-provider.ts]) is not among the sources.  The Durable
    Key-Value Store is taken as the interface the engine consumes (spec,
    section 6).  A read leaves the store as it is; a write either
    returns the new store or raises and leaves the store as it was.
    [getProviderConfigsByProfile] returns the stored configs, of which
    the engine only takes the number. *)
Class Interface (D : Type) : Type := {
  isAvailable : D -> bool;
  getSchemaVersion : D -> Res Z;
  setSchemaVersion : Z -> D -> Res D;
  saveProfile : ProfileRecord.t -> D -> Res D;
  saveProviderConfig : ProviderConfigInput.t -> D -> Res D;
  setMetadata : string -> JSValue -> D -> Res D;
  getAllProfiles : D -> Res (list ProfileRecord.t);
  getProviderConfigsByProfile : string -> D -> Res (list ProviderConfigInput.t)
}.

End LocalStorageProvider.

(** A call that reads the provider. *)
Definition reading {D A} (f : D -> Res A) : M D A :=
  fun w => (f (localStorageProvider w), w).

(** A call that writes the provider. *)
Definition writing {D} (f : D -> Res D) : M D unit :=
  fun w =>
    match f (localStorageProvider w) with
    | Ok d => (Ok tt, with_provider d w)
    | Throw e => (Throw e, w)
    end.

(* ===================================================================== *)
(** ** The migration engine *)
(* ===================================================================== *)

Module MigrationResult.
Record t : Type := mk {
  success : bool;
  message : string;
  migratedItems : nat
}.
End MigrationResult.

(** The declared result of [migrateAndCleanup]. *)
Module CleanupResult.
Record t : Type := mk {
  success : bool;
  message : string
}.
End CleanupResult.

Module MigrationStatus.
Record t : Type := mk {
  needsMigration : bool;
  localStorageAvailable : bool;
  localStorageItems : nat;
  indexedDBAvailable : bool;
  indexedDBItems : nat
}.
End MigrationStatus.

(** A counting loop inside a [try] block whose [catch] does not reset the
    counter: the loop stops at the first exception and hands back the
    counter as it then stands, with the exception. *)
Fixpoint forFoldTry {D A S} (f : S -> A -> M D S) (l : list A) (acc : S)
  : M D (S * option exn) :=
  match l with
  | [] => ret (acc, None)
  | x :: rest =>
      fun w =>
        match f acc x w with
        | (Ok acc', w1) => forFoldTry f rest acc' w1
        | (Throw e, w1) => (Ok (acc, Some e), w1)
        end
  end.

(** [o[key] = v] on an object used as a map: a key that is present keeps
    its place and takes the new value, a new key goes last. *)
Fixpoint assign {V} (key : string) (v : V) (o : list (string * V))
  : list (string * V) :=
  match o with
  | [] => [(key, v)]
  | (k, old) :: rest =>
      if k =? key then (key, v) :: rest else (k, old) :: assign key v rest
  end.

(** The object [exportIndexedDBData] hands to [JSON.stringify]. *)
Module ExportDocument.
Record t : Type := mk {
  profiles : list ProfileRecord.t;
  providers : list (string * ProviderConfig.t);
  metadata : list (string * JSValue);
  exportedAt : string
}.
End ExportDocument.

Module LocalStorageMigration.
Section Engine.

Context {D : Type} `{LocalStorageProvider.Interface D}.

(** The object literal passed to [saveProviderConfig]. *)
Definition relay (config : ProviderConfig.t) : ProviderConfigInput.t :=
  ProviderConfigInput.mk
    (ProviderConfig.profileId config)
    (ProviderConfig.providerId config)
    (ProviderConfig.providerType config)
    (ProviderConfig.apiKey config)          (* API keys are already encrypted *)
    (ProviderConfig.model config)
    (ProviderConfig.baseUrl config)
    (ProviderConfig.enabled config)
    (ProviderConfig.customName config)
    (ProviderConfig.customModels config).

(** [schemaValid = await hasValidIndexedDBSchema();
     indexedDBSchemaValid = schemaValid] *)
Definition revalidate : M D bool :=
  schemaValid <- hasValidIndexedDBSchema ;;
  modify (with_flag schemaValid) ;;
  ret schemaValid.

Definition isMigrationNeeded : M D bool :=
  try_catch
    (currentVersion <- reading LocalStorageProvider.getSchemaVersion ;;
     if (2 <=? currentVersion)%Z then ret false
     else
       schemaValid <- revalidate ;;
       present <- gets ProviderDB ;;
       if negb present || negb schemaValid then
         writing (LocalStorageProvider.setSchemaVersion 2) ;;
         ret false
       else
         profiles <- ProviderDB.getAllProfiles ;;
         if Nat.eqb (List.length profiles) 0 then
           writing (LocalStorageProvider.setSchemaVersion 2) ;;
           ret false
         else ret true)
    (fun error =>
       console_error "Error checking migration status:" (Some error) ;;
       try_catch (writing (LocalStorageProvider.setSchemaVersion 2))
                 (fun _ => ret tt) ;;
       ret false).

(** The two loops of [migrate] and its metadata block, each taking and
    giving back the local counters. *)
Definition migrate_profiles (profiles : list ProfileRecord.t) (migratedItems : nat)
  : M D nat :=
  forFold (fun migratedItems profile =>
             writing (LocalStorageProvider.saveProfile profile) ;;
             ret (S migratedItems))
          profiles migratedItems.

Definition migrate_configs (allProfiles : list ProfileRecord.t)
    (counters : nat * nat) : M D (nat * nat) :=
  forFold (fun counters profile =>
             configs <- ProviderDB.getProviderConfigsByProfile (ProfileRecord.id profile) ;;
             console_log
               (String.append "Migrating "
                 (String.append (string_of_nat (List.length configs))
                   (String.append " provider configs for profile "
                                  (ProfileRecord.name profile)))) ;;
             forFold (fun counters config =>
                        writing (LocalStorageProvider.saveProviderConfig (relay config)) ;;
                        ret (S (fst counters), S (snd counters)))
                     configs counters)
          allProfiles counters.

(** The source has one [try] block here.  It is written as two nested
    ones so that an exception in the second half keeps the increment
    the first half made to the local counter. *)
Definition migrate_metadata (migratedItems : nat) : M D nat :=
  try_catch
    (activeProfileId <- ProviderDB.getMetadata "active_profile_id" ;;
     migratedItems1 <-
       (if truthy activeProfileId then
          writing (LocalStorageProvider.setMetadata "active_profile_id" activeProfileId) ;;
          ret (S migratedItems)
        else ret migratedItems) ;;
     try_catch
       (schemaVersion <- ProviderDB.getSchemaVersion ;;
        writing (LocalStorageProvider.setMetadata "schema_version" schemaVersion) ;;
        ret (S migratedItems1))
       (fun error =>
          console_warn "Error migrating metadata:" (Some error) ;;
          ret migratedItems1))
    (fun error =>
       console_warn "Error migrating metadata:" (Some error) ;;
       ret migratedItems).

Definition migrate : M D MigrationResult.t :=
  available <- gets (fun w => LocalStorageProvider.isAvailable (localStorageProvider w)) ;;
  if negb available then
    ret (MigrationResult.mk false "localStorage is not available" 0)
  else
    schemaValid <- revalidate ;;
    present <- gets ProviderDB ;;
    if negb present || negb schemaValid then
      ret (MigrationResult.mk false
             "IndexedDB is not available or has invalid schema" 0)
    else
      try_catch
        (console_log "Starting IndexedDB to localStorage migration..." ;;
         profiles <- ProviderDB.getAllProfiles ;;
         console_log
           (String.append "Found "
             (String.append (string_of_nat (List.length profiles)) " profiles to migrate")) ;;
         migratedItems <- migrate_profiles profiles 0 ;;
         allProfiles <- ProviderDB.getAllProfiles ;;
         counters <- migrate_configs allProfiles (migratedItems, 0) ;;
         migratedItems <- migrate_metadata (fst counters) ;;
         writing (LocalStorageProvider.setSchemaVersion 2) ;;
         console_log
           (String.append "Migration completed successfully. Migrated "
             (String.append (string_of_nat migratedItems) " items.")) ;;
         ret (MigrationResult.mk true
                (String.append "Successfully migrated "
                  (String.append (string_of_nat (List.length profiles))
                    (String.append " profiles and "
                      (String.append (string_of_nat (snd counters))
                                     " provider configurations"))))
                migratedItems))
        (fun error =>
           console_error "Migration failed:" (Some error) ;;
           ret (MigrationResult.mk false
                  (String.append "Migration failed: " (error_message error))
                  0)).

(** The two deletion loops of [clearIndexedDB]. *)
Definition delete_configs (profiles : list ProfileRecord.t) : M D unit :=
  forEach (fun profile =>
             configs <- ProviderDB.getProviderConfigsByProfile (ProfileRecord.id profile) ;;
             forEach (fun config =>
                        ProviderDB.deleteProviderConfig (ProviderConfig.id config))
                     configs)
          profiles.

Definition delete_profiles (profiles : list ProfileRecord.t) : M D unit :=
  forEach (fun profile =>
             if negb (ProfileRecord.isDefault profile) then
               try_catch
                 (ProviderDB.deleteProfile (ProfileRecord.id profile))
                 (fun error =>
                    console_warn
                      (String.append "Could not delete profile "
                        (String.append (ProfileRecord.id profile) ":"))
                      (Some error))
             else ret tt)
          profiles.

Definition clearIndexedDB : M D unit :=
  schemaValid <- revalidate ;;
  present <- gets ProviderDB ;;
  if negb present || negb schemaValid then
    console_warn
      "IndexedDB not available or has invalid schema, skipping cleanup" None
  else
    try_catch
      (console_log "Clearing IndexedDB after migration..." ;;
       profiles <- ProviderDB.getAllProfiles ;;
       delete_configs profiles ;;
       delete_profiles profiles ;;
       console_log "IndexedDB cleanup completed")
      (fun error =>
         console_error "Error clearing IndexedDB:" (Some error) ;;
         throw error).

(** An unsuccessful [migrationResult] is returned as it is; the result
    is read at its declared type. *)
Definition migrateAndCleanup : M D CleanupResult.t :=
  migrationResult <- migrate ;;
  if negb (MigrationResult.success migrationResult) then
    ret (CleanupResult.mk (MigrationResult.success migrationResult)
                          (MigrationResult.message migrationResult))
  else
    try_catch
      (clearIndexedDB ;;
       ret (CleanupResult.mk true
              (String.append (MigrationResult.message migrationResult)
                             " IndexedDB has been cleaned up.")))
      (fun error =>
         ret (CleanupResult.mk true
                (String.append (MigrationResult.message migrationResult)
                  (String.append " Warning: Could not clear IndexedDB: "
                                 (exn_toString error))))).

(** The counting block of one side of [getMigrationStatus]: the count
    keeps what was added before an exception. *)
Definition count_items {P C : Type}
    (allProfiles : M D (list P)) (configsOf : P -> M D (list C))
  : M D (nat * option exn) :=
  try_catch
    (profiles <- allProfiles ;;
     forFoldTry (fun items profile =>
                   configs <- configsOf profile ;;
                   ret (items + List.length configs))
                profiles (List.length profiles))
    (fun error => ret (0, Some error)).

Definition getMigrationStatus : M D MigrationStatus.t :=
  localStorageAvailable <-
    gets (fun w => LocalStorageProvider.isAvailable (localStorageProvider w)) ;;
  schemaValid <- revalidate ;;
  present <- gets ProviderDB ;;
  indexedDBAvailable <-
    (if present && schemaValid then ProviderDB.isAvailable else ret false) ;;
  needsMigration <- isMigrationNeeded ;;
  localStorageItems <-
    (if localStorageAvailable then
       counted <- count_items
                    (reading LocalStorageProvider.getAllProfiles)
                    (fun profile =>
                       reading (LocalStorageProvider.getProviderConfigsByProfile
                                  (ProfileRecord.id profile))) ;;
       match snd counted with
       | Some error =>
           console_warn "Error counting localStorage items:" (Some error) ;;
           ret (fst counted)
       | None => ret (fst counted)
       end
     else ret 0) ;;
  indexedDBItems <-
    (if indexedDBAvailable && present && schemaValid then
       counted <- count_items
                    ProviderDB.getAllProfiles
                    (fun profile =>
                       ProviderDB.getProviderConfigsByProfile (ProfileRecord.id profile)) ;;
       match snd counted with
       | Some error =>
           console_warn "Error counting IndexedDB items:" (Some error) ;;
           ret 0                              (* indexedDBItems = 0 *)
       | None => ret (fst counted)
       end
     else ret 0) ;;
  ret (MigrationStatus.mk needsMigration localStorageAvailable
                          localStorageItems indexedDBAvailable indexedDBItems).

(** [`${profile.id}:${config.providerId}`] *)
Definition export_key (profile : ProfileRecord.t) (config : ProviderConfig.t) : string :=
  String.append (ProfileRecord.id profile)
    (String.append ":" (ProviderConfig.providerId config)).

(** The metadata block of [exportIndexedDBData]: one [try] block in the
    source, written as two nested ones so that a failure of the second
    read keeps the property the first one assigned. *)
Definition export_metadata : M D (list (string * JSValue)) :=
  try_catch
    (activeProfileId <- ProviderDB.getMetadata "active_profile_id" ;;
     let metadata := assign "active_profile_id" activeProfileId [] in
     try_catch
       (schemaVersion <- ProviderDB.getSchemaVersion ;;
        ret (assign "schema_version" schemaVersion metadata))
       (fun error =>
          console_warn "Error exporting metadata:" (Some error) ;;
          ret metadata))
    (fun error =>
       console_warn "Error exporting metadata:" (Some error) ;;
       ret []).

(** [exportIndexedDBData], up to the call of [JSON.stringify]: the
    result is the object that is serialized, and [now] is what
    [new Date().toISOString()] gives. *)
Definition exportIndexedDBData (now : string) : M D ExportDocument.t :=
  schemaValid <- revalidate ;;
  present <- gets ProviderDB ;;
  if negb present || negb schemaValid then
    throw (JSError "Error" "IndexedDB is not available or has invalid schema")
  else
    try_catch
      (profiles <- ProviderDB.getAllProfiles ;;
       providerConfigs <-
         forFold (fun providerConfigs profile =>
                    configs <- ProviderDB.getProviderConfigsByProfile
                                 (ProfileRecord.id profile) ;;
                    ret (fold_left
                           (fun o config => assign (export_key profile config) config o)
                           configs providerConfigs))
                 profiles [] ;;
       metadata <- export_metadata ;;
       ret (ExportDocument.mk profiles providerConfigs metadata now))
      (fun error =>
         throw (JSError "Error"
                  (String.append "Failed to export IndexedDB data: "
                                 (exn_toString error)))).

End Engine.
End LocalStorageMigration.

(* ===================================================================== *)
(** ** Two providers to run the engine against *)
(* ===================================================================== *)

Module KVStore.

(** Modelled from the spec: a Durable Key-Value Store (the class
    [LocalStorageProvider] is not among the sources) that "stores
    profile records, provider-config records, and arbitrary metadata
    keyed by string, with a schema-version counter" (section 2), whose
    writes are "idempotent upserts by id" (section 4.2).  Profiles are
    keyed by [id] and provider configs by profile and provider.  Every
    operation raises when the store is not available. *)
Record t : Type := mk {
  available : bool;
  profiles : list ProfileRecord.t;
  configs : list ProviderConfigInput.t;
  metadata : list (string * JSValue);
  version : Z
}.

Fixpoint upsert {A} (same : A -> bool) (x : A) (l : list A) : list A :=
  match l with
  | [] => [x]
  | y :: rest => if same y then x :: rest else y :: upsert same x rest
  end.

Definition unavailable : exn := JSError "Error" "localStorage is not available".

Definition guarded {A} (s : t) (a : A) : Res A :=
  if available s then Ok a else Throw unavailable.

Definition same_profile (p q : ProfileRecord.t) : bool :=
  ProfileRecord.id q =? ProfileRecord.id p.

Definition same_config (c d : ProviderConfigInput.t) : bool :=
  (ProviderConfigInput.profileId d =? ProviderConfigInput.profileId c)
  && (ProviderConfigInput.providerId d =? ProviderConfigInput.providerId c).

#[global] Instance provider : LocalStorageProvider.Interface t := {
  isAvailable s := available s;
  getSchemaVersion s := guarded s (version s);
  setSchemaVersion n s :=
    guarded s (mk (available s) (profiles s) (configs s) (metadata s) n);
  saveProfile p s :=
    guarded s (mk (available s) (upsert (same_profile p) p (profiles s))
                  (configs s) (metadata s) (version s));
  saveProviderConfig c s :=
    guarded s (mk (available s) (profiles s)
                  (upsert (same_config c) c (configs s))
                  (metadata s) (version s));
  setMetadata k v s :=
    guarded s (mk (available s) (profiles s) (configs s)
                  (upsert (fun e => fst e =? k) (k, v) (metadata s))
                  (version s));
  getAllProfiles s := guarded s (profiles s);
  getProviderConfigsByProfile profileId s :=
    guarded s (filter (fun c => ProviderConfigInput.profileId c =? profileId)
                      (configs s))
}.

Definition empty : t := mk true [] [] [] 0.

End KVStore.

Module Journal.

(** A write the provider accepted. *)
Inductive Call : Type :=
| SaveProfile (profile : ProfileRecord.t)
| SaveProviderConfig (config : ProviderConfigInput.t)
| SetMetadata (key : string) (value : JSValue)
| SetSchemaVersion (n : Z).

(** A provider together with the writes it has accepted, oldest first. *)
Record t (D : Type) : Type := mk { store : D; calls : list Call }.
Arguments mk {D}.
Arguments store {D}.
Arguments calls {D}.

Definition noting {D} (c : Call) (f : D -> Res D) (j : t D) : Res (t D) :=
  match f (store j) with
  | Ok d => Ok (mk d (calls j ++ [c]))
  | Throw e => Throw e
  end.

#[global] Instance provider {D} `{LocalStorageProvider.Interface D}
  : LocalStorageProvider.Interface (t D) := {
  isAvailable j := LocalStorageProvider.isAvailable (store j);
  getSchemaVersion j := LocalStorageProvider.getSchemaVersion (store j);
  setSchemaVersion n := noting (SetSchemaVersion n) (LocalStorageProvider.setSchemaVersion n);
  saveProfile p := noting (SaveProfile p) (LocalStorageProvider.saveProfile p);
  saveProviderConfig c :=
    noting (SaveProviderConfig c) (LocalStorageProvider.saveProviderConfig c);
  setMetadata k v := noting (SetMetadata k v) (LocalStorageProvider.setMetadata k v);
  getAllProfiles j := LocalStorageProvider.getAllProfiles (store j);
  getProviderConfigsByProfile profileId j :=
    LocalStorageProvider.getProviderConfigsByProfile profileId (store j)
}.

End Journal.

(* ===================================================================== *)
(** ** Listing the models of an endpoint *)
(* ===================================================================== *)

(** [s.endsWith(suffix)] *)
Definition endsWith (s suffix : string) : bool :=
  (String.length suffix <=? String.length s)%nat
  && (substring (String.length s - String.length suffix) (String.length suffix) s
      =? suffix).

(** A shallow embedding of [src/lib/ai/fetch-models.ts].  The network is
    a function from the request to what [fetch] does with it; the run
    gives the result together with the requests it made. *)
Module FetchModels.

(** The request [fetchModels] builds: a GET with a JSON content type. *)
Record Request : Type := mkRequest {
  url : string;
  authorization : string
}.

(** What [response.json()] resolves to: [null], or an object whose
    [data] is an array (given by the [id] of each element, [JUndefined]
    when an element has none) or anything else. *)
Inductive Body : Type :=
| BodyNull
| BodyObject (data : option (list JSValue)).

Record Response : Type := mkResponse {
  ok : bool;
  status : nat;
  statusText : string;
  json : Res Body
}.

Record FetchModelsResult : Type := mkResult {
  success : bool;
  models : list JSValue;
  message : string
}.

(** Reading [data.data] of [null] (the message is V8's). *)
Definition null_data : exn :=
  JSError "TypeError" "Cannot read properties of null (reading 'data')".

(** [error instanceof Error ? error.message : "Failed to fetch models"] *)
Definition failure_message (e : exn) : string :=
  match e with
  | JSError _ m => m
  | Thrown _ => "Failed to fetch models"
  end.

Definition models_url (baseUrl : string) : string :=
  if endsWith baseUrl "/" then String.append baseUrl "models"
  else String.append baseUrl "/models".

Definition fetchModels (fetch : Request -> Res Response) (baseUrl apiKey : string)
  : FetchModelsResult * list Request :=
  if baseUrl =? "" then
    (mkResult false [] "Base URL is required", [])
  else
    let request := mkRequest (models_url baseUrl) (String.append "Bearer " apiKey) in
    let failed (e : exn) := mkResult false [] (failure_message e) in
    (match fetch request with
     | Throw e => failed e
     | Ok response =>
         if negb (ok response) then
           mkResult false []
             (String.append "Failed to fetch models: "
                (String.append (string_of_nat (status response))
                   (String.append " " (statusText response))))
         else
           match json response with
           | Throw e => failed e
           | Ok BodyNull => failed null_data
           | Ok (BodyObject None) => mkResult false [] "Invalid response format"
           | Ok (BodyObject (Some ids)) =>
               let models := filter truthy ids in
               mkResult true models
                 (String.append "Found "
                    (String.append (string_of_nat (List.length models)) " model(s)"))
           end
     end, [request]).

End FetchModels.

(* ===================================================================== *)
(** ** Sample data *)
(* ===================================================================== *)

Module Sample.

Definition work : ProfileRecord.t := ProfileRecord.mk "p-work" "Work" true.
Definition home : ProfileRecord.t := ProfileRecord.mk "p-home" "Home" false.

Definition key1 : EncryptedData.t := EncryptedData.mk "aXYx" "ZGF0YTE=".
Definition key2 : EncryptedData.t := EncryptedData.mk "aXYy" "ZGF0YTI=".

Definition config (id profileId providerId : string)
    (apiKey : option EncryptedData.t) : ProviderConfig.t :=
  ProviderConfig.mk id profileId providerId builtin apiKey "default-model"
                    None true None None 1700000000000 1700000000000.

Definition c1 := config "c1" "p-work" "openai" (Some key1).
Definition c2 := config "c2" "p-home" "anthropic" (Some key2).
Definition c3 := config "c3" "p-home" "google" None.

(** A valid legacy database: two profiles, the default one with one
    provider config and the other with two. *)
Definition legacy (meta : list MetaRecord.t) (fs : list Fate) : IndexedDB :=
  mkIDB true ["profiles"; "provider_configs"; "app_metadata"]
        [work; home] [c1; c2; c3] meta fs 0 0 [].

Definition world {D} (db : IndexedDB) (d : D) : World D :=
  mkWorld db false true d [].

Definition boom : exn := JSError "AbortError" "The transaction was aborted.".

Definition failing_request : Fate := OpenEvents false (FinalSuccess (RequestFails boom)).


(** The schema flag is down. *)
Definition flag_down : World KVStore.t :=
  world (legacy [MetaRecord.mk "schema_version" (JNumber 1)] []) KVStore.empty.

(** The schema flag is up and no version is recorded. *)
Definition no_version : World KVStore.t :=
  with_flag true (world (legacy [] []) KVStore.empty).

(** The schema flag is up and the recorded version is 0. *)
Definition version_zero : World KVStore.t :=
  with_flag true
    (world (legacy [MetaRecord.mk "schema_version" (JNumber 0)] []) KVStore.empty).

(** Everything goes well until the first deletion of a provider config,
    the eleventh open request of [migrateAndCleanup]. *)
Definition cleanup_fails : World KVStore.t :=
  world (legacy [] (repeat fine 10 ++ [failing_request])) KVStore.empty.

(** A legacy database without tables and a provider that was never
    migrated. *)
Definition fresh_install : World KVStore.t :=
  world (mkIDB true [] [] [] [] [] 0 0 []) KVStore.empty.

(** Both profiles are written, then reading the provider configs of
    the first profile fails (the fourth open request of [migrate]). *)
Definition interrupted : World (Journal.t KVStore.t) :=
  world (legacy [] [fine; fine; fine; failing_request])
        (Journal.mk KVStore.empty []).

(** The first deletion of a provider config fails (the fourth open
    request of [clearIndexedDB]). *)
Definition config_deletion_fails : World KVStore.t :=
  world (legacy [] [fine; fine; fine; failing_request]) KVStore.empty.

(** The deletion of the profile [home] fails (the ninth open request
    of [clearIndexedDB]), in a database with a third profile after it. *)
Definition guest : ProfileRecord.t := ProfileRecord.mk "p-zz" "Guest" false.

Definition profile_deletion_fails : World KVStore.t :=
  world (mkIDB true ["profiles"; "provider_configs"; "app_metadata"]
               [work; home; guest] [c1; c2; c3] []
               (repeat fine 8 ++ [failing_request]) 0 0 [])
        KVStore.empty.

(** The scenario of the spec, without and with an active profile. *)
Definition two_profiles : World KVStore.t :=
  world (legacy [] []) KVStore.empty.

Definition two_profiles_active : World KVStore.t :=
  world (legacy [MetaRecord.mk "active_profile_id" (JString "p-home");
                 MetaRecord.mk "schema_version" (JNumber 1)] [])
        KVStore.empty.

(** The legacy store of the scenario, and a provider that keeps a
    journal. *)
Definition two_profiles_journaled : World (Journal.t KVStore.t) :=
  world (legacy [] []) (Journal.mk KVStore.empty []).

(** The default profile is the only profile. *)
Definition only_default : World KVStore.t :=
  world (mkIDB true ["profiles"; "provider_configs"; "app_metadata"]
               [work] [c1] [] [] 0 0 []) KVStore.empty.

(** A provider already at version 2 next to a legacy store that still
    holds data. *)
Definition already_migrated : World KVStore.t :=
  world (legacy [] []) (KVStore.mk true [] [] [] 2).

(** A legacy database whose [provider_configs] table is missing, with
    profiles in it, and a provider at version 0. *)
Definition missing_table : World KVStore.t :=
  world (mkIDB true ["profiles"; "app_metadata"] [work; home] [] [] [] 0 0 [])
        KVStore.empty.

(** The legacy store of the scenario with one more provider config,
    owned by a profile that is not in the profiles table. *)
Definition c4 := config "c4" "p-gone" "mistral" None.

Definition with_orphan : World KVStore.t :=
  world (mkIDB true ["profiles"; "provider_configs"; "app_metadata"]
               [work; home] [c1; c2; c3; c4] [] [] 0 0 [])
        KVStore.empty.

(** Everything is written, then reading the schema version of the
    legacy store fails inside the metadata block (the seventh open
    request of [migrate]). *)
Definition metadata_read_fails : World (Journal.t KVStore.t) :=
  world (legacy [] (repeat fine 6 ++ [failing_request]))
        (Journal.mk KVStore.empty []).

End Sample.

(* ===================================================================== *)
(** ** Vocabulary of the statements *)
(* ===================================================================== *)

(** A Hoare triple with a normal and an exceptional postcondition: from
    a world satisfying [P], [m] either returns [a] in a world satisfying
    [Q a] or throws [e] in a world satisfying [E e]. *)
Definition triple {D A} (P : World D -> Prop) (m : M D A)
    (Q : A -> World D -> Prop) (E : exn -> World D -> Prop) : Prop :=
  forall w, P w ->
    match m w with
    | (Ok a, w') => Q a w'
    | (Throw e, w') => E e w'
    end.

(** [J] survives [m], whether [m] returns or throws. *)
Definition invariant {D A} (J : World D -> Prop) (m : M D A) : Prop :=
  triple J m (fun _ => J) (fun _ => J).

(** What the legacy database holds. *)
Definition contents (db : IndexedDB)
  : list string * list ProfileRecord.t * list ProviderConfig.t * list MetaRecord.t :=
  (objectStoreNames db, profiles db, provider_configs db, app_metadata db).

(** Two worlds that differ at most in the schema flag, in the console
    and in the bookkeeping of the database (fates, counters, history). *)
Definition steady {D} (w w' : World D) : Prop :=
  ProviderDB w' = ProviderDB w /\
  localStorageProvider w' = localStorageProvider w /\
  defined (indexedDB w') = defined (indexedDB w) /\
  contents (indexedDB w') = contents (indexedDB w).

(** [J] does not look at what [steady] worlds may differ in. *)
Definition stable {D} (J : World D -> Prop) : Prop :=
  forall w w', steady w w' -> J w -> J w'.

(** The history entry of a call that ended in [r]. *)
Definition entry {A} (o : AdapterOp) (a : string) (r : Res A) : AdapterCall :=
  mkCall o a (match r with Ok _ => None | Throw e => Some e end).

(** The first event of the coming open request is [success] and the
    handler's try block raises nothing. *)
Definition opens_successfully (db : IndexedDB) : Prop :=
  defined db = true /\
  exists body, next_fate db = OpenEvents false (FinalSuccess body) /\
               forall e, body <> BodyThrows e.

Definition has_table (db : IndexedDB) (table : string) : Prop :=
  In table (objectStoreNames db).

(** A write as [migrate] may make it: a provider config is the relay of
    a config of the legacy store [legacy], with the very [apiKey] found
    there; the other writes are not constrained. *)
Definition relayed (legacy : list ProviderConfig.t) (call : Journal.Call) : Prop :=
  match call with
  | Journal.SaveProviderConfig c =>
      exists config,
        In config legacy /\
        c = LocalStorageMigration.relay config /\
        ProviderConfigInput.apiKey c = ProviderConfig.apiKey config
  | _ => True
  end.

(** The provider configs of a profile, as the index "by-profileId"
    gives them. *)
Definition configs_of (db : IndexedDB) (p : ProfileRecord.t) : list ProviderConfig.t :=
  filter (fun c => ProviderConfig.profileId c =? ProfileRecord.id p)
         (provider_configs db).

(** What [getMetadata("active_profile_id")] finds. *)
Definition active_profile_id (db : IndexedDB) : JSValue :=
  match ProviderDB.get_meta "active_profile_id" db with
  | Some result => MetaRecord.value result
  | None => JNull
  end.

(** The metadata entries [migrate] copies when nothing fails: the schema
    version, and the active profile id when there is one. *)
Definition metadata_copied (db : IndexedDB) : nat :=
  if truthy (active_profile_id db) then 2 else 1.

(** No request is going to fail, the three tables exist, the adapter is
    there and the provider is available. *)
Definition calm (w : World KVStore.t) : Prop :=
  defined (indexedDB w) = true /\
  ProviderDB w = true /\
  fates (indexedDB w) = [] /\
  forallb (fun store => includes (objectStoreNames (indexedDB w)) store)
          requiredStores = true /\
  KVStore.available (localStorageProvider w) = true.

(** The scenario of the spec: a calm world whose legacy store holds two
    profiles, a default one with one provider config and another one
    with two. *)
Definition two_profile_scenario (w : World KVStore.t) (p q : ProfileRecord.t) : Prop :=
  calm w /\
  (profiles (indexedDB w) = [p; q] \/ profiles (indexedDB w) = [q; p]) /\
  ProfileRecord.isDefault p = true /\
  ProfileRecord.isDefault q = false /\
  List.length (configs_of (indexedDB w) p) = 1 /\
  List.length (configs_of (indexedDB w) q) = 2.

Definition is_DeleteProfile (c : AdapterCall) : bool :=
  match op c with
  | DeleteProfile => true
  | _ => false
  end.

Definition not_default (p : ProfileRecord.t) : bool :=
  negb (ProfileRecord.isDefault p).

(** The coming adapter request goes through: the database opens, the
    handler raises nothing and the store request succeeds. *)
Definition goes_through (db : IndexedDB) : Prop :=
  exists blocked, next_fate db = OpenEvents blocked (FinalSuccess BodyOk).

(** A required table is missing from the legacy database. *)
Definition broken (db : IndexedDB) : Prop :=
  forallb (fun store => includes (objectStoreNames db) store) requiredStores = false.

(** The error of the guard of [exportIndexedDBData]. *)
Definition export_refused : exn :=
  JSError "Error" "IndexedDB is not available or has invalid schema".

(** The database is there with its three tables, and no request is
    going to fail. *)
Definition untroubled (db : IndexedDB) : Prop :=
  defined db = true /\
  fates db = [] /\
  forallb (fun store => includes (objectStoreNames db) store) requiredStores = true.

(** The provider configs no listed profile owns. *)
Definition orphans (db : IndexedDB) : list ProviderConfig.t :=
  filter (fun c => negb (existsb (fun p => ProviderConfig.profileId c
                                           =? ProfileRecord.id p)
                                 (profiles db)))
         (provider_configs db).

(** The connections an adapter call leaves open that ended in [r] and
    whose open request had the fate [f]: one, when the call rejects after
    the database was opened. *)
Definition left_open {A} (r : Res A) (f : Fate) : nat :=
  match r, f with
  | Throw _, OpenEvents _ (FinalSuccess _) => 1
  | _, _ => 0
  end.

(** The call [m] made in [w] has closed its connection unless it
    rejected after the database was opened. *)
Definition closes_on_success_only {D A} (m : M D A) (w : World D) : Prop :=
  open_conns (indexedDB (snd (m w)))
  = open_conns (indexedDB w) + left_open (fst (m w)) (next_fate (indexedDB w)).

(** [store.get(id)] on the profiles table. *)
Definition profile_of (id : string) (db : IndexedDB) : option ProfileRecord.t :=
  find (fun p => ProfileRecord.id p =? id) (profiles db).

(** The error [exportIndexedDBData] wraps a failure of its reads in. *)
Definition export_failed (cause : exn) : exn :=
  JSError "Error"
    (String.append "Failed to export IndexedDB data: " (exn_toString cause)).


(** An adapter call that listed the profiles, or the provider configs of
    a profile, and failed. *)
Definition failed_listing (c : AdapterCall) : bool :=
  match op c, failure c with
  | GetAllProfiles, Some _ => true
  | GetProviderConfigsByProfile, Some _ => true
  | _, _ => false
  end.

Definition is_SetSchemaVersion (c : Journal.Call) : bool :=
  match c with
  | Journal.SetSchemaVersion _ => true
  | _ => false
  end.

Definition is_SetMetadata (c : Journal.Call) : bool :=
  match c with
  | Journal.SetMetadata _ _ => true
  | _ => false
  end.

(** No write of the list sets the schema version. *)
Definition unmarked (written : list Journal.Call) : Prop :=
  forallb (fun c => negb (is_SetSchemaVersion c)) written = true.

(** The profile writes of a complete migration of [db], in the order of
    the profiles table. *)
Definition profile_writes (db : IndexedDB) : list Journal.Call :=
  map Journal.SaveProfile (profiles db).

(** The legacy configs a migration of [db] reaches: those of the first
    profile, then those of the second, and so on. *)
Definition reachable_configs (db : IndexedDB) : list ProviderConfig.t :=
  flat_map (configs_of db) (profiles db).

Definition config_write (config : ProviderConfig.t) : Journal.Call :=
  Journal.SaveProviderConfig (LocalStorageMigration.relay config).

Definition config_writes (db : IndexedDB) : list Journal.Call :=
  map config_write (reachable_configs db).

(** The writes a complete migration of [db] makes whatever the metadata:
    every profile, the relay of every provider config of a profile, and
    schema version 2. *)
Definition owed_writes (db : IndexedDB) : list Journal.Call :=
  profile_writes db ++ config_writes db ++ [Journal.SetSchemaVersion 2].

(* ===================================================================== *)
(** * Proofs *)
(* ===================================================================== *)

(** ** Reasoning rules of the monad *)

Section Rules.

Context {D : Type}.

Lemma bind_ok {A B} (m : M D A) (k : A -> M D B) w a w1 :
  m w = (Ok a, w1) -> bind m k w = k a w1.
Proof. unfold bind. intros ->. reflexivity. Qed.

Lemma try_ok_eq {A} (m : M D A) h w a w1 :
  m w = (Ok a, w1) -> try_catch m h w = (Ok a, w1).
Proof. unfold try_catch. intros ->. reflexivity. Qed.

Lemma triple_ret {A} (P : World D -> Prop) (a : A) Q E :
  (forall w, P w -> Q a w) -> triple P (ret a) Q E.
Proof. intros HQ w HP. now apply HQ. Qed.

Lemma triple_throw {A} (P : World D -> Prop) e (Q : A -> World D -> Prop) E :
  (forall w, P w -> E e w) -> triple P (throw e) Q E.
Proof. intros HE w HP. now apply HE. Qed.

Lemma triple_gets {A} (P : World D -> Prop) (f : World D -> A) Q E :
  (forall w, P w -> Q (f w) w) -> triple P (gets f) Q E.
Proof. intros HQ w HP. now apply HQ. Qed.

Lemma triple_modify (P : World D -> Prop) (f : World D -> World D) Q E :
  (forall w, P w -> Q tt (f w)) -> triple P (modify f) Q E.
Proof. intros HQ w HP. now apply HQ. Qed.

Lemma triple_bind {A B} P (m : M D A) (k : A -> M D B) Q1 Q E :
  triple P m Q1 E -> (forall a, triple (Q1 a) (k a) Q E) ->
  triple P (bind m k) Q E.
Proof.
  intros Hm Hk w HP. unfold bind. specialize (Hm w HP).
  destruct (m w) as [[a|e] w1]; [|assumption].
  now apply Hk.
Qed.

Lemma triple_try {A} P (m : M D A) h Q E1 E :
  triple P m Q E1 -> (forall e, triple (E1 e) (h e) Q E) ->
  triple P (try_catch m h) Q E.
Proof.
  intros Hm Hh w HP. unfold try_catch. specialize (Hm w HP).
  destruct (m w) as [[a|e] w1]; [assumption|].
  now apply Hh.
Qed.

Lemma triple_conseq {A} (P P' : World D -> Prop) (m : M D A)
    (Q Q' : A -> World D -> Prop) (E E' : exn -> World D -> Prop) :
  triple P m Q E ->
  (forall w, P' w -> P w) ->
  (forall a w, Q a w -> Q' a w) ->
  (forall e w, E e w -> E' e w) ->
  triple P' m Q' E'.
Proof.
  intros Hm HP HQ HE w Hw. specialize (Hm w (HP w Hw)).
  destruct (m w) as [[a|e] w1]; auto.
Qed.

(** A fact that does not depend on the world can be taken out of the
    precondition. *)
Lemma triple_pure {A} (P : World D -> Prop) (F : Prop) (m : M D A) Q E :
  (F -> triple P m Q E) -> triple (fun w => P w /\ F) m Q E.
Proof. intros Hm w [HP HF]. now apply Hm. Qed.

(** Two triples of one computation hold together. *)
Lemma triple_conj {A} (P1 P2 : World D -> Prop) (m : M D A) Q1 Q2 E1 E2 :
  triple P1 m Q1 E1 -> triple P2 m Q2 E2 ->
  triple (fun w => P1 w /\ P2 w) m
         (fun a w => Q1 a w /\ Q2 a w) (fun e w => E1 e w /\ E2 e w).
Proof.
  intros H1 H2 w [Hp1 Hp2]. specialize (H1 w Hp1). specialize (H2 w Hp2).
  destruct (m w) as [[a|e] w1]; auto.
Qed.

Lemma triple_if {A} P (b : bool) (m1 m2 : M D A) Q E :
  (b = true -> triple P m1 Q E) -> (b = false -> triple P m2 Q E) ->
  triple P (if b then m1 else m2) Q E.
Proof. intros H1 H2. destruct b; [apply H1|apply H2]; reflexivity. Qed.

Lemma triple_forEach {A} (I : World D -> Prop) (f : A -> M D unit) l E :
  (forall x, In x l -> triple I (f x) (fun _ => I) E) ->
  triple I (forEach f l) (fun _ => I) E.
Proof.
  induction l as [|x l IH]; intros Hf; simpl.
  - now apply triple_ret.
  - eapply triple_bind.
    + apply Hf. now left.
    + intros u. cbv beta. apply IH. intros y Hy. apply Hf. now right.
Qed.

(** A loop whose invariant speaks of the elements already handled. *)
Lemma triple_forEach_done {A} (I : list A -> World D -> Prop)
    (f : A -> M D unit) l E :
  (forall done x, triple (I done) (f x) (fun _ => I (done ++ [x])) E) ->
  forall done, triple (I done) (forEach f l) (fun _ => I (done ++ l)) E.
Proof.
  intros Hf. induction l as [|x l IH]; intros done; simpl.
  - apply triple_ret. intros w Hw. now rewrite app_nil_r.
  - apply triple_bind with (Q1 := fun _ => I (done ++ [x])); [apply Hf|].
    intros u. specialize (IH (done ++ [x])).
    rewrite <- app_assoc in IH. exact IH.
Qed.

(** A loop whose body computes the next value of the local variables
    as [g] does. *)
Lemma triple_forFold_step {A S} (C : World D -> Prop) (f : S -> A -> M D S)
    (g : S -> A -> S) l E :
  (forall s x, In x l -> triple C (f s x) (fun s' w => C w /\ s' = g s x) E) ->
  forall s, triple C (forFold f l s) (fun s' w => C w /\ s' = fold_left g l s) E.
Proof.
  induction l as [|x l IH]; intros Hf s; simpl.
  - apply triple_ret. auto.
  - eapply triple_bind; [apply Hf; now left|].
    intros s'. apply triple_pure. intros ->.
    apply IH. intros s0 y Hy. apply Hf. now right.
Qed.

Lemma triple_forFold {A S} (I : S -> World D -> Prop) (f : S -> A -> M D S) l E :
  (forall s x, In x l -> triple (I s) (f s x) I E) ->
  forall s, triple (I s) (forFold f l s) I E.
Proof.
  induction l as [|x l IH]; intros Hf s; simpl.
  - now apply triple_ret.
  - apply triple_bind with (Q1 := I).
    + apply Hf. now left.
    + intros s'. apply IH. intros s0 y Hy. apply Hf. now right.
Qed.

(** The counting loop never throws: an exception of the body, raised
    in a world satisfying [E], ends the loop normally. *)
Lemma triple_forFoldTry {A S} (I : World D -> Prop) (f : S -> A -> M D S) l
    (E : exn -> World D -> Prop) Q E' :
  (forall s x, In x l -> triple I (f s x) (fun _ => I) E) ->
  (forall c w, I w -> Q c w) ->
  (forall c e w, E e w -> Q c w) ->
  forall s, triple I (forFoldTry f l s) Q E'.
Proof.
  intros Hf HI HE. induction l as [|x l IH]; intros s w Hw; simpl.
  - now apply HI.
  - assert (Hx := Hf s x (or_introl eq_refl) w Hw).
    destruct (f s x w) as [[s'|e] w1].
    + apply IH; [|assumption]. intros s0 y Hy. apply Hf. now right.
    + eapply HE. eassumption.
Qed.

Lemma triple_reading {A} (P : World D -> Prop) (f : D -> Res A) Q E :
  (forall w, P w ->
     match f (localStorageProvider w) with
     | Ok a => Q a w
     | Throw e => E e w
     end) ->
  triple P (reading f) Q E.
Proof.
  intros Hf w HP. unfold reading. specialize (Hf w HP).
  destruct (f (localStorageProvider w)); assumption.
Qed.

Lemma triple_writing (P : World D -> Prop) (f : D -> Res D) Q E :
  (forall w, P w ->
     match f (localStorageProvider w) with
     | Ok d => Q tt (with_provider d w)
     | Throw e => E e w
     end) ->
  triple P (writing f) Q E.
Proof.
  intros Hf w HP. unfold writing. specialize (Hf w HP).
  destruct (f (localStorageProvider w)); assumption.
Qed.

Section Invariant.

Variable J : World D -> Prop.

Lemma inv_ret {A} (a : A) : invariant J (ret a).
Proof. now apply triple_ret. Qed.

Lemma inv_throw {A} e : invariant J (@throw D A e).
Proof. now apply triple_throw. Qed.

Lemma inv_gets {A} (f : World D -> A) : invariant J (gets f).
Proof. now apply triple_gets. Qed.

Lemma inv_reading {A} (f : D -> Res A) : invariant J (reading f).
Proof.
  apply triple_reading. intros w Hw.
  now destruct (f (localStorageProvider w)).
Qed.

Lemma inv_modify (f : World D -> World D) :
  (forall w, J w -> J (f w)) -> invariant J (modify f).
Proof. intros Hf. now apply triple_modify. Qed.

Lemma inv_bind_val {A B} (V : A -> Prop) (m : M D A) (k : A -> M D B) :
  triple J m (fun a w => J w /\ V a) (fun _ => J) ->
  (forall a, V a -> invariant J (k a)) ->
  invariant J (bind m k).
Proof.
  intros Hm Hk. eapply triple_bind; [exact Hm|].
  intros a w [Hw Ha]. now apply (Hk a Ha).
Qed.

Lemma inv_bind {A B} (m : M D A) (k : A -> M D B) :
  invariant J m -> (forall a, invariant J (k a)) -> invariant J (bind m k).
Proof. intros Hm Hk. eapply triple_bind; [exact Hm|exact Hk]. Qed.

Lemma inv_try {A} (m : M D A) h :
  invariant J m -> (forall e, invariant J (h e)) -> invariant J (try_catch m h).
Proof. intros Hm Hh. eapply triple_try; [exact Hm|exact Hh]. Qed.

Lemma inv_if {A} (b : bool) (m1 m2 : M D A) :
  invariant J m1 -> invariant J m2 -> invariant J (if b then m1 else m2).
Proof. now destruct b. Qed.

Lemma inv_forEach {A} (f : A -> M D unit) l :
  (forall x, In x l -> invariant J (f x)) -> invariant J (forEach f l).
Proof. apply triple_forEach. Qed.

Lemma inv_forFold {A S} (f : S -> A -> M D S) l s :
  (forall s x, In x l -> invariant J (f s x)) -> invariant J (forFold f l s).
Proof.
  intros Hf. apply (triple_forFold (fun _ => J) f l (fun _ => J) Hf s).
Qed.

Lemma inv_forFoldTry {A S} (f : S -> A -> M D S) l s :
  (forall s x, In x l -> invariant J (f s x)) -> invariant J (forFoldTry f l s).
Proof.
  intros Hf.
  apply (triple_forFoldTry J f l (fun _ => J) (fun _ => J) (fun _ => J) Hf);
    auto.
Qed.

(** The world after [m] satisfies [J]. *)
Lemma inv_after {A} (m : M D A) w : invariant J m -> J w -> J (snd (m w)).
Proof.
  intros Hm Hw. specialize (Hm w Hw). now destruct (m w) as [[a|e] w1].
Qed.

End Invariant.

End Rules.

(** ** The schema validator *)

Lemma includes_In l s : includes l s = true <-> In s l.
Proof.
  unfold includes. rewrite existsb_exists. split.
  - intros [x [Hx E]]. apply String.eqb_eq in E. now subst.
  - intros Hs. exists s. split; [assumption|apply String.eqb_refl].
Qed.

Lemma required_tables db :
  forallb (fun store => includes (objectStoreNames db) store) requiredStores = true
  <-> has_table db "profiles" /\ has_table db "provider_configs"
      /\ has_table db "app_metadata".
Proof.
  unfold requiredStores, has_table. simpl.
  rewrite !andb_true_iff, !includes_In. tauto.
Qed.

(** C4. [hasValidIndexedDBSchema] always resolves to a boolean, never
    throws, and the boolean is [true] exactly when the database opens
    successfully (first event [success], nothing raised while the tables
    are listed) and the three required tables are all present; an
    undefined [indexedDB], a throwing or failing open, a blocked open and
    an exception during the listing all give [false]. *)
Theorem hasValidIndexedDBSchema_true_iff {D} (w : World D) :
  exists b,
    fst (hasValidIndexedDBSchema w) = Ok b /\
    (b = true <->
     opens_successfully (indexedDB w) /\
     has_table (indexedDB w) "profiles" /\
     has_table (indexedDB w) "provider_configs" /\
     has_table (indexedDB w) "app_metadata").
Proof.
  unfold hasValidIndexedDBSchema, opens_successfully, bind, gets, try_catch,
    open_request, ret.
  destruct (defined (indexedDB w)) eqn:Hd; simpl.
  2:{ exists false. split; [reflexivity|].
      split; [discriminate|]. intros [[Hd' _] _]. discriminate. }
  destruct (next_fate (indexedDB w)) as [e|blocked [e|body]] eqn:Hf; simpl.
  - exists false. split; [reflexivity|]. split; [discriminate|].
    intros [[_ [body [Hb _]]] _]. discriminate.
  - exists false. split; [now destruct blocked|]. split; [discriminate|].
    intros [[_ [body [Hb _]]] _]. discriminate.
  - assert (Hblocked : forall v, settle (if blocked then Some false else None) v = true ->
                                 blocked = false /\ v = true).
    { intros v. destruct blocked; simpl; [discriminate|auto]. }
    destruct body as [|e|e]; simpl.
    + eexists. split; [reflexivity|]. split.
      * intros Hs. apply Hblocked in Hs as [-> Hs].
        apply (required_tables (indexedDB w)) in Hs. split; [|exact Hs].
        split; [reflexivity|]. exists BodyOk. split; [reflexivity|discriminate].
      * intros [[_ [body [Hb _]]] Ht]. inversion Hb; subst. simpl.
        now apply (required_tables (indexedDB w)).
    + exists false. split; [now destruct blocked|]. split; [discriminate|].
      intros [[_ [body [Hb Hne]]] _]. inversion Hb; subst. now elim (Hne e).
    + eexists. split; [reflexivity|]. split.
      * intros Hs. apply Hblocked in Hs as [-> Hs].
        apply (required_tables (indexedDB w)) in Hs. split; [|exact Hs].
        split; [reflexivity|]. exists (RequestFails e).
        split; [reflexivity|discriminate].
      * intros [[_ [body [Hb _]]] Ht]. inversion Hb; subst. simpl.
        now apply (required_tables (indexedDB w)).
Qed.

Lemma hasValidIndexedDBSchema_closes {D} (w : World D) :
  (forall blocked e,
      next_fate (indexedDB w) <> OpenEvents blocked (FinalSuccess (BodyThrows e))) ->
  open_conns (indexedDB (snd (hasValidIndexedDBSchema w))) = open_conns (indexedDB w).
Proof.
  intros Hne.
  unfold hasValidIndexedDBSchema, bind, gets, try_catch, open_request, ret.
  destruct (defined (indexedDB w)); simpl; [|reflexivity].
  destruct (next_fate (indexedDB w)) as [e|blocked [e|[|e|e]]] eqn:Hf;
    simpl; try reflexivity.
  now elim (Hne blocked e).
Qed.

Lemma hasValidIndexedDBSchema_leak {D} (w : World D) blocked e :
  defined (indexedDB w) = true ->
  next_fate (indexedDB w) = OpenEvents blocked (FinalSuccess (BodyThrows e)) ->
  fst (hasValidIndexedDBSchema w) = Ok false /\
  open_conns (indexedDB (snd (hasValidIndexedDBSchema w)))
  = S (open_conns (indexedDB w)).
Proof.
  intros Hd Hf.
  unfold hasValidIndexedDBSchema, bind, gets, try_catch, open_request, ret.
  rewrite Hd. simpl. rewrite Hf. simpl. now destruct blocked.
Qed.



(** ** The adapter's [getSchemaVersion] *)

(** C10. [getSchemaVersion] returns 0 without opening the database when
    the schema flag is down; and when its request goes through it returns
    0 both when no [schema_version] record exists and when the recorded
    value is falsy, so the two cases look the same to the caller. *)
Theorem getSchemaVersion_zero {D} (w : World D) :
  indexedDBSchemaValid w = false \/
  (goes_through (indexedDB w) /\ has_table (indexedDB w) "app_metadata" /\
   (ProviderDB.get_meta "schema_version" (indexedDB w) = None \/
    exists r, ProviderDB.get_meta "schema_version" (indexedDB w) = Some r /\
              truthy (MetaRecord.value r) = false)) ->
  fst (ProviderDB.getSchemaVersion w) = Ok (JNumber 0) /\
  opens (indexedDB (snd (ProviderDB.getSchemaVersion w)))
  = (if indexedDBSchemaValid w then 1 else 0) + opens (indexedDB w).
Proof.
  intros Hcase.
  unfold ProviderDB.getSchemaVersion, traced, bind, gets.
  destruct (indexedDBSchemaValid w) eqn:Hv; simpl.
  2:{ split; reflexivity. }
  destruct Hcase as [Hcase|[[blocked Hf] [Ht Hm]]]; [discriminate|].
  apply includes_In in Ht.
  unfold transact, bind, open_request, gets, modify, handler_body, ret.
  rewrite Hf. simpl. rewrite Ht. simpl.
  split; [|reflexivity].
  destruct Hm as [Hm|[r [Hm Hr]]]; unfold ProviderDB.get_meta in Hm; simpl.
  - unfold ProviderDB.get_meta. simpl. rewrite Hm. reflexivity.
  - unfold ProviderDB.get_meta. simpl. rewrite Hm. unfold js_or. rewrite Hr.
    reflexivity.
Qed.

(** The three cases on sample data: flag down, no record, version 0. *)
Lemma getSchemaVersion_zero_witness :
  (fst (ProviderDB.getSchemaVersion Sample.flag_down) = Ok (JNumber 0) /\
   opens (indexedDB (snd (ProviderDB.getSchemaVersion Sample.flag_down))) = 0) /\
  fst (ProviderDB.getSchemaVersion Sample.no_version) = Ok (JNumber 0) /\
  fst (ProviderDB.getSchemaVersion Sample.version_zero) = Ok (JNumber 0).
Proof.
  split; [|split].
  - apply (getSchemaVersion_zero Sample.flag_down). left. reflexivity.
  - apply (getSchemaVersion_zero Sample.no_version). right.
    split; [exists false; reflexivity|].
    split; [unfold has_table; simpl; tauto|]. left. reflexivity.
  - apply (getSchemaVersion_zero Sample.version_zero). right.
    split; [exists false; reflexivity|].
    split; [unfold has_table; simpl; tauto|]. right.
    exists (MetaRecord.mk "schema_version" (JNumber 0)).
    split; reflexivity.
Defined.

(** ** [migrateAndCleanup] *)

Section Cleanup.

Context {D : Type} `{LocalStorageProvider.Interface D}.

(** C6. When [migrate] reports success, [migrateAndCleanup] returns
    [success = true] whatever [clearIndexedDB] does: a cleanup that
    returns adds " IndexedDB has been cleaned up." to the message and a
    cleanup that throws adds a warning naming the error. *)
Theorem migrateAndCleanup_keeps_success (w w1 : World D) result :
  LocalStorageMigration.migrate w = (Ok result, w1) ->
  MigrationResult.success result = true ->
  match LocalStorageMigration.clearIndexedDB w1 with
  | (Ok _, w2) =>
      LocalStorageMigration.migrateAndCleanup w
      = (Ok (CleanupResult.mk true
               (String.append (MigrationResult.message result)
                              " IndexedDB has been cleaned up.")), w2)
  | (Throw error, w2) =>
      LocalStorageMigration.migrateAndCleanup w
      = (Ok (CleanupResult.mk true
               (String.append (MigrationResult.message result)
                  (String.append " Warning: Could not clear IndexedDB: "
                                 (exn_toString error)))), w2)
  end.
Proof.
  intros Hm Hs. unfold LocalStorageMigration.migrateAndCleanup.
  rewrite (bind_ok _ _ _ _ _ Hm). rewrite Hs. simpl.
  unfold try_catch, bind.
  destruct (LocalStorageMigration.clearIndexedDB w1) as [[[]|e] w2]; reflexivity.
Qed.

End Cleanup.

(** A run whose migration succeeds and whose cleanup throws. *)
Lemma migrateAndCleanup_keeps_success_witness :
  let w := Sample.cleanup_fails in
  let result := MigrationResult.mk true
                  "Successfully migrated 2 profiles and 3 provider configurations" 6 in
  let w1 := snd (LocalStorageMigration.migrate w) in
  LocalStorageMigration.migrate w = (Ok result, w1) /\
  fst (LocalStorageMigration.clearIndexedDB w1) = Throw Sample.boom /\
  fst (LocalStorageMigration.migrateAndCleanup w)
  = Ok (CleanupResult.mk true
          "Successfully migrated 2 profiles and 3 provider configurations Warning: Could not clear IndexedDB: AbortError: The transaction was aborted.").
Proof.
  intros w result w1.
  assert (Hm : LocalStorageMigration.migrate w = (Ok result, w1))
    by (vm_compute; reflexivity).
  assert (Hc : fst (LocalStorageMigration.clearIndexedDB w1) = Throw Sample.boom)
    by (vm_compute; reflexivity).
  split; [exact Hm|]. split; [exact Hc|].
  pose proof (migrateAndCleanup_keeps_success w w1 result Hm eq_refl) as Hw.
  set (c := LocalStorageMigration.clearIndexedDB w1) in *.
  assert (Hc2 : c = (Throw Sample.boom, snd c)) by (vm_compute; reflexivity).
  rewrite Hc2 in Hw. rewrite Hw. reflexivity.
Defined.

(** ** What the primitives do to the world *)

Lemma steady_console {D} (w : World D) c : steady w (with_console c w).
Proof. repeat split. Qed.

Lemma steady_profiles {D} (w w' : World D) :
  steady w w' -> profiles (indexedDB w') = profiles (indexedDB w).
Proof. intros (_ & _ & _ & Hc). unfold contents in Hc. congruence. Qed.

Lemma steady_provider_configs {D} (w w' : World D) :
  steady w w' -> provider_configs (indexedDB w') = provider_configs (indexedDB w).
Proof. intros (_ & _ & _ & Hc). unfold contents in Hc. congruence. Qed.

(** Unfolds an adapter operation and splits on the schema flag, the fate
    of the open request and the presence of the table. *)
Ltac adapter_cases w :=
  unfold traced, transact, bind, gets, modify, open_request, handler_body,
    ret, throw; simpl;
  destruct (indexedDBSchemaValid w) eqn:?; simpl;
  [ destruct (next_fate (indexedDB w)) as [?|? [?|[|?|?]]] eqn:?; simpl;
    try match goal with
        | |- context [includes ?l ?s] => destruct (includes l s) eqn:?; simpl
        end
  | ].

Lemma hasValidIndexedDBSchema_effect {D} (w : World D) :
  steady w (snd (hasValidIndexedDBSchema w)) /\
  indexedDBSchemaValid (snd (hasValidIndexedDBSchema w)) = indexedDBSchemaValid w /\
  history (indexedDB (snd (hasValidIndexedDBSchema w))) = history (indexedDB w) /\
  exists b, fst (hasValidIndexedDBSchema w) = Ok b.
Proof.
  unfold hasValidIndexedDBSchema, bind, gets, try_catch, open_request, ret, steady.
  destruct (defined (indexedDB w)) eqn:Hd; simpl.
  2:{ repeat split; try assumption. now exists false. }
  destruct (next_fate (indexedDB w)) as [e|blocked [e|[|e|e]]]; simpl;
    repeat split; try assumption; eexists; reflexivity.
Qed.

Section Effects.

Context {D : Type} `{LocalStorageProvider.Interface D}.

Lemma revalidate_effect (w : World D) :
  steady w (snd (LocalStorageMigration.revalidate w)) /\
  history (indexedDB (snd (LocalStorageMigration.revalidate w)))
  = history (indexedDB w) /\
  exists b, fst (LocalStorageMigration.revalidate w) = Ok b /\
            indexedDBSchemaValid (snd (LocalStorageMigration.revalidate w)) = b.
Proof.
  destruct (hasValidIndexedDBSchema_effect w) as (Hs & _ & Hh & b & Hb).
  unfold LocalStorageMigration.revalidate, bind, modify, ret.
  destruct (hasValidIndexedDBSchema w) as [[b'|e] w1]; simpl in *; [|discriminate].
  split; [exact Hs|]. split; [exact Hh|]. now exists b'.
Qed.

End Effects.

Lemma getAllProfiles_effect {D} (w : World D) :
  steady w (snd (ProviderDB.getAllProfiles w)) /\
  indexedDBSchemaValid (snd (ProviderDB.getAllProfiles w)) = indexedDBSchemaValid w /\
  history (indexedDB (snd (ProviderDB.getAllProfiles w)))
  = history (indexedDB w) ++ [entry GetAllProfiles "" (fst (ProviderDB.getAllProfiles w))] /\
  forall l, fst (ProviderDB.getAllProfiles w) = Ok l ->
            l = if indexedDBSchemaValid w then profiles (indexedDB w) else [].
Proof.
  unfold ProviderDB.getAllProfiles, steady, entry. adapter_cases w;
    repeat split; try assumption; intros l E; inversion E; reflexivity.
Qed.

Lemma getProviderConfigsByProfile_effect {D} (w : World D) profileId :
  let m := ProviderDB.getProviderConfigsByProfile profileId in
  steady w (snd (m w)) /\
  indexedDBSchemaValid (snd (m w)) = indexedDBSchemaValid w /\
  history (indexedDB (snd (m w)))
  = history (indexedDB w) ++ [entry GetProviderConfigsByProfile profileId (fst (m w))] /\
  forall l, fst (m w) = Ok l ->
            l = if indexedDBSchemaValid w
                then filter (fun c => ProviderConfig.profileId c =? profileId)
                            (provider_configs (indexedDB w))
                else [].
Proof.
  unfold ProviderDB.getProviderConfigsByProfile, steady, entry. adapter_cases w;
    repeat split; try assumption; intros l E; inversion E; reflexivity.
Qed.

Lemma getMetadata_effect {D} (w : World D) key :
  let m := ProviderDB.getMetadata key in
  steady w (snd (m w)) /\
  indexedDBSchemaValid (snd (m w)) = indexedDBSchemaValid w /\
  history (indexedDB (snd (m w)))
  = history (indexedDB w) ++ [entry GetMetadata key (fst (m w))].
Proof.
  unfold ProviderDB.getMetadata, steady, entry. adapter_cases w;
    repeat split; assumption.
Qed.

Lemma getSchemaVersion_effect {D} (w : World D) :
  let m := @ProviderDB.getSchemaVersion D in
  steady w (snd (m w)) /\
  indexedDBSchemaValid (snd (m w)) = indexedDBSchemaValid w /\
  history (indexedDB (snd (m w)))
  = history (indexedDB w) ++ [entry GetSchemaVersion "" (fst (m w))].
Proof.
  unfold ProviderDB.getSchemaVersion, steady, entry. adapter_cases w;
    repeat split; assumption.
Qed.

(** A deletion leaves everything but its own table as it was, and the
    table either as it was or without the records of the given key. *)
Lemma deleteProviderConfig_effect {D} (w : World D) id :
  let m := ProviderDB.deleteProviderConfig id in
  ProviderDB (snd (m w)) = ProviderDB w /\
  localStorageProvider (snd (m w)) = localStorageProvider w /\
  console (snd (m w)) = console w /\
  indexedDBSchemaValid (snd (m w)) = indexedDBSchemaValid w /\
  defined (indexedDB (snd (m w))) = defined (indexedDB w) /\
  objectStoreNames (indexedDB (snd (m w))) = objectStoreNames (indexedDB w) /\
  profiles (indexedDB (snd (m w))) = profiles (indexedDB w) /\
  app_metadata (indexedDB (snd (m w))) = app_metadata (indexedDB w) /\
  history (indexedDB (snd (m w)))
  = history (indexedDB w) ++ [entry DeleteProviderConfig id (fst (m w))] /\
  (provider_configs (indexedDB (snd (m w))) = provider_configs (indexedDB w) \/
   provider_configs (indexedDB (snd (m w)))
   = filter (fun c => negb (ProviderConfig.id c =? id)) (provider_configs (indexedDB w))).
Proof.
  unfold ProviderDB.deleteProviderConfig, entry. adapter_cases w;
    repeat split; auto.
Qed.

Lemma deleteProfile_effect {D} (w : World D) id :
  let m := ProviderDB.deleteProfile id in
  ProviderDB (snd (m w)) = ProviderDB w /\
  localStorageProvider (snd (m w)) = localStorageProvider w /\
  console (snd (m w)) = console w /\
  indexedDBSchemaValid (snd (m w)) = indexedDBSchemaValid w /\
  defined (indexedDB (snd (m w))) = defined (indexedDB w) /\
  objectStoreNames (indexedDB (snd (m w))) = objectStoreNames (indexedDB w) /\
  provider_configs (indexedDB (snd (m w))) = provider_configs (indexedDB w) /\
  app_metadata (indexedDB (snd (m w))) = app_metadata (indexedDB w) /\
  history (indexedDB (snd (m w)))
  = history (indexedDB w) ++ [entry DeleteProfile id (fst (m w))] /\
  (profiles (indexedDB (snd (m w))) = profiles (indexedDB w) \/
   profiles (indexedDB (snd (m w)))
   = filter (fun p => negb (ProfileRecord.id p =? id)) (profiles (indexedDB w))).
Proof.
  unfold ProviderDB.deleteProfile, entry. adapter_cases w; repeat split; auto.
Qed.

(** ** Stable invariants *)

Section Stable.

Context {D : Type} `{LocalStorageProvider.Interface D}.
Variable J : World D -> Prop.
Hypothesis J_stable : stable J.

Lemma inv_console (c : ConsoleEntry) : invariant J (modify (with_console c)).
Proof.
  apply inv_modify. intros w. apply J_stable, steady_console.
Qed.

Lemma inv_console_log t : invariant J (console_log t).
Proof. apply inv_console. Qed.

Lemma inv_console_warn t e : invariant J (console_warn t e).
Proof. apply inv_console. Qed.

Lemma inv_console_error t e : invariant J (console_error t e).
Proof. apply inv_console. Qed.

(** A step whose final world is [steady] with respect to the initial
    one keeps [J], and what it returns is known to come from a world
    satisfying [J]. *)
Lemma steady_step {A} (m : M D A) (V : World D -> A -> Prop) :
  (forall w, steady w (snd (m w)) /\ forall a, fst (m w) = Ok a -> V w a) ->
  triple J m (fun a w' => J w' /\ exists w, J w /\ V w a) (fun _ => J).
Proof.
  intros Hm w Hw. destruct (Hm w) as [Hs Hv].
  destruct (m w) as [[a|e] w1]; simpl in *.
  - split; [now apply (J_stable w)|]. exists w. auto.
  - now apply (J_stable w).
Qed.

Lemma steady_inv {A} (m : M D A) :
  (forall w, steady w (snd (m w))) -> invariant J m.
Proof.
  intros Hm w Hw. specialize (Hm w).
  destruct (m w) as [[a|e] w1]; simpl in *; now apply (J_stable w).
Qed.

Lemma inv_revalidate : invariant J LocalStorageMigration.revalidate.
Proof. apply steady_inv. intros w. apply revalidate_effect. Qed.

Lemma inv_getMetadata key : invariant J (ProviderDB.getMetadata key).
Proof. apply steady_inv. intros w. apply getMetadata_effect. Qed.

Lemma inv_getSchemaVersion : invariant J ProviderDB.getSchemaVersion.
Proof. apply steady_inv. intros w. apply getSchemaVersion_effect. Qed.

Lemma inv_getAllProfiles : invariant J ProviderDB.getAllProfiles.
Proof. apply steady_inv. intros w. apply getAllProfiles_effect. Qed.

Lemma inv_getProviderConfigsByProfile profileId :
  invariant J (ProviderDB.getProviderConfigsByProfile profileId).
Proof.
  apply steady_inv. intros w.
  apply (getProviderConfigsByProfile_effect w profileId).
Qed.

(** The profiles returned are those of a database satisfying [J], or
    none. *)
Lemma getAllProfiles_from :
  triple J ProviderDB.getAllProfiles
    (fun l w' => J w' /\
                 exists w, J w /\ (l = profiles (indexedDB w) \/ l = []))
    (fun _ => J).
Proof.
  apply steady_step. intros w.
  destruct (getAllProfiles_effect w) as (Hs & _ & _ & Hv).
  split; [exact Hs|]. intros l Hl. rewrite (Hv l Hl).
  destruct (indexedDBSchemaValid w); auto.
Qed.

Lemma getProviderConfigsByProfile_from profileId :
  triple J (ProviderDB.getProviderConfigsByProfile profileId)
    (fun l w' => J w' /\
                 exists w, J w /\ incl l (provider_configs (indexedDB w)))
    (fun _ => J).
Proof.
  apply steady_step. intros w.
  destruct (getProviderConfigsByProfile_effect w profileId) as (Hs & _ & _ & Hv).
  split; [exact Hs|]. intros l Hl. rewrite (Hv l Hl).
  destruct (indexedDBSchemaValid w).
  - intros c Hc. apply filter_In in Hc. tauto.
  - intros c [].
Qed.

End Stable.

(** ** [clearIndexedDB] and the default profile *)

Lemma NoDup_map_eq {A B} (f : A -> B) l x y :
  NoDup (map f l) -> In x l -> In y l -> f x = f y -> x = y.
Proof.
  induction l as [|a l IH]; simpl; intros Hnd Hx Hy Hf; [contradiction|].
  inversion Hnd as [|? ? Hna Hnd']; subst.
  destruct Hx as [->|Hx], Hy as [->|Hy]; auto.
  - elim Hna. rewrite Hf. now apply in_map.
  - elim Hna. rewrite <- Hf. now apply in_map.
Qed.

Section KeepsDefault.

Context {D : Type} `{LocalStorageProvider.Interface D}.
Variable stored : list ProfileRecord.t.
Variable p : ProfileRecord.t.
Hypothesis keyed : NoDup (map ProfileRecord.id stored).
Hypothesis p_default : ProfileRecord.isDefault p = true.

(** The profiles table only holds records it held at the start, and
    [p] is among them. *)
Let J (w : World D) : Prop :=
  incl (profiles (indexedDB w)) stored /\ In p (profiles (indexedDB w)).

Lemma J_stable : stable J.
Proof.
  intros w w' Hs [Hi Hp]. unfold J.
  rewrite (steady_profiles _ _ Hs). auto.
Qed.

Lemma inv_deleteProviderConfig id : invariant J (ProviderDB.deleteProviderConfig id).
Proof.
  intros w [Hi Hp].
  destruct (deleteProviderConfig_effect w id) as (_ & _ & _ & _ & _ & _ & Hpr & _).
  simpl in Hpr.
  destruct (ProviderDB.deleteProviderConfig id w) as [[a|e] w1]; simpl in *;
    unfold J; rewrite Hpr; auto.
Qed.

Lemma inv_deleteProfile q :
  In q stored -> ProfileRecord.isDefault q = false ->
  invariant J (ProviderDB.deleteProfile (ProfileRecord.id q)).
Proof.
  intros Hq Hnd w [Hi Hp].
  destruct (deleteProfile_effect w (ProfileRecord.id q))
    as (_ & _ & _ & _ & _ & _ & _ & _ & _ & Hpr).
  simpl in Hpr.
  assert (HJ : J (snd (ProviderDB.deleteProfile (ProfileRecord.id q) w))).
  { unfold J. destruct Hpr as [-> | ->]; [auto|]. split.
    - intros x Hx. apply filter_In in Hx. apply Hi, Hx.
    - apply filter_In. split; [assumption|].
      apply negb_true_iff, String.eqb_neq. intros Heq.
      assert (p = q) by (eapply NoDup_map_eq; eauto).
      subst. congruence. }
  now destruct (ProviderDB.deleteProfile (ProfileRecord.id q) w) as [[a|e] w1].
Qed.

Lemma inv_delete_configs l : invariant J (LocalStorageMigration.delete_configs l).
Proof.
  apply inv_forEach. intros x _. apply inv_bind.
  - apply inv_getProviderConfigsByProfile, J_stable.
  - intros configs. apply inv_forEach. intros c _. apply inv_deleteProviderConfig.
Qed.

Lemma inv_delete_profiles l :
  incl l stored -> invariant J (LocalStorageMigration.delete_profiles l).
Proof.
  intros Hl. apply inv_forEach. intros q Hq.
  destruct (ProfileRecord.isDefault q) eqn:Hd; simpl.
  - apply inv_ret.
  - apply inv_try.
    + apply inv_deleteProfile; auto.
    + intros e. apply inv_console_warn, J_stable.
Qed.

Lemma inv_clearIndexedDB : invariant J LocalStorageMigration.clearIndexedDB.
Proof.
  unfold LocalStorageMigration.clearIndexedDB.
  apply inv_bind; [apply inv_revalidate, J_stable|]. intros schemaValid.
  apply inv_bind; [apply inv_gets|]. intros present.
  apply inv_if; [apply inv_console_warn, J_stable|].
  apply inv_try.
  2:{ intros e. apply inv_bind; [apply inv_console_error, J_stable|].
      intros _. apply inv_throw. }
  apply inv_bind; [apply inv_console_log, J_stable|]. intros _.
  apply inv_bind_val with (V := fun l => incl l stored).
  - eapply triple_conseq; [apply (getAllProfiles_from J J_stable)|auto| |auto].
    intros l w [Hw [w0 [[Hi _] [-> | ->]]]]; split; auto.
    intros x [].
  - intros l Hl.
    apply inv_bind; [apply inv_delete_configs|]. intros _.
    apply inv_bind; [now apply inv_delete_profiles|]. intros _.
    apply inv_console_log, J_stable.
Qed.

End KeepsDefault.

Section DefaultProfile.

Context {D : Type} `{LocalStorageProvider.Interface D}.

(** C5. In a profiles table keyed by [id], a profile whose [isDefault]
    is [true] is still in the table after [clearIndexedDB], whatever
    the outcome of the cleanup and whether or not it is the only
    profile. *)
Theorem clearIndexedDB_keeps_default_profile (w : World D) p :
  NoDup (map ProfileRecord.id (profiles (indexedDB w))) ->
  In p (profiles (indexedDB w)) ->
  ProfileRecord.isDefault p = true ->
  In p (profiles (indexedDB (snd (LocalStorageMigration.clearIndexedDB w)))).
Proof.
  intros Hk Hp Hd.
  apply (inv_after _ _ w (inv_clearIndexedDB (profiles (indexedDB w)) p Hk Hd)).
  split; [apply incl_refl|assumption].
Qed.

End DefaultProfile.

(** The default profile is the only profile, and it stays. *)
Lemma clearIndexedDB_keeps_default_profile_witness :
  NoDup (map ProfileRecord.id (profiles (indexedDB Sample.only_default))) /\
  In Sample.work (profiles (indexedDB Sample.only_default)) /\
  In Sample.work
     (profiles (indexedDB (snd (LocalStorageMigration.clearIndexedDB Sample.only_default)))).
Proof.
  assert (Hk : NoDup (map ProfileRecord.id (profiles (indexedDB Sample.only_default)))).
  { simpl. constructor; [intros []|constructor]. }
  assert (Hp : In Sample.work (profiles (indexedDB Sample.only_default))).
  { simpl. now left. }
  split; [exact Hk|]. split; [exact Hp|].
  exact (clearIndexedDB_keeps_default_profile Sample.only_default Sample.work
           Hk Hp eq_refl).
Defined.

(** ** [getMigrationStatus] and the two stores *)

Section Status.

Context {D : Type} `{LocalStorageProvider.Interface D}.

Lemma inv_weaken {A} (J Q E : World D -> Prop) (m : M D A) :
  invariant J m -> (forall w, J w -> Q w) -> (forall w, J w -> E w) ->
  triple J m (fun _ => Q) (fun _ => E).
Proof. intros Hm HQ HE. eapply triple_conseq; [exact Hm|auto|auto|auto]. Qed.

Lemma inv_count_items {P C} (J : World D -> Prop)
    (allProfiles : M D (list P)) (configsOf : P -> M D (list C)) :
  invariant J allProfiles -> (forall p, invariant J (configsOf p)) ->
  invariant J (LocalStorageMigration.count_items allProfiles configsOf).
Proof.
  intros Ha Hc. unfold LocalStorageMigration.count_items.
  apply inv_try.
  - apply inv_bind; [exact Ha|]. intros profiles.
    apply inv_forFoldTry. intros items p _.
    apply inv_bind; [apply Hc|]. intros configs. apply inv_ret.
  - intros e. apply inv_ret.
Qed.

Variable stored : list string * list ProfileRecord.t * list ProviderConfig.t
                  * list MetaRecord.t.
Variable d0 : D.

(** Nothing was written. *)
Let Untouched (w : World D) : Prop :=
  contents (indexedDB w) = stored /\ localStorageProvider w = d0.

(** At most the schema version was set to 2. *)
Let Marked (w : World D) : Prop :=
  contents (indexedDB w) = stored /\
  (localStorageProvider w = d0 \/
   LocalStorageProvider.setSchemaVersion 2 d0 = Ok (localStorageProvider w)).

Lemma Untouched_stable : stable Untouched.
Proof.
  intros w w' (_ & Hd & _ & Hc) [Hs Hp]. unfold Untouched. split; congruence.
Qed.

Lemma Marked_stable : stable Marked.
Proof.
  intros w w' (_ & Hd & _ & Hc) [Hs Hp]. unfold Marked.
  split; [congruence|]. now rewrite Hd.
Qed.

Lemma Untouched_Marked w : Untouched w -> Marked w.
Proof. intros [Hs Hp]. split; auto. Qed.

Lemma mark_migrated :
  triple Untouched (writing (LocalStorageProvider.setSchemaVersion 2))
         (fun _ => Marked) (fun _ => Untouched).
Proof.
  apply triple_writing. intros w [Hs Hp]. rewrite Hp.
  destruct (LocalStorageProvider.setSchemaVersion 2 d0) as [d|e] eqn:E.
  - split; [exact Hs|]. right. reflexivity.
  - split; assumption.
Qed.

Lemma mark_and_return (b : bool) :
  triple Untouched
         (bind (writing (LocalStorageProvider.setSchemaVersion 2)) (fun _ => ret b))
         (fun _ => Marked) (fun _ => Untouched).
Proof.
  eapply triple_bind; [apply mark_migrated|].
  intros u. now apply triple_ret.
Qed.

Lemma isMigrationNeeded_marks :
  triple Untouched LocalStorageMigration.isMigrationNeeded
         (fun _ => Marked) (fun _ => Marked).
Proof.
  unfold LocalStorageMigration.isMigrationNeeded.
  apply triple_try with (E1 := fun _ => Untouched).
  - eapply triple_bind; [apply inv_reading|]. intros currentVersion.
    apply triple_if; intros _.
    { apply triple_ret. apply Untouched_Marked. }
    eapply triple_bind; [apply inv_revalidate, Untouched_stable|].
    intros schemaValid.
    eapply triple_bind; [apply inv_gets|]. intros present.
    apply triple_if; intros _; [apply mark_and_return|].
    eapply triple_bind; [apply inv_getAllProfiles, Untouched_stable|].
    intros profiles.
    apply triple_if; intros _; [apply mark_and_return|].
    apply triple_ret. apply Untouched_Marked.
  - intros e.
    eapply triple_bind with (Q1 := fun _ => Untouched).
    { apply inv_weaken;
        [apply inv_console_error, Untouched_stable|auto|apply Untouched_Marked]. }
    intros u.
    eapply triple_bind with (Q1 := fun _ => Marked).
    + eapply triple_try; [apply mark_migrated|].
      intros e'. apply triple_ret. apply Untouched_Marked.
    + intros u'. now apply triple_ret.
Qed.

Lemma getMigrationStatus_marks :
  triple Untouched LocalStorageMigration.getMigrationStatus
         (fun _ => Marked) (fun _ => Marked).
Proof.
  unfold LocalStorageMigration.getMigrationStatus.
  assert (HU : forall A (m : M D A), invariant Untouched m ->
               triple Untouched m (fun _ => Untouched) (fun _ => Marked)).
  { intros A m Hm. apply inv_weaken; [exact Hm|auto|apply Untouched_Marked]. }
  eapply triple_bind; [apply HU, inv_gets|]. intros localStorageAvailable.
  eapply triple_bind; [apply HU, inv_revalidate, Untouched_stable|].
  intros schemaValid.
  eapply triple_bind; [apply HU, inv_gets|]. intros present.
  eapply triple_bind.
  { apply HU. apply inv_if; [apply inv_gets|apply inv_ret]. }
  intros indexedDBAvailable.
  eapply triple_bind; [apply isMigrationNeeded_marks|]. intros needsMigration.
  apply inv_bind.
  { apply inv_if; [|apply inv_ret].
    apply inv_bind.
    - apply inv_count_items; [apply inv_reading|intros p; apply inv_reading].
    - intros counted. destruct (snd counted); [|apply inv_ret].
      apply inv_bind; [apply inv_console_warn, Marked_stable|].
      intros u. apply inv_ret. }
  intros localStorageItems.
  apply inv_bind.
  { apply inv_if; [|apply inv_ret].
    apply inv_bind.
    - apply inv_count_items.
      + apply inv_getAllProfiles, Marked_stable.
      + intros p. apply inv_getProviderConfigsByProfile, Marked_stable.
    - intros counted. destruct (snd counted); [|apply inv_ret].
      apply inv_bind; [apply inv_console_warn, Marked_stable|].
      intros u. apply inv_ret. }
  intros indexedDBItems. apply inv_ret.
Qed.

End Status.

Section StatusFrame.

Context {D : Type} `{LocalStorageProvider.Interface D}.

(** C3, as amended. [getMigrationStatus] leaves the contents of the
    legacy store as they were, and the provider either as it was or as
    [setSchemaVersion(2)] makes it: the nested [isMigrationNeeded] may
    mark the store as migrated, and nothing else is written. *)
Theorem getMigrationStatus_writes_at_most_the_version (w : World D) :
  contents (indexedDB (snd (LocalStorageMigration.getMigrationStatus w)))
  = contents (indexedDB w) /\
  (localStorageProvider (snd (LocalStorageMigration.getMigrationStatus w))
   = localStorageProvider w \/
   LocalStorageProvider.setSchemaVersion 2 (localStorageProvider w)
   = Ok (localStorageProvider (snd (LocalStorageMigration.getMigrationStatus w)))).
Proof.
  pose proof (getMigrationStatus_marks (contents (indexedDB w))
                (localStorageProvider w) w (conj eq_refl eq_refl)) as Hm.
  destruct (LocalStorageMigration.getMigrationStatus w) as [[st|e] w'];
    exact Hm.
Qed.

End StatusFrame.

(** C3, as stated, fails: on a fresh install with a legacy database that
    has no tables, [getMigrationStatus] sets the schema version of the
    provider from 0 to 2. *)
Lemma getMigrationStatus_is_not_read_only :
  localStorageProvider (snd (LocalStorageMigration.getMigrationStatus Sample.fresh_install))
  <> localStorageProvider Sample.fresh_install.
Proof.
  intros Heq. apply (f_equal KVStore.version) in Heq.
  vm_compute in Heq. discriminate.
Qed.

(** ** The count [migrate] reports when it fails *)

Section FailureCount.

Context {D : Type} `{LocalStorageProvider.Interface D}.

Lemma triple_any {A} (P : World D -> Prop) (m : M D A) :
  triple P m (fun _ _ => True) (fun _ _ => True).
Proof. intros w _. now destruct (m w) as [[a|e] w1]. Qed.

Lemma revalidate_returns (P : World D -> Prop) :
  triple P LocalStorageMigration.revalidate (fun _ _ => True) (fun _ _ => False).
Proof.
  intros w _. destruct (revalidate_effect w) as (_ & _ & b & Hb & _).
  destruct (LocalStorageMigration.revalidate w) as [[a|e] w1]; simpl in *;
    [exact I|discriminate].
Qed.

Lemma migrate_result :
  triple (fun _ => True) LocalStorageMigration.migrate
    (fun result _ => MigrationResult.success result = false ->
                     MigrationResult.migratedItems result = 0)
    (fun _ _ => False).
Proof.
  unfold LocalStorageMigration.migrate.
  apply triple_bind with (Q1 := fun _ _ => True); [now apply triple_gets|].
  intros available.
  apply triple_if; intros _; [now apply triple_ret|].
  apply triple_bind with (Q1 := fun _ _ => True); [apply revalidate_returns|].
  intros schemaValid.
  apply triple_bind with (Q1 := fun _ _ => True); [now apply triple_gets|].
  intros present.
  apply triple_if; intros _; [now apply triple_ret|].
  apply triple_try with (E1 := fun _ _ => True).
  - repeat (eapply triple_bind; [apply triple_any|]; intros ?).
    apply triple_ret. intros w _. discriminate.
  - intros e.
    apply triple_bind with (Q1 := fun _ _ => True); [now apply triple_modify|].
    intros u. now apply triple_ret.
Qed.

End FailureCount.

(** C2, as stated, fails: on [Sample.interrupted] the two profiles are
    written before the exception and the result reports
    [migratedItems = 0]. *)
Lemma migrate_forgets_partial_count :
  fst (LocalStorageMigration.migrate Sample.interrupted)
  = Ok (MigrationResult.mk false "Migration failed: The transaction was aborted." 0) /\
  Journal.calls (localStorageProvider
                   (snd (LocalStorageMigration.migrate Sample.interrupted)))
  = [Journal.SaveProfile Sample.work; Journal.SaveProfile Sample.home] /\
  ~ (exists result,
        fst (LocalStorageMigration.migrate Sample.interrupted) = Ok result /\
        MigrationResult.migratedItems result
        = List.length (Journal.calls
                         (localStorageProvider
                            (snd (LocalStorageMigration.migrate Sample.interrupted))))).
Proof.
  assert (Hr : fst (LocalStorageMigration.migrate Sample.interrupted)
               = Ok (MigrationResult.mk false
                       "Migration failed: The transaction was aborted." 0))
    by (vm_compute; reflexivity).
  assert (Hc : Journal.calls
                 (localStorageProvider
                    (snd (LocalStorageMigration.migrate Sample.interrupted)))
               = [Journal.SaveProfile Sample.work; Journal.SaveProfile Sample.home])
    by (vm_compute; reflexivity).
  split; [exact Hr|]. split; [exact Hc|].
  intros [result [Hres Hn]]. rewrite Hr in Hres. injection Hres as <-.
  rewrite Hc in Hn. discriminate.
Qed.

(** ** The secrets [migrate] hands to the provider *)

Section Relay.

Context {D : Type} `{LocalStorageProvider.Interface D}.
Variable legacy : list ProviderConfig.t.
Variable before : list Journal.Call.

(** The legacy configs are as at the start, and every write accepted
    since then is [relayed]. *)
Let J (w : World (Journal.t D)) : Prop :=
  provider_configs (indexedDB w) = legacy /\
  exists written,
    Journal.calls (localStorageProvider w) = before ++ written /\
    Forall (relayed legacy) written.

Lemma relay_stable : stable J.
Proof.
  intros w w' Hs [Hc Hw]. unfold J.
  rewrite (steady_provider_configs _ _ Hs).
  destruct Hs as (_ & -> & _). auto.
Qed.

Lemma inv_noting call (f : D -> Res D) :
  relayed legacy call -> invariant J (writing (Journal.noting call f)).
Proof.
  intros Hcall. apply triple_writing. intros w [Hc [written [Hj Hw]]].
  unfold Journal.noting.
  destruct (f (Journal.store (localStorageProvider w))) as [d|e].
  - split; [exact Hc|]. exists (written ++ [call]). simpl. split.
    + rewrite Hj. now rewrite app_assoc.
    + apply Forall_app. split; [assumption|]. now constructor.
  - split; [exact Hc|]. eauto.
Qed.

Lemma inv_migrate_metadata n : invariant J (LocalStorageMigration.migrate_metadata n).
Proof.
  unfold LocalStorageMigration.migrate_metadata.
  apply inv_try.
  2:{ intros e. apply inv_bind; [apply inv_console_warn, relay_stable|].
      intros u. apply inv_ret. }
  apply inv_bind; [apply inv_getMetadata, relay_stable|]. intros activeProfileId.
  apply inv_bind.
  { apply inv_if; [|apply inv_ret].
    apply inv_bind; [now apply inv_noting|]. intros u. apply inv_ret. }
  intros n1. apply inv_try.
  2:{ intros e. apply inv_bind; [apply inv_console_warn, relay_stable|].
      intros u. apply inv_ret. }
  apply inv_bind; [apply inv_getSchemaVersion, relay_stable|]. intros schemaVersion.
  apply inv_bind; [now apply inv_noting|]. intros u. apply inv_ret.
Qed.

Lemma inv_migrate_profiles l n : invariant J (LocalStorageMigration.migrate_profiles l n).
Proof.
  apply inv_forFold. intros s p _.
  apply inv_bind; [now apply inv_noting|]. intros u. apply inv_ret.
Qed.

Lemma inv_migrate_configs l c : invariant J (LocalStorageMigration.migrate_configs l c).
Proof.
  apply inv_forFold. intros s p _.
  apply inv_bind_val with (V := fun configs => incl configs legacy).
  - eapply triple_conseq;
      [apply (getProviderConfigsByProfile_from J relay_stable)|auto| |auto].
    intros configs w [Hw [w0 [[Hc _] Hi]]]. split; [exact Hw|]. now rewrite <- Hc.
  - intros configs Hi.
    apply inv_bind; [apply inv_console_log, relay_stable|]. intros u.
    apply inv_forFold. intros s' config Hin.
    apply inv_bind; [|intros u'; apply inv_ret].
    apply inv_noting. exists config. split; [now apply Hi|]. split; reflexivity.
Qed.

Lemma inv_migrate : invariant J LocalStorageMigration.migrate.
Proof.
  unfold LocalStorageMigration.migrate.
  apply inv_bind; [apply inv_gets|]. intros available.
  apply inv_if; [apply inv_ret|].
  apply inv_bind; [apply inv_revalidate, relay_stable|]. intros schemaValid.
  apply inv_bind; [apply inv_gets|]. intros present.
  apply inv_if; [apply inv_ret|].
  apply inv_try.
  2:{ intros e. apply inv_bind; [apply inv_console_error, relay_stable|].
      intros u. apply inv_ret. }
  apply inv_bind; [apply inv_console_log, relay_stable|]. intros u1.
  apply inv_bind; [apply inv_getAllProfiles, relay_stable|]. intros profiles.
  apply inv_bind; [apply inv_console_log, relay_stable|]. intros u2.
  apply inv_bind; [apply inv_migrate_profiles|]. intros migratedItems.
  apply inv_bind; [apply inv_getAllProfiles, relay_stable|]. intros allProfiles.
  apply inv_bind; [apply inv_migrate_configs|]. intros counters.
  apply inv_bind; [apply inv_migrate_metadata|]. intros migratedItems'.
  apply inv_bind; [now apply inv_noting|]. intros u3.
  apply inv_bind; [apply inv_console_log, relay_stable|]. intros u4.
  apply inv_ret.
Qed.

End Relay.

Section RelayedSecrets.

Context {D : Type} `{LocalStorageProvider.Interface D}.

(** C8. Whatever provider [migrate] runs against and however the run
    ends, every provider config the provider accepted during the run is
    the relay of a config of the legacy store and carries that config's
    [apiKey] unchanged, an envelope or null: nothing is decrypted or
    encrypted on the way. *)
Theorem migrate_relays_apiKey (w : World (Journal.t D)) :
  exists written,
    Journal.calls (localStorageProvider (snd (LocalStorageMigration.migrate w)))
    = Journal.calls (localStorageProvider w) ++ written /\
    Forall (relayed (provider_configs (indexedDB w))) written.
Proof.
  apply (inv_after _ _ w
           (inv_migrate (provider_configs (indexedDB w))
                        (Journal.calls (localStorageProvider w)))).
  split; [reflexivity|]. exists []. split; [now rewrite app_nil_r|constructor].
Qed.

End RelayedSecrets.

(** On the sample store the three provider configs reach the provider in
    order, each with the [apiKey] it had in the legacy store. *)
Lemma migrate_relays_sample_apiKeys :
  flat_map (fun call => match call with
                        | Journal.SaveProviderConfig c => [ProviderConfigInput.apiKey c]
                        | _ => []
                        end)
           (Journal.calls
              (localStorageProvider
                 (snd (LocalStorageMigration.migrate Sample.two_profiles_journaled))))
  = [Some Sample.key1; Some Sample.key2; None].
Proof. vm_compute. reflexivity. Qed.

(** ** Failures during [clearIndexedDB] *)

Lemma failed_call_is_last made before after (c c' : AdapterCall) :
  Forall (fun x => failure x = None /\ op x <> DeleteProfile) made ->
  failure c <> None ->
  made ++ [c'] = before ++ c :: after ->
  after = [] /\ c = c'.
Proof.
  intros Hq Hc. revert before.
  induction made as [|a made IH]; intros [|b before] Heq; simpl in Heq.
  - injection Heq as -> <-. auto.
  - injection Heq as _ Heq. now destruct before.
  - injection Heq as -> _. inversion Hq as [|? ? [Ha _] _]; subst. contradiction.
  - injection Heq as _ Heq. inversion Hq; subst. now apply (IH H2 before).
Qed.

Lemma filter_quiet made :
  Forall (fun x => failure x = None /\ op x <> DeleteProfile) made ->
  filter is_DeleteProfile made = [].
Proof.
  induction 1 as [|c made [_ Hop] _ IH]; simpl; [reflexivity|].
  unfold is_DeleteProfile at 1. destruct (op c); try exact IH. now elim Hop.
Qed.

Lemma filter_deletions calls :
  Forall (fun x => op x = DeleteProfile) calls ->
  filter is_DeleteProfile calls = calls.
Proof.
  induction 1 as [|c calls Hop _ IH]; simpl; [reflexivity|].
  unfold is_DeleteProfile at 1. rewrite Hop. now rewrite IH.
Qed.

Section CleanupFailures.

Context {D : Type} `{LocalStorageProvider.Interface D}.
Variable h0 : list AdapterCall.
Variable stored : list ProfileRecord.t.

Let quiet (made : list AdapterCall) : Prop :=
  Forall (fun x => failure x = None /\ op x <> DeleteProfile) made.

Let Start (w : World D) : Prop :=
  history (indexedDB w) = h0 /\ profiles (indexedDB w) = stored.

(** The first phase so far: every call returned. *)
Let Phase1 (w : World D) : Prop :=
  profiles (indexedDB w) = stored /\ indexedDBSchemaValid w = true /\
  exists made, history (indexedDB w) = h0 ++ made /\ quiet made.

(** The first phase ended in a call that threw [e]. *)
Let Failed1 (e : exn) (w : World D) : Prop :=
  exists made c,
    history (indexedDB w) = h0 ++ made ++ [c] /\ quiet made /\
    failure c = Some e /\ op c <> DeleteProfile.

(** The second phase so far: one [deleteProfile] call for each profile
    of [done] that is not the default one. *)
Let Phase2 (done : list ProfileRecord.t) (w : World D) : Prop :=
  exists made calls,
    history (indexedDB w) = h0 ++ made ++ calls /\ quiet made /\
    Forall (fun x => op x = DeleteProfile) calls /\
    map arg calls = map ProfileRecord.id (filter not_default done).

Let error_logged (e : exn) (w : World D) : Prop :=
  exists shown,
    console w = shown ++ [mkConsole ErrorLevel "Error clearing IndexedDB:" (Some e)].

Lemma phase1_step {A} (m : M D A) o a :
  o <> DeleteProfile ->
  (forall w,
      profiles (indexedDB (snd (m w))) = profiles (indexedDB w) /\
      indexedDBSchemaValid (snd (m w)) = indexedDBSchemaValid w /\
      history (indexedDB (snd (m w))) = history (indexedDB w) ++ [entry o a (fst (m w))]) ->
  triple Phase1 m (fun _ => Phase1) Failed1.
Proof.
  intros Ho Hm w (Hp & Hv & made & Hh & Hq).
  destruct (Hm w) as (Hp' & Hv' & Hh').
  destruct (m w) as [[v|e] w1]; simpl in *.
  - split; [congruence|]. split; [congruence|].
    exists (made ++ [mkCall o a None]). split.
    + rewrite Hh', Hh. now rewrite app_assoc.
    + apply Forall_app. split; [exact Hq|]. constructor; [|constructor].
      simpl. auto.
  - exists made, (mkCall o a (Some e)). rewrite Hh', Hh.
    rewrite app_assoc. simpl. auto.
Qed.

Lemma phase1_getAllProfiles :
  triple Phase1 ProviderDB.getAllProfiles
         (fun l w => Phase1 w /\ l = stored) Failed1.
Proof.
  intros w HP.
  pose proof (phase1_step ProviderDB.getAllProfiles GetAllProfiles "") as Hstep.
  assert (Ho : GetAllProfiles <> DeleteProfile) by discriminate.
  specialize (Hstep Ho).
  assert (Hm : forall w0 : World D,
             profiles (indexedDB (snd (ProviderDB.getAllProfiles w0)))
             = profiles (indexedDB w0) /\
             indexedDBSchemaValid (snd (ProviderDB.getAllProfiles w0))
             = indexedDBSchemaValid w0 /\
             history (indexedDB (snd (ProviderDB.getAllProfiles w0)))
             = history (indexedDB w0)
               ++ [entry GetAllProfiles "" (fst (ProviderDB.getAllProfiles w0))]).
  { intros w0. destruct (getAllProfiles_effect w0) as (Hs & Hv & Hh & _).
    split; [now apply steady_profiles|]. auto. }
  specialize (Hstep Hm w HP).
  destruct (getAllProfiles_effect w) as (_ & _ & _ & Hl).
  destruct HP as (Hp & Hv & _).
  destruct (ProviderDB.getAllProfiles w) as [[l|e] w1]; simpl in *; [|exact Hstep].
  split; [exact Hstep|]. rewrite (Hl l eq_refl), Hv. exact Hp.
Qed.

Lemma phase1_getProviderConfigsByProfile profileId :
  triple Phase1 (ProviderDB.getProviderConfigsByProfile profileId)
         (fun _ => Phase1) Failed1.
Proof.
  apply (phase1_step _ GetProviderConfigsByProfile profileId); [discriminate|].
  intros w. destruct (getProviderConfigsByProfile_effect w profileId)
    as (Hs & Hv & Hh & _).
  split; [now apply steady_profiles|]. auto.
Qed.

Lemma phase1_deleteProviderConfig id :
  triple Phase1 (ProviderDB.deleteProviderConfig id) (fun _ => Phase1) Failed1.
Proof.
  apply (phase1_step _ DeleteProviderConfig id); [discriminate|].
  intros w. destruct (deleteProviderConfig_effect w id)
    as (_ & _ & _ & Hv & _ & _ & Hp & _ & Hh & _).
  auto.
Qed.

Lemma phase1_delete_configs l :
  triple Phase1 (LocalStorageMigration.delete_configs l) (fun _ => Phase1) Failed1.
Proof.
  apply triple_forEach. intros p _.
  eapply triple_bind; [apply phase1_getProviderConfigsByProfile|].
  intros configs. apply triple_forEach. intros c _.
  apply phase1_deleteProviderConfig.
Qed.

Lemma phase2_step done p E :
  triple (Phase2 done)
    (if negb (ProfileRecord.isDefault p)
     then try_catch (ProviderDB.deleteProfile (ProfileRecord.id p))
            (fun error =>
               console_warn
                 (String.append "Could not delete profile "
                    (String.append (ProfileRecord.id p) ":"))
                 (Some error))
     else ret tt)
    (fun _ => Phase2 (done ++ [p])) E.
Proof.
  intros w (made & calls & Hh & Hq & Hc & Ha).
  unfold Phase2, not_default. rewrite filter_app. simpl.
  destruct (ProfileRecord.isDefault p); simpl.
  - exists made, calls. rewrite app_nil_r. auto.
  - destruct (deleteProfile_effect w (ProfileRecord.id p))
      as (_ & _ & _ & _ & _ & _ & _ & _ & Hh' & _).
    simpl in Hh'. unfold try_catch.
    destruct (ProviderDB.deleteProfile (ProfileRecord.id p) w) as [[u|e] w1];
      simpl in *.
    + exists made, (calls ++ [mkCall DeleteProfile (ProfileRecord.id p) None]).
      rewrite Hh', Hh, <- !app_assoc. split; [reflexivity|]. split; [exact Hq|].
      split.
      * apply Forall_app. split; [exact Hc|]. now constructor.
      * rewrite !map_app, Ha. reflexivity.
    + exists made, (calls ++ [mkCall DeleteProfile (ProfileRecord.id p) (Some e)]).
      rewrite Hh', Hh, <- !app_assoc. split; [reflexivity|]. split; [exact Hq|].
      split.
      * apply Forall_app. split; [exact Hc|]. now constructor.
      * rewrite !map_app, Ha. reflexivity.
Qed.

Lemma phase2_delete_profiles l E :
  triple (Phase2 []) (LocalStorageMigration.delete_profiles l)
         (fun _ => Phase2 l) E.
Proof.
  apply (triple_forEach_done Phase2 _ l E (fun done p => phase2_step done p E) []).
Qed.

Lemma clearIndexedDB_phases :
  triple Start LocalStorageMigration.clearIndexedDB
    (fun _ w => history (indexedDB w) = h0 \/ Phase2 stored w)
    (fun e w => Failed1 e w /\ error_logged e w).
Proof.
  unfold LocalStorageMigration.clearIndexedDB.
  apply triple_bind
    with (Q1 := fun b w => Start w /\ indexedDBSchemaValid w = b).
  { intros w [Hh Hp]. destruct (revalidate_effect w) as (Hs & Hh' & b & Hb & Hv).
    destruct (LocalStorageMigration.revalidate w) as [[b'|e] w1]; simpl in *;
      [|discriminate].
    injection Hb as <-. split; [|exact Hv]. split; [congruence|].
    rewrite (steady_profiles _ _ Hs). exact Hp. }
  intros schemaValid.
  apply triple_bind
    with (Q1 := fun _ w => Start w /\ indexedDBSchemaValid w = schemaValid).
  { now apply triple_gets. }
  intros present. apply triple_if; intros Hgate.
  { apply triple_modify. intros w [[Hh _] _]. left. exact Hh. }
  apply orb_false_iff in Hgate as [_ Hvalid]. apply negb_false_iff in Hvalid.
  subst schemaValid.
  apply triple_try with (E1 := Failed1).
  2:{ intros e. apply triple_bind with (Q1 := fun _ w => Failed1 e w /\ error_logged e w).
      - apply triple_modify. intros w Hw. split; [exact Hw|].
        exists (console w). reflexivity.
      - intros u. now apply triple_throw. }
  apply triple_bind with (Q1 := fun _ => Phase1).
  { apply triple_modify. intros w [[Hh Hp] Hv]. split; [exact Hp|].
    split; [exact Hv|]. exists []. simpl. split; [now rewrite app_nil_r|constructor]. }
  intros u1.
  eapply triple_bind; [apply phase1_getAllProfiles|]. intros l.
  apply triple_pure. intros ->.
  apply triple_bind with (Q1 := fun _ => Phase1); [apply phase1_delete_configs|].
  intros u2.
  apply triple_bind with (Q1 := fun _ => Phase2 stored).
  { eapply triple_conseq; [apply (phase2_delete_profiles stored Failed1)| |auto|auto].
    intros w (_ & _ & made & Hh & Hq). exists made, []. rewrite app_nil_r.
    repeat split; auto. }
  intros u3. apply triple_modify. intros w Hw. right. exact Hw.
Qed.

End CleanupFailures.

Section CleanupAborts.

Context {D : Type} `{LocalStorageProvider.Interface D}.

(** C9. Let [made] be the adapter calls of one run of [clearIndexedDB].
    A [deleteProviderConfig] call that threw [e] is the last call of the
    run: no further config and no profile is deleted, the error is logged
    and [clearIndexedDB] throws [e].  A [deleteProfile] call, in contrast,
    never ends the run: once the profile phase is reached the run returns
    normally and [made] has one [deleteProfile] call for every profile
    that is not the default, whether or not some of them threw. *)
Theorem clearIndexedDB_config_failure_aborts (w : World D) :
  exists made,
    history (indexedDB (snd (LocalStorageMigration.clearIndexedDB w)))
    = history (indexedDB w) ++ made /\
    (forall before c after e,
        made = before ++ c :: after ->
        op c = DeleteProviderConfig -> failure c = Some e ->
        after = [] /\
        fst (LocalStorageMigration.clearIndexedDB w) = Throw e /\
        exists shown,
          console (snd (LocalStorageMigration.clearIndexedDB w))
          = shown ++ [mkConsole ErrorLevel "Error clearing IndexedDB:" (Some e)]) /\
    (forall c,
        In c made -> op c = DeleteProfile ->
        fst (LocalStorageMigration.clearIndexedDB w) = Ok tt /\
        map arg (filter is_DeleteProfile made)
        = map ProfileRecord.id (filter not_default (profiles (indexedDB w)))).
Proof.
  pose proof (clearIndexedDB_phases (history (indexedDB w)) (profiles (indexedDB w))
                w (conj eq_refl eq_refl)) as Hrun.
  destruct (LocalStorageMigration.clearIndexedDB w) as [[[]|e] w']; simpl in *.
  - destruct Hrun as [Hskip|(made & calls & Hh & Hq & Hc & Ha)].
    + exists []. rewrite app_nil_r. split; [exact Hskip|]. split.
      * intros before c after e Hm. now destruct before.
      * intros c [].
    + exists (made ++ calls). split; [exact Hh|]. split.
      * intros before c after e Hm Hop Hf. exfalso.
        assert (Hin : In c (made ++ calls)) by (rewrite Hm; apply in_elt).
        apply in_app_or in Hin as [Hin|Hin].
        -- rewrite Forall_forall in Hq. destruct (Hq c Hin) as [Hn _]. congruence.
        -- rewrite Forall_forall in Hc. specialize (Hc c Hin). congruence.
      * intros c _ _. split; [reflexivity|].
        rewrite filter_app, (filter_quiet made Hq), (filter_deletions calls Hc).
        exact Ha.
  - destruct Hrun as [(made & c' & Hh & Hq & Hf' & Hop') Hlog].
    exists (made ++ [c']). split; [exact Hh|]. split.
    + intros before c after e' Hm Hop Hf.
      assert (Hne : failure c <> None) by congruence.
      destruct (failed_call_is_last made before after c c' Hq Hne Hm) as [-> ->].
      split; [reflexivity|]. replace e' with e by congruence.
      split; [reflexivity|exact Hlog].
    + intros c Hin Hop. exfalso.
      apply in_app_or in Hin as [Hin|[<-|[]]].
      * rewrite Forall_forall in Hq. destruct (Hq c Hin) as [_ Hn]. contradiction.
      * contradiction.
Qed.

End CleanupAborts.

(** A failed config deletion ends the run with both tables untouched; a
    failed profile deletion does not keep the next profile from being
    deleted. *)
Lemma clearIndexedDB_config_failure_aborts_witness :
  fst (LocalStorageMigration.clearIndexedDB Sample.config_deletion_fails)
  = Throw Sample.boom /\
  provider_configs
    (indexedDB (snd (LocalStorageMigration.clearIndexedDB Sample.config_deletion_fails)))
  = [Sample.c1; Sample.c2; Sample.c3] /\
  fst (LocalStorageMigration.clearIndexedDB Sample.profile_deletion_fails) = Ok tt /\
  map arg (filter is_DeleteProfile
             (history (indexedDB (snd (LocalStorageMigration.clearIndexedDB
                                         Sample.profile_deletion_fails)))))
  = ["p-home"; "p-zz"].
Proof.
  destruct (clearIndexedDB_config_failure_aborts Sample.config_deletion_fails)
    as (made & Hh & Ha & _).
  destruct (clearIndexedDB_config_failure_aborts Sample.profile_deletion_fails)
    as (made' & Hh' & _ & Hb).
  set (r := LocalStorageMigration.clearIndexedDB Sample.config_deletion_fails) in *.
  set (r' := LocalStorageMigration.clearIndexedDB Sample.profile_deletion_fails) in *.
  assert (Hm : history (indexedDB (snd r))
               = [mkCall GetAllProfiles "" None;
                  mkCall GetProviderConfigsByProfile "p-work" None]
                 ++ mkCall DeleteProviderConfig "c1" (Some Sample.boom) :: [])
    by (vm_compute; reflexivity).
  assert (Hc : provider_configs (indexedDB (snd r)) = [Sample.c1; Sample.c2; Sample.c3])
    by (vm_compute; reflexivity).
  assert (Hm' : In (mkCall DeleteProfile "p-home" (Some Sample.boom))
                   (history (indexedDB (snd r'))))
    by (vm_compute; do 7 right; left; reflexivity).
  rewrite Hh in Hm. rewrite Hh' in Hm'. simpl in Hm, Hm'.
  destruct (Ha [mkCall GetAllProfiles "" None;
                mkCall GetProviderConfigsByProfile "p-work" None]
               (mkCall DeleteProviderConfig "c1" (Some Sample.boom)) []
               Sample.boom Hm eq_refl eq_refl) as (_ & Hthrow & _).
  destruct (Hb _ Hm' eq_refl) as (Hok & Hcalls).
  rewrite Hh'. simpl app.
  repeat split; assumption.
Defined.

(** ** The two-profile scenario *)

Lemma fold_left_succ {A} (l : list A) n :
  fold_left (fun s _ => S s) l n = n + List.length l.
Proof.
  revert n. induction l as [|x l IH]; intros n; simpl; [lia|].
  rewrite IH. lia.
Qed.

Lemma fold_left_succ2 {A} (l : list A) (c : nat * nat) :
  fold_left (fun s _ => (S (fst s), S (snd s))) l c
  = (fst c + List.length l, snd c + List.length l).
Proof.
  revert c. induction l as [|x l IH]; intros [n k]; simpl.
  - f_equal; lia.
  - rewrite IH. simpl. f_equal; lia.
Qed.

Section Scenario.

Variable stored : list ProfileRecord.t.
Variable db0 : IndexedDB.

(** A calm world after revalidation, holding what [db0] holds. *)
Let C (w : World KVStore.t) : Prop :=
  calm w /\ indexedDBSchemaValid w = true /\
  profiles (indexedDB w) = stored /\
  provider_configs (indexedDB w) = provider_configs db0 /\
  app_metadata (indexedDB w) = app_metadata db0.

Lemma calm_tables (w : World KVStore.t) :
  calm w ->
  includes (objectStoreNames (indexedDB w)) "profiles" = true /\
  includes (objectStoreNames (indexedDB w)) "provider_configs" = true /\
  includes (objectStoreNames (indexedDB w)) "app_metadata" = true.
Proof.
  intros (_ & _ & _ & Ht & _). unfold requiredStores in Ht. simpl in Ht.
  rewrite !andb_true_iff in Ht. tauto.
Qed.

(** Runs an adapter operation in a world known to be calm. *)
Ltac calm_run w HC :=
  let Hcalm := fresh "Hcalm" in
  let Hv := fresh "Hv" in
  let Hp := fresh "Hp" in
  let Hc := fresh "Hc" in
  let Hm := fresh "Hm" in
  destruct HC as (Hcalm & Hv & Hp & Hc & Hm);
  destruct (calm_tables w Hcalm) as (? & ? & ?);
  pose proof Hcalm as (? & ? & ? & ? & ?);
  unfold traced, transact, bind, gets, modify, open_request, handler_body,
    next_fate, fine, ret, throw; simpl;
  repeat match goal with
         | E : ?x = _ |- context [?x] => rewrite E; simpl
         end.

Lemma scenario_revalidate (w : World KVStore.t) :
  calm w ->
  exists w', LocalStorageMigration.revalidate w = (Ok true, w') /\
             calm w' /\ indexedDBSchemaValid w' = true /\
             steady w w'.
Proof.
  intros Hcalm. pose proof Hcalm as (Hd & Hp & Hf & Ht & Ha).
  unfold LocalStorageMigration.revalidate, hasValidIndexedDBSchema, bind, gets,
    try_catch, open_request, handler_body, modify, ret, next_fate, fine.
  rewrite Hd. simpl. rewrite Hf. simpl.
  unfold requiredStores in Ht. simpl in Ht. rewrite Ht. simpl.
  eexists. split; [reflexivity|]. split; [|split; [reflexivity|]].
  - unfold calm. simpl. rewrite Hd, Hf. unfold requiredStores. simpl. rewrite Ht. auto.
  - repeat split.
Qed.

Lemma scenario_getAllProfiles :
  triple C ProviderDB.getAllProfiles (fun l w => C w /\ l = stored) (fun _ _ => False).
Proof.
  intros w HC. unfold ProviderDB.getAllProfiles. calm_run w HC.
  split; [|reflexivity]. unfold C, calm. simpl.
  repeat match goal with E : ?x = _ |- context [?x] => rewrite E end.
  auto 10.
Qed.

Lemma scenario_getProviderConfigsByProfile p :
  triple C (ProviderDB.getProviderConfigsByProfile (ProfileRecord.id p))
         (fun l w => C w /\ l = configs_of db0 p) (fun _ _ => False).
Proof.
  intros w HC. unfold ProviderDB.getProviderConfigsByProfile. calm_run w HC.
  split; [|reflexivity]. unfold C, calm. simpl.
  repeat match goal with E : ?x = _ |- context [?x] => rewrite E end.
  auto 10.
Qed.

Lemma scenario_getMetadata :
  triple C (ProviderDB.getMetadata "active_profile_id")
         (fun v w => C w /\ v = active_profile_id db0) (fun _ _ => False).
Proof.
  intros w HC. unfold ProviderDB.getMetadata. calm_run w HC.
  unfold C, calm, active_profile_id, ProviderDB.get_meta. simpl.
  repeat match goal with E : ?x = _ |- context [?x] => rewrite E end.
  auto 10.
Qed.

Lemma scenario_getSchemaVersion :
  triple C ProviderDB.getSchemaVersion (fun _ w => C w) (fun _ _ => False).
Proof.
  intros w HC. unfold ProviderDB.getSchemaVersion. calm_run w HC.
  unfold C, calm. simpl.
  repeat match goal with E : ?x = _ |- context [?x] => rewrite E end.
  auto 10.
Qed.

Lemma scenario_console c :
  triple C (modify (with_console c)) (fun _ w => C w) (fun _ _ => False).
Proof. apply triple_modify. intros w HC. exact HC. Qed.

(** A write of the key-value store succeeds in a calm world and leaves
    the store available. *)
Lemma scenario_writing (f : KVStore.t -> KVStore.t) :
  (forall s, KVStore.available (f s) = KVStore.available s) ->
  triple C (writing (fun s => KVStore.guarded s (f s)))
         (fun _ w => C w) (fun _ _ => False).
Proof.
  intros Hf. apply triple_writing. intros w HC.
  destruct HC as ((Hd & Hp & Hfa & Ht & Ha) & Hrest).
  unfold KVStore.guarded. rewrite Ha.
  split; [|exact Hrest]. unfold calm. simpl. rewrite Hf. auto.
Qed.

End Scenario.

Lemma triple_false {D A} (m : M D A) Q E : triple (fun _ => False) m Q E.
Proof. intros w []. Qed.

Section ScenarioMigrate.

Variable db0 : IndexedDB.

Let stored := profiles db0.

Let C (w : World KVStore.t) : Prop :=
  calm w /\ indexedDBSchemaValid w = true /\
  profiles (indexedDB w) = stored /\
  provider_configs (indexedDB w) = provider_configs db0 /\
  app_metadata (indexedDB w) = app_metadata db0.

Let never : exn -> World KVStore.t -> Prop := fun _ _ => False.

(** The provider configs of all the profiles of a list. *)
Let config_count (l : list ProfileRecord.t) : nat :=
  list_sum (map (fun p => List.length (configs_of db0 p)) l).

Lemma scenario_migrate_profiles l n :
  triple C (LocalStorageMigration.migrate_profiles l n)
         (fun n' w => C w /\ n' = n + List.length l) never.
Proof.
  unfold LocalStorageMigration.migrate_profiles.
  eapply triple_conseq;
    [apply (triple_forFold_step C _ (fun s _ => S s) l never)|auto| |auto].
  - intros s p _.
    apply triple_bind with (Q1 := fun _ => C).
    + apply (scenario_writing stored db0
               (fun s0 => KVStore.mk (KVStore.available s0)
                            (KVStore.upsert (KVStore.same_profile p) p
                                            (KVStore.profiles s0))
                            (KVStore.configs s0) (KVStore.metadata s0)
                            (KVStore.version s0))).
      reflexivity.
    + intros u. apply triple_ret. auto.
  - intros n' w [Hw ->]. split; [exact Hw|]. apply fold_left_succ.
Qed.

Lemma scenario_save_configs configs (c : nat * nat) :
  triple C
    (forFold (fun counters config =>
                bind (writing (LocalStorageProvider.saveProviderConfig
                                 (LocalStorageMigration.relay config)))
                     (fun _ => ret (S (fst counters), S (snd counters))))
             configs c)
    (fun c' w => C w /\
                 c' = (fst c + List.length configs, snd c + List.length configs))
    never.
Proof.
  eapply triple_conseq;
    [apply (triple_forFold_step C _ (fun s _ => (S (fst s), S (snd s))) configs never)
    |auto| |auto].
  - intros s config _.
    apply triple_bind with (Q1 := fun _ => C).
    + apply (scenario_writing stored db0
               (fun s0 => KVStore.mk (KVStore.available s0) (KVStore.profiles s0)
                            (KVStore.upsert
                               (KVStore.same_config (LocalStorageMigration.relay config))
                               (LocalStorageMigration.relay config)
                               (KVStore.configs s0))
                            (KVStore.metadata s0) (KVStore.version s0))).
      reflexivity.
    + intros u. apply triple_ret. auto.
  - intros c' w [Hw ->]. split; [exact Hw|]. apply fold_left_succ2.
Qed.

Lemma scenario_migrate_configs l (c : nat * nat) :
  triple C (LocalStorageMigration.migrate_configs l c)
         (fun c' w => C w /\ c' = (fst c + config_count l, snd c + config_count l))
         never.
Proof.
  unfold LocalStorageMigration.migrate_configs.
  eapply triple_conseq;
    [apply (triple_forFold_step C _
              (fun s p => (fst s + List.length (configs_of db0 p),
                           snd s + List.length (configs_of db0 p))) l never)
    |auto| |auto].
  - intros s p _.
    eapply triple_bind;
      [apply (scenario_getProviderConfigsByProfile stored db0 p)|].
    intros configs. apply triple_pure. intros ->.
    apply triple_bind with (Q1 := fun _ => C); [apply scenario_console|].
    intros u. apply scenario_save_configs.
  - intros c' w [Hw ->]. split; [exact Hw|]. clear.
    revert c. unfold config_count.
    induction l as [|p l IH]; intros [n k]; simpl.
    + f_equal; lia.
    + rewrite IH. simpl. f_equal; lia.
Qed.

Lemma scenario_setMetadata key v :
  triple C (writing (LocalStorageProvider.setMetadata key v)) (fun _ => C) never.
Proof.
  apply (scenario_writing stored db0
           (fun s0 => KVStore.mk (KVStore.available s0) (KVStore.profiles s0)
                        (KVStore.configs s0)
                        (KVStore.upsert (fun e => fst e =? key) (key, v)
                                        (KVStore.metadata s0))
                        (KVStore.version s0))).
  reflexivity.
Qed.

Lemma scenario_migrate_metadata n :
  triple C (LocalStorageMigration.migrate_metadata n)
         (fun n' w => C w /\ n' = n + metadata_copied db0) never.
Proof.
  unfold LocalStorageMigration.migrate_metadata.
  apply triple_try with (E1 := never); [|intros e; apply triple_false].
  eapply triple_bind; [apply (scenario_getMetadata stored db0)|].
  intros activeProfileId. apply triple_pure. intros ->.
  apply triple_bind
    with (Q1 := fun n1 w =>
                  C w /\ n1 = if truthy (active_profile_id db0) then S n else n).
  { destruct (truthy (active_profile_id db0)).
    - apply triple_bind with (Q1 := fun _ => C); [apply scenario_setMetadata|].
      intros u. apply triple_ret. auto.
    - apply triple_ret. auto. }
  intros n1. apply triple_pure. intros ->.
  apply triple_try with (E1 := never); [|intros e; apply triple_false].
  apply triple_bind with (Q1 := fun _ => C);
    [apply (scenario_getSchemaVersion stored db0)|].
  intros schemaVersion.
  apply triple_bind with (Q1 := fun _ => C); [apply scenario_setMetadata|].
  intros u. apply triple_ret. intros w Hw. split; [exact Hw|].
  unfold metadata_copied. destruct (truthy (active_profile_id db0)); lia.
Qed.

Lemma scenario_transfer (h : exn -> M KVStore.t MigrationResult.t) :
  triple C
    (try_catch
       (console_log "Starting IndexedDB to localStorage migration..." ;;
        profiles <- ProviderDB.getAllProfiles ;;
        console_log
          (String.append "Found "
             (String.append (string_of_nat (List.length profiles))
                            " profiles to migrate")) ;;
        migratedItems <- LocalStorageMigration.migrate_profiles profiles 0 ;;
        allProfiles <- ProviderDB.getAllProfiles ;;
        counters <- LocalStorageMigration.migrate_configs allProfiles (migratedItems, 0) ;;
        migratedItems <- LocalStorageMigration.migrate_metadata (fst counters) ;;
        writing (LocalStorageProvider.setSchemaVersion 2) ;;
        console_log
          (String.append "Migration completed successfully. Migrated "
             (String.append (string_of_nat migratedItems) " items.")) ;;
        ret (MigrationResult.mk true
               (String.append "Successfully migrated "
                  (String.append (string_of_nat (List.length profiles))
                     (String.append " profiles and "
                        (String.append (string_of_nat (snd counters))
                                       " provider configurations"))))
               migratedItems))%js
       h)
    (fun result w =>
       MigrationResult.success result = true /\
       MigrationResult.migratedItems result
       = List.length stored + config_count stored + metadata_copied db0 /\
       calm w /\ KVStore.version (localStorageProvider w) = 2%Z)
    never.
Proof.
  apply triple_try with (E1 := never); [|intros e; apply triple_false].
  apply triple_bind with (Q1 := fun _ => C); [apply scenario_console|]. intros u1.
  eapply triple_bind; [apply (scenario_getAllProfiles stored db0)|].
  intros profiles. apply triple_pure. intros ->.
  apply triple_bind with (Q1 := fun _ => C); [apply scenario_console|]. intros u2.
  eapply triple_bind; [apply scenario_migrate_profiles|].
  intros migratedItems. apply triple_pure. intros ->.
  eapply triple_bind; [apply (scenario_getAllProfiles stored db0)|].
  intros allProfiles. apply triple_pure. intros ->.
  eapply triple_bind; [apply scenario_migrate_configs|].
  intros counters. apply triple_pure. intros ->. simpl fst. simpl snd.
  eapply triple_bind; [apply scenario_migrate_metadata|].
  intros migratedItems. apply triple_pure. intros ->.
  apply triple_bind
    with (Q1 := fun _ w => calm w /\ KVStore.version (localStorageProvider w) = 2%Z).
  { apply triple_writing. intros w ((Hd & Hp & Hf & Ht & Ha) & _).
    simpl. unfold KVStore.guarded. rewrite Ha. unfold calm. simpl. auto 10. }
  intros u3.
  apply triple_bind
    with (Q1 := fun _ w => calm w /\ KVStore.version (localStorageProvider w) = 2%Z).
  { apply triple_modify. intros w Hw. exact Hw. }
  intros u4. apply triple_ret. intros w [Hc Hv]. auto.
Qed.

End ScenarioMigrate.

Lemma bind_gets {D A B} (f : World D -> A) (k : A -> M D B) w :
  bind (gets f) k w = k (f w) w.
Proof. reflexivity. Qed.

(** In a calm world [migrate] succeeds and counts every profile, every
    provider config and the metadata entries it copied. *)
Lemma migrate_calm (w : World KVStore.t) :
  calm w ->
  exists result w1,
    LocalStorageMigration.migrate w = (Ok result, w1) /\
    MigrationResult.success result = true /\
    MigrationResult.migratedItems result
    = List.length (profiles (indexedDB w))
      + list_sum (map (fun p => List.length (configs_of (indexedDB w) p))
                      (profiles (indexedDB w)))
      + metadata_copied (indexedDB w) /\
    calm w1 /\ KVStore.version (localStorageProvider w1) = 2%Z.
Proof.
  intros Hcalm.
  destruct (scenario_revalidate w Hcalm) as (w' & Hr & Hcalm' & Hv & Hs).
  pose proof Hcalm as (_ & Hp & _ & _ & Ha).
  unfold LocalStorageMigration.migrate.
  rewrite bind_gets.
  change (LocalStorageProvider.isAvailable (localStorageProvider w))
    with (KVStore.available (localStorageProvider w)).
  rewrite Ha.
  cbn [negb]. rewrite (bind_ok _ _ _ _ _ Hr). rewrite bind_gets.
  destruct Hs as (Hp' & Hd' & _ & Hc'). rewrite Hp', Hp. cbn [negb orb].
  match goal with
  | |- exists result w1, try_catch ?body ?h w' = _ /\ _ =>
      pose proof (scenario_transfer (indexedDB w) h w') as Ht
  end.
  unfold contents in Hc'.
  assert (HC : calm w' /\ indexedDBSchemaValid w' = true /\
               profiles (indexedDB w') = profiles (indexedDB w) /\
               provider_configs (indexedDB w') = provider_configs (indexedDB w) /\
               app_metadata (indexedDB w') = app_metadata (indexedDB w)).
  { split; [exact Hcalm'|]. split; [exact Hv|].
    injection Hc' as _ E1 E2 E3. auto. }
  specialize (Ht HC).
  match goal with
  | |- exists result w1, ?m w' = _ /\ _ =>
      destruct (m w') as [[result|e] w1]; [|contradiction]
  end.
  exists result, w1. tauto.
Qed.

Section AfterMigration.

Context {D : Type} `{LocalStorageProvider.Interface D}.
Variable version : Z.
Hypothesis migrated : (2 <= version)%Z.

(** The provider reports the version [version]. *)
Let P (w : World D) : Prop :=
  LocalStorageProvider.getSchemaVersion (localStorageProvider w) = Ok version.

Let never : exn -> World D -> Prop := fun _ _ => False.

Lemma P_stable : stable P.
Proof. intros w w' (_ & Hd & _) Hw. unfold P. now rewrite Hd. Qed.

Lemma count_items_returns {R C} (Q : World D -> Prop)
    (allProfiles : M D (list R)) (configsOf : R -> M D (list C)) :
  triple Q (LocalStorageMigration.count_items allProfiles configsOf)
         (fun _ _ => True) never.
Proof.
  unfold LocalStorageMigration.count_items.
  apply triple_try with (E1 := fun _ _ => True).
  - eapply triple_bind; [apply triple_any|]. intros profiles.
    apply (triple_forFoldTry (fun _ => True) _ profiles (fun _ _ => True)); auto.
    intros s x _. apply triple_any.
  - intros e. now apply triple_ret.
Qed.

Lemma isMigrationNeeded_after :
  triple P LocalStorageMigration.isMigrationNeeded
         (fun needed _ => True /\ needed = false) never.
Proof.
  unfold LocalStorageMigration.isMigrationNeeded.
  apply triple_try with (E1 := never); [|intros e; apply triple_false].
  apply triple_bind with (Q1 := fun v _ => True /\ v = version).
  { apply triple_reading. intros w Hw. unfold P in Hw. rewrite Hw. auto. }
  intros currentVersion. apply triple_pure. intros ->.
  apply Z.leb_le in migrated. rewrite migrated. now apply triple_ret.
Qed.

Lemma getMigrationStatus_after :
  triple P LocalStorageMigration.getMigrationStatus
         (fun status _ => MigrationStatus.needsMigration status = false) never.
Proof.
  unfold LocalStorageMigration.getMigrationStatus.
  apply triple_bind with (Q1 := fun _ => P); [now apply triple_gets|].
  intros localStorageAvailable.
  apply triple_bind with (Q1 := fun _ => P).
  { intros w Hw. destruct (revalidate_effect w) as (Hs & _ & b & Hb & _).
    destruct (LocalStorageMigration.revalidate w) as [[b'|e] w1]; simpl in *;
      [|discriminate].
    now apply (P_stable w). }
  intros schemaValid.
  apply triple_bind with (Q1 := fun _ => P); [now apply triple_gets|].
  intros present.
  apply triple_bind with (Q1 := fun _ => P).
  { apply triple_if; intros _; [now apply triple_gets|now apply triple_ret]. }
  intros indexedDBAvailable.
  eapply triple_bind; [apply isMigrationNeeded_after|].
  intros needsMigration. apply triple_pure. intros ->.
  apply triple_bind with (Q1 := fun _ _ => True).
  { apply triple_if; intros _; [|now apply triple_ret].
    eapply triple_bind; [apply count_items_returns|]. intros counted.
    destruct (snd counted); [|now apply triple_ret].
    apply triple_bind with (Q1 := fun _ _ => True); [now apply triple_modify|].
    intros u. now apply triple_ret. }
  intros localStorageItems.
  apply triple_bind with (Q1 := fun _ _ => True).
  { apply triple_if; intros _; [|now apply triple_ret].
    eapply triple_bind; [apply count_items_returns|]. intros counted.
    destruct (snd counted); [|now apply triple_ret].
    apply triple_bind with (Q1 := fun _ _ => True); [now apply triple_modify|].
    intros u. now apply triple_ret. }
  intros indexedDBItems. now apply triple_ret.
Qed.

End AfterMigration.

(** C1, as amended. In the scenario of the spec, with no failing request,
    [migrate] returns [success = true] and counts the metadata entries it
    copied next to the 2 profiles and 3 provider configs: [migratedItems]
    is 6 when the legacy store has no active profile id and 7 when it has
    one.  [getMigrationStatus] then reports [needsMigration = false]. *)
Theorem migrate_two_profiles (w : World KVStore.t) p q :
  two_profile_scenario w p q ->
  exists result w1 status w2,
    LocalStorageMigration.migrate w = (Ok result, w1) /\
    MigrationResult.success result = true /\
    MigrationResult.migratedItems result = 5 + metadata_copied (indexedDB w) /\
    LocalStorageMigration.getMigrationStatus w1 = (Ok status, w2) /\
    MigrationStatus.needsMigration status = false.
Proof.
  intros (Hcalm & Hps & _ & _ & Hp & Hq).
  destruct (migrate_calm w Hcalm) as (result & w1 & Hm & Hs & Hn & Hcalm1 & Hv).
  assert (Hread : LocalStorageProvider.getSchemaVersion (localStorageProvider w1)
                  = Ok 2%Z).
  { destruct Hcalm1 as (_ & _ & _ & _ & Ha). simpl. unfold KVStore.guarded.
    now rewrite Ha, Hv. }
  pose proof (getMigrationStatus_after 2%Z (Z.le_refl 2) w1 Hread) as Hst.
  destruct (LocalStorageMigration.getMigrationStatus w1) as [[status|e] w2] eqn:Eg;
    [|contradiction].
  exists result, w1, status, w2.
  split; [exact Hm|]. split; [exact Hs|]. split; [|split; [exact Eg|exact Hst]].
  rewrite Hn. destruct Hps as [-> | ->]; simpl; rewrite Hp, Hq; reflexivity.
Qed.

(** The scenario on sample data, without and with an active profile. *)
Lemma migrate_two_profiles_witness :
  two_profile_scenario Sample.two_profiles Sample.work Sample.home /\
  two_profile_scenario Sample.two_profiles_active Sample.work Sample.home /\
  (exists w1, LocalStorageMigration.migrate Sample.two_profiles
              = (Ok (MigrationResult.mk true
                       "Successfully migrated 2 profiles and 3 provider configurations"
                       6), w1)) /\
  (exists w1, LocalStorageMigration.migrate Sample.two_profiles_active
              = (Ok (MigrationResult.mk true
                       "Successfully migrated 2 profiles and 3 provider configurations"
                       7), w1)).
Proof.
  assert (H1 : two_profile_scenario Sample.two_profiles Sample.work Sample.home).
  { repeat split; auto. }
  assert (H2 : two_profile_scenario Sample.two_profiles_active Sample.work Sample.home).
  { repeat split; auto. }
  split; [exact H1|]. split; [exact H2|].
  destruct (migrate_two_profiles _ _ _ H1) as (r1 & w1 & _ & _ & Hm1 & _ & Hn1 & _).
  destruct (migrate_two_profiles _ _ _ H2) as (r2 & w2 & _ & _ & Hm2 & _ & Hn2 & _).
  split; [exists w1|exists w2].
  - rewrite Hm1. f_equal. f_equal.
    assert (Hf : fst (LocalStorageMigration.migrate Sample.two_profiles)
                 = Ok (MigrationResult.mk true
                         "Successfully migrated 2 profiles and 3 provider configurations"
                         6)) by (vm_compute; reflexivity).
    rewrite Hm1 in Hf. simpl in Hf. now injection Hf.
  - rewrite Hm2. f_equal. f_equal.
    assert (Hf : fst (LocalStorageMigration.migrate Sample.two_profiles_active)
                 = Ok (MigrationResult.mk true
                         "Successfully migrated 2 profiles and 3 provider configurations"
                         7)) by (vm_compute; reflexivity).
    rewrite Hm2 in Hf. simpl in Hf. now injection Hf.
Defined.

(** C1, as stated, fails: in the scenario of the spec [migrate] returns
    [migratedItems = 6], the schema-version entry being counted too. *)
Lemma migrate_counts_metadata_too :
  two_profile_scenario Sample.two_profiles Sample.work Sample.home /\
  fst (LocalStorageMigration.migrate Sample.two_profiles)
  = Ok (MigrationResult.mk true
          "Successfully migrated 2 profiles and 3 provider configurations" 6) /\
  ~ (exists result,
        fst (LocalStorageMigration.migrate Sample.two_profiles) = Ok result /\
        MigrationResult.success result = true /\
        MigrationResult.migratedItems result = 5).
Proof.
  assert (Hf : fst (LocalStorageMigration.migrate Sample.two_profiles)
               = Ok (MigrationResult.mk true
                       "Successfully migrated 2 profiles and 3 provider configurations"
                       6)) by (vm_compute; reflexivity).
  split; [repeat split; auto|]. split; [exact Hf|].
  intros (result & Hr & _ & Hn). rewrite Hf in Hr. injection Hr as <-.
  discriminate.
Qed.

(* ===================================================================== *)
(** * Further properties of the engine *)
(* ===================================================================== *)

(** ** [isMigrationNeeded] and [getMigrationStatus] never reject *)

Section NeverRejects.

Context {D : Type} `{LocalStorageProvider.Interface D}.
Variable d0 : D.
Variable adapter : bool.
Variable stored : list ProfileRecord.t.

Let never : exn -> World D -> Prop := fun _ _ => False.

(** Nothing was written and the legacy profiles are those of the start. *)
Let Kept (w : World D) : Prop :=
  localStorageProvider w = d0 /\ ProviderDB w = adapter /\
  profiles (indexedDB w) = stored.

(** What an answer [true] of [isMigrationNeeded] stands for. *)
Let Needed (b : bool) (w : World D) : Prop :=
  b = true ->
  localStorageProvider w = d0 /\ adapter = true /\
  indexedDBSchemaValid w = true /\ stored <> [].

Lemma Kept_stable : stable Kept.
Proof.
  intros w w' Hs (Hd & Hp & Hl). unfold Kept.
  rewrite (steady_profiles _ _ Hs). destruct Hs as (-> & -> & _). auto.
Qed.

Lemma mark_then_false (P : World D -> Prop) :
  triple P
    (bind (writing (LocalStorageProvider.setSchemaVersion 2)) (fun _ => ret false))
    Needed (fun _ _ => True).
Proof.
  apply triple_bind with (Q1 := fun _ _ => True); [apply triple_any|].
  intros u. apply triple_ret. intros w _ Hb. discriminate.
Qed.

Lemma isMigrationNeeded_answer :
  triple Kept LocalStorageMigration.isMigrationNeeded Needed never.
Proof.
  unfold LocalStorageMigration.isMigrationNeeded.
  apply triple_try with (E1 := fun _ _ => True).
  2:{ intros e.
      apply triple_bind with (Q1 := fun _ _ => True); [now apply triple_modify|].
      intros u.
      apply triple_bind with (Q1 := fun _ _ => True).
      - apply triple_try with (E1 := fun _ _ => True); [apply triple_any|].
        intros e'. now apply triple_ret.
      - intros u'. apply triple_ret. intros w _ Hb. discriminate. }
  apply triple_bind with (Q1 := fun _ => Kept).
  { apply triple_reading. intros w Hw.
    now destruct (LocalStorageProvider.getSchemaVersion (localStorageProvider w)). }
  intros currentVersion. apply triple_if; intros _.
  { apply triple_ret. intros w _ Hb. discriminate. }
  apply triple_bind
    with (Q1 := fun schemaValid w => Kept w /\ indexedDBSchemaValid w = schemaValid).
  { intros w Hw. destruct (revalidate_effect w) as (Hs & _ & b & Hb & Hv).
    destruct (LocalStorageMigration.revalidate w) as [[b'|e] w1]; simpl in *;
      [|discriminate].
    injection Hb as <-. split; [now apply (Kept_stable w)|exact Hv]. }
  intros schemaValid.
  apply triple_bind
    with (Q1 := fun present w => (Kept w /\ indexedDBSchemaValid w = schemaValid)
                                 /\ present = adapter).
  { apply triple_gets. intros w [Hk Hv]. split; [auto|]. apply Hk. }
  intros present. apply triple_pure. intros ->.
  apply triple_if; intros Hgate; [apply mark_then_false|].
  apply orb_false_iff in Hgate as [Hp Hv].
  apply negb_false_iff in Hp, Hv. subst schemaValid.
  apply triple_bind
    with (Q1 := fun l w => (Kept w /\ indexedDBSchemaValid w = true) /\ l = stored).
  { intros w (Hk & Hv).
    destruct (getAllProfiles_effect w) as (Hs & Hv' & _ & Hl).
    destruct (ProviderDB.getAllProfiles w) as [[l|e] w1]; simpl in *; [|exact I].
    split; [split; [now apply (Kept_stable w)|congruence]|].
    rewrite (Hl l eq_refl), Hv. apply Hk. }
  intros profiles. apply triple_pure. intros ->.
  apply triple_if; intros Hlen; [apply mark_then_false|].
  apply triple_ret. intros w ((Hd & _ & _) & Hv) _.
  repeat split; try assumption.
  intros Hnil. rewrite Hnil in Hlen. discriminate.
Qed.

End NeverRejects.

Section StatusNeverRejects.

Context {D : Type} `{LocalStorageProvider.Interface D}.

Let never : exn -> World D -> Prop := fun _ _ => False.

Lemma isMigrationNeeded_never :
  triple (fun _ => True) LocalStorageMigration.isMigrationNeeded
         (fun _ _ => True) never.
Proof.
  intros w _.
  pose proof (isMigrationNeeded_answer (localStorageProvider w) (ProviderDB w)
                (profiles (indexedDB w)) w (conj eq_refl (conj eq_refl eq_refl)))
    as Hw.
  now destruct (LocalStorageMigration.isMigrationNeeded w) as [[b|e] w1].
Qed.

Lemma getMigrationStatus_consistent :
  triple (fun _ => True) LocalStorageMigration.getMigrationStatus
    (fun status _ =>
       (MigrationStatus.localStorageAvailable status = false ->
        MigrationStatus.localStorageItems status = 0) /\
       (MigrationStatus.indexedDBAvailable status = false ->
        MigrationStatus.indexedDBItems status = 0))
    never.
Proof.
  unfold LocalStorageMigration.getMigrationStatus.
  apply triple_bind with (Q1 := fun _ _ => True); [now apply triple_gets|].
  intros localStorageAvailable.
  apply triple_bind with (Q1 := fun _ _ => True); [apply revalidate_returns|].
  intros schemaValid.
  apply triple_bind with (Q1 := fun _ _ => True); [now apply triple_gets|].
  intros present.
  apply triple_bind with (Q1 := fun _ _ => True).
  { apply triple_if; intros _; [now apply triple_gets|now apply triple_ret]. }
  intros indexedDBAvailable.
  apply triple_bind with (Q1 := fun _ _ => True); [apply isMigrationNeeded_never|].
  intros needsMigration.
  apply triple_bind
    with (Q1 := fun items _ => True /\ (localStorageAvailable = false -> items = 0)).
  { destruct localStorageAvailable.
    - eapply triple_bind; [apply count_items_returns|]. intros counted.
      destruct (snd counted).
      + apply triple_bind with (Q1 := fun _ _ => True); [now apply triple_modify|].
        intros u. apply triple_ret. intros w _. split; [exact I|discriminate].
      + apply triple_ret. intros w _. split; [exact I|discriminate].
    - apply triple_ret. auto. }
  intros localStorageItems. apply triple_pure. intros Hlocal.
  apply triple_bind
    with (Q1 := fun items _ => True /\ (indexedDBAvailable = false -> items = 0)).
  { destruct indexedDBAvailable; simpl.
    - apply triple_if; intros _.
      + eapply triple_bind; [apply count_items_returns|]. intros counted.
        destruct (snd counted).
        * apply triple_bind with (Q1 := fun _ _ => True); [now apply triple_modify|].
          intros u. apply triple_ret. intros w _. split; [exact I|discriminate].
        * apply triple_ret. intros w _. split; [exact I|discriminate].
      + apply triple_ret. intros w _. split; [exact I|discriminate].
    - apply triple_ret. auto. }
  intros indexedDBItems. apply triple_pure. intros Hlegacy.
  apply triple_ret. intros w _. simpl. auto.
Qed.

(** X1. [isMigrationNeeded] never rejects, whatever the provider and the
    database do.  It answers [true] only after a validation that
    accepted the schema, with the adapter present and a profiles table
    that is not empty, and then it has written nothing to the provider. *)
Theorem isMigrationNeeded_true_means_data (w : World D) :
  exists needed,
    fst (LocalStorageMigration.isMigrationNeeded w) = Ok needed /\
    (needed = true ->
     localStorageProvider (snd (LocalStorageMigration.isMigrationNeeded w))
     = localStorageProvider w /\
     ProviderDB w = true /\
     indexedDBSchemaValid (snd (LocalStorageMigration.isMigrationNeeded w)) = true /\
     profiles (indexedDB w) <> []).
Proof.
  pose proof (isMigrationNeeded_answer (localStorageProvider w) (ProviderDB w)
                (profiles (indexedDB w)) w (conj eq_refl (conj eq_refl eq_refl)))
    as Hw.
  destruct (LocalStorageMigration.isMigrationNeeded w) as [[b|e] w1]; simpl in *;
    [|contradiction].
  exists b. split; [reflexivity|exact Hw].
Qed.

(** X2. [getMigrationStatus] never rejects, whatever the provider and
    the database do, and a store it reports as unavailable it reports as
    empty. *)
Theorem getMigrationStatus_never_rejects (w : World D) :
  exists status,
    fst (LocalStorageMigration.getMigrationStatus w) = Ok status /\
    (MigrationStatus.localStorageAvailable status = false ->
     MigrationStatus.localStorageItems status = 0) /\
    (MigrationStatus.indexedDBAvailable status = false ->
     MigrationStatus.indexedDBItems status = 0).
Proof.
  pose proof (getMigrationStatus_consistent w I) as Hw.
  destruct (LocalStorageMigration.getMigrationStatus w) as [[status|e] w1];
    [|contradiction].
  now exists status.
Qed.

End StatusNeverRejects.

(** ** Once the provider is at version 2 *)

Section AlreadyMigrated.

Context {D : Type} `{LocalStorageProvider.Interface D}.

(** X3. When the provider reports a schema version of 2 or more,
    [isMigrationNeeded] answers [false] and leaves the world as it is: no
    validation, no open request, no write, whatever the legacy store
    holds. *)
Theorem isMigrationNeeded_done (w : World D) version :
  LocalStorageProvider.getSchemaVersion (localStorageProvider w) = Ok version ->
  (2 <= version)%Z ->
  LocalStorageMigration.isMigrationNeeded w = (Ok false, w).
Proof.
  intros Hv Hle. unfold LocalStorageMigration.isMigrationNeeded.
  apply try_ok_eq. unfold bind, reading. rewrite Hv.
  apply Z.leb_le in Hle. rewrite Hle. reflexivity.
Qed.

End AlreadyMigrated.

(** The provider is at version 2 and the legacy store holds two
    profiles. *)
Lemma isMigrationNeeded_done_witness :
  LocalStorageMigration.isMigrationNeeded Sample.already_migrated
  = (Ok false, Sample.already_migrated).
Proof.
  apply (isMigrationNeeded_done Sample.already_migrated 2%Z); [reflexivity|lia].
Defined.

(** ** A legacy database with a missing table *)

Lemma hasValidIndexedDBSchema_broken {D} (w : World D) :
  broken (indexedDB w) -> fst (hasValidIndexedDBSchema w) = Ok false.
Proof.
  unfold broken. intros Hb.
  unfold hasValidIndexedDBSchema, bind, gets, try_catch, open_request, ret.
  destruct (defined (indexedDB w)); simpl; [|reflexivity].
  destruct (next_fate (indexedDB w)) as [e|blocked [e|[|e|e]]]; simpl;
    try reflexivity; try (now destruct blocked).
  - unfold requiredStores in Hb. simpl in Hb. rewrite Hb. now destruct blocked.
  - unfold requiredStores in Hb. simpl in Hb. rewrite Hb. now destruct blocked.
Qed.

Section Broken.

Context {D : Type} `{LocalStorageProvider.Interface D}.
Variable h0 : list AdapterCall.
Variable stored : list string * list ProfileRecord.t * list ProviderConfig.t
                  * list MetaRecord.t.

Let never : exn -> World D -> Prop := fun _ _ => False.

(** A table is missing, no adapter call was made and the legacy store
    holds what it held. *)
Let Bk (w : World D) : Prop :=
  broken (indexedDB w) /\ history (indexedDB w) = h0 /\
  contents (indexedDB w) = stored.

Lemma Bk_provider d w : Bk w -> Bk (with_provider d w).
Proof. intros Hw. exact Hw. Qed.

Lemma Bk_console c w : Bk w -> Bk (with_console c w).
Proof. intros Hw. exact Hw. Qed.

Lemma revalidate_fst (w : World D) :
  fst (LocalStorageMigration.revalidate w) = fst (hasValidIndexedDBSchema w).
Proof.
  unfold LocalStorageMigration.revalidate, bind, modify, ret.
  now destruct (hasValidIndexedDBSchema w) as [[b|e] w1].
Qed.

Lemma Bk_steady w w' :
  steady w w' -> history (indexedDB w') = history (indexedDB w) -> Bk w -> Bk w'.
Proof.
  intros (_ & _ & _ & Hc) Hh (Hb & Hh0 & Hs). unfold Bk, broken in *.
  assert (Hn : objectStoreNames (indexedDB w') = objectStoreNames (indexedDB w))
    by (unfold contents in Hc; congruence).
  rewrite Hn. split; [exact Hb|]. split; congruence.
Qed.

Lemma revalidate_broken :
  triple Bk LocalStorageMigration.revalidate
         (fun schemaValid w => Bk w /\ schemaValid = false) never.
Proof.
  intros w Hw. pose proof Hw as (Hb & _).
  destruct (revalidate_effect w) as (Hs & Hh & _).
  pose proof (hasValidIndexedDBSchema_broken w Hb) as Hf.
  rewrite <- revalidate_fst in Hf.
  destruct (LocalStorageMigration.revalidate w) as [[b|e] w1]; simpl in *;
    [|discriminate].
  injection Hf as ->. split; [|reflexivity]. now apply (Bk_steady w).
Qed.

Lemma Bk_writing (f : D -> Res D) :
  triple Bk (writing f) (fun _ => Bk) (fun _ => Bk).
Proof.
  apply triple_writing. intros w Hw.
  destruct (f (localStorageProvider w)); exact Hw.
Qed.

Lemma isMigrationNeeded_broken :
  triple Bk LocalStorageMigration.isMigrationNeeded
         (fun needed w => Bk w /\ needed = false) never.
Proof.
  unfold LocalStorageMigration.isMigrationNeeded.
  apply triple_try with (E1 := fun _ => Bk).
  2:{ intros e.
      apply triple_bind with (Q1 := fun _ => Bk); [now apply triple_modify|].
      intros u.
      apply triple_bind with (Q1 := fun _ => Bk).
      - eapply triple_try; [apply Bk_writing|]. intros e'. now apply triple_ret.
      - intros u'. apply triple_ret. auto. }
  apply triple_bind with (Q1 := fun _ => Bk); [apply inv_reading|].
  intros currentVersion. apply triple_if; intros _; [apply triple_ret; auto|].
  apply triple_bind with (Q1 := fun schemaValid w => Bk w /\ schemaValid = false).
  { eapply triple_conseq; [apply revalidate_broken|auto|auto|]. intros e w []. }
  intros schemaValid. apply triple_pure. intros ->.
  apply triple_bind with (Q1 := fun _ => Bk); [now apply triple_gets|].
  intros present. apply triple_if; intros Hgate.
  - apply triple_bind with (Q1 := fun _ => Bk); [apply Bk_writing|].
    intros u. apply triple_ret. auto.
  - rewrite orb_true_r in Hgate. discriminate.
Qed.

Lemma Bk_count_items :
  triple Bk
    (LocalStorageMigration.count_items
       (reading LocalStorageProvider.getAllProfiles)
       (fun profile =>
          reading (LocalStorageProvider.getProviderConfigsByProfile
                     (ProfileRecord.id profile))))
    (fun _ => Bk) never.
Proof.
  eapply triple_conseq.
  - apply (triple_conj Bk (fun _ => True)).
    + apply inv_count_items; [apply inv_reading|intros p; apply inv_reading].
    + apply count_items_returns.
  - intros w Hw. split; [exact Hw|exact I].
  - intros a w [Hw _]. exact Hw.
  - intros e w [_ []].
Qed.

Lemma getMigrationStatus_broken :
  triple Bk LocalStorageMigration.getMigrationStatus
    (fun status w =>
       Bk w /\
       MigrationStatus.needsMigration status = false /\
       MigrationStatus.indexedDBAvailable status = false /\
       MigrationStatus.indexedDBItems status = 0)
    never.
Proof.
  unfold LocalStorageMigration.getMigrationStatus.
  apply triple_bind with (Q1 := fun _ => Bk); [now apply triple_gets|].
  intros localStorageAvailable.
  eapply triple_bind; [apply revalidate_broken|].
  intros schemaValid. apply triple_pure. intros ->.
  apply triple_bind with (Q1 := fun _ => Bk); [now apply triple_gets|].
  intros present. rewrite andb_false_r.
  apply triple_bind with (Q1 := fun available w => Bk w /\ available = false);
    [apply triple_ret; auto|].
  intros indexedDBAvailable. apply triple_pure. intros ->.
  eapply triple_bind; [apply isMigrationNeeded_broken|].
  intros needsMigration. apply triple_pure. intros ->.
  apply triple_bind with (Q1 := fun _ => Bk).
  { apply triple_if; intros _; [|now apply triple_ret].
    eapply triple_bind; [apply Bk_count_items|]. intros counted.
    destruct (snd counted); [|now apply triple_ret].
    apply triple_bind with (Q1 := fun _ => Bk); [now apply triple_modify|].
    intros u. now apply triple_ret. }
  intros localStorageItems. cbn [andb].
  apply triple_bind with (Q1 := fun items w => Bk w /\ items = 0);
    [apply triple_ret; auto|].
  intros indexedDBItems. apply triple_pure. intros ->.
  apply triple_ret. intros w Hw. simpl. auto.
Qed.

Lemma migrate_broken d0 :
  triple (fun w => Bk w /\ localStorageProvider w = d0)
    LocalStorageMigration.migrate
    (fun result w =>
       (Bk w /\ localStorageProvider w = d0) /\
       MigrationResult.success result = false /\
       MigrationResult.migratedItems result = 0)
    never.
Proof.
  unfold LocalStorageMigration.migrate.
  apply triple_bind with (Q1 := fun _ w => Bk w /\ localStorageProvider w = d0);
    [now apply triple_gets|].
  intros available. apply triple_if; intros _; [apply triple_ret; auto|].
  apply triple_bind
    with (Q1 := fun schemaValid w =>
                  (Bk w /\ localStorageProvider w = d0) /\ schemaValid = false).
  { eapply triple_conseq.
    - apply (triple_conj Bk (fun w => localStorageProvider w = d0)).
      + apply revalidate_broken.
      + apply inv_revalidate. intros w w' (_ & Hd & _) Hw. congruence.
    - auto.
    - intros b w [[Hw Hb] Hd]. auto.
    - intros e w [[] _]. }
  intros schemaValid. apply triple_pure. intros ->.
  apply triple_bind with (Q1 := fun _ w => Bk w /\ localStorageProvider w = d0);
    [now apply triple_gets|].
  intros present. rewrite orb_true_r. apply triple_ret. auto.
Qed.

Lemma clearIndexedDB_broken :
  triple Bk LocalStorageMigration.clearIndexedDB (fun _ => Bk) never.
Proof.
  unfold LocalStorageMigration.clearIndexedDB.
  eapply triple_bind; [apply revalidate_broken|].
  intros schemaValid. apply triple_pure. intros ->.
  apply triple_bind with (Q1 := fun _ => Bk); [now apply triple_gets|].
  intros present. rewrite orb_true_r. now apply triple_modify.
Qed.

Lemma exportIndexedDBData_broken now :
  triple Bk (LocalStorageMigration.exportIndexedDBData now)
         (fun _ _ => False) (fun e w => Bk w /\ e = export_refused).
Proof.
  unfold LocalStorageMigration.exportIndexedDBData.
  apply triple_bind with (Q1 := fun schemaValid w => Bk w /\ schemaValid = false).
  { eapply triple_conseq; [apply revalidate_broken|auto|auto|]. intros e w []. }
  intros schemaValid. apply triple_pure. intros ->.
  apply triple_bind with (Q1 := fun _ => Bk); [now apply triple_gets|].
  intros present. rewrite orb_true_r. apply triple_throw. auto.
Qed.

End Broken.

Section BrokenDatabase.

Context {D : Type} `{LocalStorageProvider.Interface D}.

(** X4. When a required table is missing from the legacy database,
    [migrate] returns a failure with zero items, whatever the open
    requests do: it calls no adapter operation and leaves the provider
    and the legacy store as they were. *)
Theorem migrate_skips_broken_database (w : World D) :
  broken (indexedDB w) ->
  exists result,
    fst (LocalStorageMigration.migrate w) = Ok result /\
    MigrationResult.success result = false /\
    MigrationResult.migratedItems result = 0 /\
    localStorageProvider (snd (LocalStorageMigration.migrate w))
    = localStorageProvider w /\
    history (indexedDB (snd (LocalStorageMigration.migrate w)))
    = history (indexedDB w) /\
    contents (indexedDB (snd (LocalStorageMigration.migrate w)))
    = contents (indexedDB w).
Proof.
  intros Hb.
  pose proof (migrate_broken (history (indexedDB w)) (contents (indexedDB w))
                (localStorageProvider w) w
                (conj (conj Hb (conj eq_refl eq_refl)) eq_refl)) as Hm.
  destruct (LocalStorageMigration.migrate w) as [[result|e] w1]; simpl in *;
    [|contradiction].
  exists result. tauto.
Qed.

(** X5. When a required table is missing from the legacy database,
    [getMigrationStatus] reports [needsMigration = false],
    [indexedDBAvailable = false] and [indexedDBItems = 0], and neither it
    nor the nested [isMigrationNeeded] calls an adapter operation: no
    transaction is ever started on the missing table. *)
Theorem getMigrationStatus_skips_broken_database (w : World D) :
  broken (indexedDB w) ->
  exists status,
    fst (LocalStorageMigration.getMigrationStatus w) = Ok status /\
    MigrationStatus.needsMigration status = false /\
    MigrationStatus.indexedDBAvailable status = false /\
    MigrationStatus.indexedDBItems status = 0 /\
    history (indexedDB (snd (LocalStorageMigration.getMigrationStatus w)))
    = history (indexedDB w).
Proof.
  intros Hb.
  pose proof (getMigrationStatus_broken (history (indexedDB w))
                (contents (indexedDB w)) w (conj Hb (conj eq_refl eq_refl))) as Hm.
  destruct (LocalStorageMigration.getMigrationStatus w) as [[status|e] w1];
    simpl in *; [|contradiction].
  exists status. tauto.
Qed.

(** X6. When a required table is missing from the legacy database,
    [clearIndexedDB] returns normally without calling an adapter
    operation and deletes nothing. *)
Theorem clearIndexedDB_skips_broken_database (w : World D) :
  broken (indexedDB w) ->
  fst (LocalStorageMigration.clearIndexedDB w) = Ok tt /\
  history (indexedDB (snd (LocalStorageMigration.clearIndexedDB w)))
  = history (indexedDB w) /\
  contents (indexedDB (snd (LocalStorageMigration.clearIndexedDB w)))
  = contents (indexedDB w).
Proof.
  intros Hb.
  pose proof (clearIndexedDB_broken (history (indexedDB w))
                (contents (indexedDB w)) w (conj Hb (conj eq_refl eq_refl))) as Hm.
  destruct (LocalStorageMigration.clearIndexedDB w) as [[[]|e] w1]; simpl in *;
    [|contradiction].
  tauto.
Qed.

(** X7. When a required table is missing from the legacy database,
    [exportIndexedDBData] does not degrade to an empty export: it throws
    the error "IndexedDB is not available or has invalid schema", having
    called no adapter operation. *)
Theorem exportIndexedDBData_refuses_broken_database (w : World D) now :
  broken (indexedDB w) ->
  fst (LocalStorageMigration.exportIndexedDBData now w) = Throw export_refused /\
  history (indexedDB (snd (LocalStorageMigration.exportIndexedDBData now w)))
  = history (indexedDB w).
Proof.
  intros Hb.
  pose proof (exportIndexedDBData_broken (history (indexedDB w))
                (contents (indexedDB w)) now w (conj Hb (conj eq_refl eq_refl)))
    as Hm.
  destruct (LocalStorageMigration.exportIndexedDBData now w) as [[doc|e] w1];
    simpl in *; [contradiction|].
  destruct Hm as [(_ & Hh & _) ->]. auto.
Qed.

End BrokenDatabase.

Lemma missing_table_is_broken : broken (indexedDB Sample.missing_table).
Proof. reflexivity. Qed.

Lemma migrate_skips_broken_database_witness :
  broken (indexedDB Sample.missing_table) /\
  exists result,
    fst (LocalStorageMigration.migrate Sample.missing_table) = Ok result /\
    MigrationResult.success result = false /\
    MigrationResult.migratedItems result = 0.
Proof.
  split; [exact missing_table_is_broken|].
  destruct (migrate_skips_broken_database Sample.missing_table
              missing_table_is_broken) as (result & Hr & Hs & Hn & _).
  exists result. auto.
Defined.

Lemma getMigrationStatus_skips_broken_database_witness :
  broken (indexedDB Sample.missing_table) /\
  exists status,
    fst (LocalStorageMigration.getMigrationStatus Sample.missing_table) = Ok status /\
    MigrationStatus.needsMigration status = false /\
    MigrationStatus.indexedDBItems status = 0.
Proof.
  split; [exact missing_table_is_broken|].
  destruct (getMigrationStatus_skips_broken_database Sample.missing_table
              missing_table_is_broken) as (status & Hr & Hn & _ & Hi & _).
  exists status. auto.
Defined.

Lemma clearIndexedDB_skips_broken_database_witness :
  broken (indexedDB Sample.missing_table) /\
  fst (LocalStorageMigration.clearIndexedDB Sample.missing_table) = Ok tt.
Proof.
  split; [exact missing_table_is_broken|].
  apply (clearIndexedDB_skips_broken_database Sample.missing_table
           missing_table_is_broken).
Defined.

Lemma exportIndexedDBData_refuses_broken_database_witness :
  broken (indexedDB Sample.missing_table) /\
  fst (LocalStorageMigration.exportIndexedDBData "2026-01-08T00:00:00.000Z"
         Sample.missing_table)
  = Throw export_refused.
Proof.
  split; [exact missing_table_is_broken|].
  apply (exportIndexedDBData_refuses_broken_database Sample.missing_table _
           missing_table_is_broken).
Defined.

(** ** A migration, write by write *)

Section LoopRule.

Context {D : Type}.

(** A loop with local variables whose invariant speaks of the elements
    already handled. *)
Lemma triple_forFold_done {A S} (I : list A -> S -> World D -> Prop)
    (f : S -> A -> M D S) l E :
  (forall done s x, In x l -> triple (I done s) (f s x) (I (done ++ [x])) E) ->
  forall done s, triple (I done s) (forFold f l s) (I (done ++ l)) E.
Proof.
  induction l as [|x l IH]; intros Hf done s; simpl.
  - apply triple_ret. intros w Hw. now rewrite app_nil_r.
  - apply triple_bind with (Q1 := I (done ++ [x])); [apply Hf; now left|].
    intros s'.
    specialize (IH (fun d s0 y Hy => Hf d s0 y (or_intror Hy)) (done ++ [x]) s').
    rewrite <- app_assoc in IH. exact IH.
Qed.

End LoopRule.

Lemma unmarked_app a b : unmarked a -> unmarked b -> unmarked (a ++ b).
Proof. unfold unmarked. intros Ha Hb. rewrite forallb_app, Ha, Hb. reflexivity. Qed.

Lemma unmarked_profiles l : unmarked (map Journal.SaveProfile l).
Proof. induction l; [reflexivity|assumption]. Qed.

Lemma unmarked_configs l : unmarked (map config_write l).
Proof. induction l; [reflexivity|assumption]. Qed.

Lemma unmarked_metadata l : forallb is_SetMetadata l = true -> unmarked l.
Proof.
  unfold unmarked. induction l as [|[] l IH]; simpl; try discriminate; auto.
Qed.

Section Transfer.

Context {D : Type} `{LocalStorageProvider.Interface D}.
Variable db0 : IndexedDB.
Variable before : list Journal.Call.

(** Past the guard of [migrate]: the schema flag is up, the legacy store
    is as at the start and the provider has accepted [written]. *)
Let G (written : list Journal.Call) (w : World (Journal.t D)) : Prop :=
  indexedDBSchemaValid w = true /\
  contents (indexedDB w) = contents db0 /\
  Journal.calls (localStorageProvider w) = before ++ written.

Let Failed (e : exn) (w : World (Journal.t D)) : Prop :=
  exists written, G written w /\ unmarked written.

Let never : exn -> World (Journal.t D) -> Prop := fun _ _ => False.

Lemma G_steady written w w' :
  steady w w' -> indexedDBSchemaValid w' = indexedDBSchemaValid w ->
  G written w -> G written w'.
Proof.
  intros (_ & Hd & _ & Hc) Hf (Hv & Hs & Hj). unfold G.
  rewrite Hf, Hc, Hd. auto.
Qed.

Lemma G_console written c :
  invariant (G written) (modify (with_console c)).
Proof. apply inv_modify. intros w Hw. exact Hw. Qed.

Lemma G_getAllProfiles written :
  triple (G written) ProviderDB.getAllProfiles
    (fun l w => G written w /\ l = profiles db0) (fun _ => G written).
Proof.
  intros w Hw. destruct (getAllProfiles_effect w) as (Hs & Hf & _ & Hv).
  destruct (ProviderDB.getAllProfiles w) as [[l|e] w1]; simpl in *.
  - split; [now apply (G_steady written w)|].
    rewrite (Hv l eq_refl). destruct Hw as (-> & Hc & _).
    unfold contents in Hc. congruence.
  - now apply (G_steady written w).
Qed.

Lemma G_getProviderConfigsByProfile written p :
  triple (G written) (ProviderDB.getProviderConfigsByProfile (ProfileRecord.id p))
    (fun l w => G written w /\ l = configs_of db0 p) (fun _ => G written).
Proof.
  intros w Hw.
  destruct (getProviderConfigsByProfile_effect w (ProfileRecord.id p))
    as (Hs & Hf & _ & Hv).
  destruct (ProviderDB.getProviderConfigsByProfile (ProfileRecord.id p) w)
    as [[l|e] w1]; simpl in *.
  - split; [now apply (G_steady written w)|].
    rewrite (Hv l eq_refl). destruct Hw as (-> & Hc & _).
    unfold contents in Hc. unfold configs_of. congruence.
  - now apply (G_steady written w).
Qed.

Lemma G_getMetadata written key :
  invariant (G written) (ProviderDB.getMetadata key).
Proof.
  intros w Hw. destruct (getMetadata_effect w key) as (Hs & Hf & _).
  destruct (ProviderDB.getMetadata key w) as [[v|e] w1]; simpl in *;
    now apply (G_steady written w).
Qed.

Lemma G_getSchemaVersion written :
  invariant (G written) ProviderDB.getSchemaVersion.
Proof.
  intros w Hw. destruct (getSchemaVersion_effect w) as (Hs & Hf & _).
  destruct (ProviderDB.getSchemaVersion w) as [[v|e] w1]; simpl in *;
    now apply (G_steady written w).
Qed.

(** An accepted write goes to the end of the journal; a refused one
    leaves no trace. *)
Lemma G_noting written call (f : D -> Res D) :
  triple (G written) (writing (Journal.noting call f))
    (fun _ => G (written ++ [call])) (fun _ => G written).
Proof.
  apply triple_writing. intros w (Hv & Hc & Hj). unfold Journal.noting.
  destruct (f (Journal.store (localStorageProvider w))) as [d|e].
  - repeat split; try assumption. simpl. rewrite Hj. now rewrite app_assoc.
  - repeat split; assumption.
Qed.

Lemma transfer_profiles written l n :
  unmarked written ->
  triple (G written) (LocalStorageMigration.migrate_profiles l n)
    (fun n' w => G (written ++ map Journal.SaveProfile l) w /\
                 n' = n + List.length l)
    Failed.
Proof.
  intros Hu. unfold LocalStorageMigration.migrate_profiles.
  eapply triple_conseq.
  - refine (triple_forFold_done
              (fun done s w => G (written ++ map Journal.SaveProfile done) w /\
                               s = n + List.length done)
              _ l Failed _ [] n).
    intros done s x _. apply triple_pure. intros ->.
    apply triple_bind
      with (Q1 := fun _ => G (written ++ map Journal.SaveProfile (done ++ [x]))).
    + eapply triple_conseq;
        [apply (G_noting (written ++ map Journal.SaveProfile done))|auto| |].
      * intros u w Hw. rewrite map_app, app_assoc. exact Hw.
      * intros e w Hw. eexists. split; [exact Hw|].
        apply unmarked_app; [exact Hu|apply unmarked_profiles].
    + intros u. apply triple_ret. intros w Hw. split; [exact Hw|].
      rewrite length_app. simpl. lia.
  - intros w Hw. simpl. rewrite app_nil_r. split; [exact Hw|lia].
  - intros n' w Hw. exact Hw.
  - auto.
Qed.

Lemma transfer_configs written l (c : nat * nat) :
  unmarked written ->
  triple (G written) (LocalStorageMigration.migrate_configs l c)
    (fun c' w =>
       G (written ++ map config_write (flat_map (configs_of db0) l)) w /\
       c' = (fst c + List.length (flat_map (configs_of db0) l),
             snd c + List.length (flat_map (configs_of db0) l)))
    Failed.
Proof.
  intros Hu. unfold LocalStorageMigration.migrate_configs.
  set (I := fun (done : list ProviderConfig.t) (s : nat * nat) w =>
              G (written ++ map config_write done) w /\
              s = (fst c + List.length done, snd c + List.length done)).
  assert (HF : forall done e w, G (written ++ map config_write done) w -> Failed e w).
  { intros done e w Hw. eexists. split; [exact Hw|].
    apply unmarked_app; [exact Hu|apply unmarked_configs]. }
  eapply triple_conseq.
  - refine (triple_forFold_done
              (fun done => I (flat_map (configs_of db0) done)) _ l Failed _ [] c).
    intros done s p _.
    apply triple_bind
      with (Q1 := fun configs w =>
                    I (flat_map (configs_of db0) done) s w /\
                    configs = configs_of db0 p).
    { intros w [Hw Hs]. pose proof (G_getProviderConfigsByProfile _ p w Hw) as Hg.
      destruct (ProviderDB.getProviderConfigsByProfile (ProfileRecord.id p) w)
        as [[configs|e] w1].
      - destruct Hg as [Hg ->]. split; [split; assumption|reflexivity].
      - now apply (HF (flat_map (configs_of db0) done)). }
    intros configs. apply triple_pure. intros ->.
    apply triple_bind with (Q1 := fun _ => I (flat_map (configs_of db0) done) s).
    { apply triple_modify. intros w Hw. exact Hw. }
    intros u. rewrite flat_map_app. simpl. rewrite app_nil_r.
    apply (triple_forFold_done I _ (configs_of db0 p) Failed).
    intros done' s' config _. unfold I at 1. apply triple_pure. intros ->.
    apply triple_bind
      with (Q1 := fun _ => G (written ++ map config_write (done' ++ [config]))).
    + eapply triple_conseq;
        [apply (G_noting (written ++ map config_write done'))|auto| |].
      * intros u' w Hw. rewrite map_app, app_assoc. exact Hw.
      * intros e w Hw. now apply (HF done').
    + intros u'. apply triple_ret. intros w Hw. split; [exact Hw|].
      simpl. rewrite length_app. simpl. f_equal; lia.
  - intros w Hw. unfold I. simpl. rewrite app_nil_r. split; [exact Hw|].
    destruct c. simpl. f_equal; lia.
  - intros c' w Hw. exact Hw.
  - auto.
Qed.

(** The metadata block never throws, and counts exactly the writes the
    provider accepted. *)
Lemma transfer_metadata written n :
  triple (G written) (LocalStorageMigration.migrate_metadata n)
    (fun n' w => exists meta,
                   G (written ++ meta) w /\
                   forallb is_SetMetadata meta = true /\
                   n' = n + List.length meta)
    never.
Proof.
  unfold LocalStorageMigration.migrate_metadata.
  assert (Hnone : forall w, G written w ->
            exists meta, G (written ++ meta) w /\
                         forallb is_SetMetadata meta = true /\
                         n = n + List.length meta).
  { intros w Hw. exists []. rewrite app_nil_r. simpl.
    split; [exact Hw|]. split; [reflexivity|lia]. }
  apply triple_try with (E1 := fun _ => G written).
  2:{ intros e. apply triple_bind with (Q1 := fun _ => G written).
      - apply triple_modify. intros w Hw. exact Hw.
      - intros u. apply triple_ret. exact Hnone. }
  apply triple_bind with (Q1 := fun _ => G written); [apply G_getMetadata|].
  intros activeProfileId.
  apply triple_bind
    with (Q1 := fun n1 w => exists meta,
                  G (written ++ meta) w /\
                  forallb is_SetMetadata meta = true /\
                  n1 = n + List.length meta).
  { apply triple_if; intros _.
    - apply triple_bind
        with (Q1 := fun _ => G (written ++ [Journal.SetMetadata "active_profile_id"
                                              activeProfileId])).
      + apply G_noting.
      + intros u. apply triple_ret. intros w Hw. eexists. split; [exact Hw|].
        split; [reflexivity|simpl; lia].
    - apply triple_ret. exact Hnone. }
  intros n1 w (meta & Hw & Hm & ->). revert w Hw.
  change (triple (G (written ++ meta))
            (try_catch
               (schemaVersion <- ProviderDB.getSchemaVersion ;;
                writing (LocalStorageProvider.setMetadata "schema_version"
                           schemaVersion) ;;
                ret (S (n + List.length meta)))
               (fun error =>
                  console_warn "Error migrating metadata:" (Some error) ;;
                  ret (n + List.length meta)))
            (fun n' w => exists meta0,
                G (written ++ meta0) w /\
                forallb is_SetMetadata meta0 = true /\
                n' = n + List.length meta0)
            (fun _ => G written)).
  assert (Hsame : forall w, G (written ++ meta) w ->
            exists meta0, G (written ++ meta0) w /\
                          forallb is_SetMetadata meta0 = true /\
                          n + List.length meta = n + List.length meta0).
  { intros w Hw. exists meta. auto. }
  apply triple_try with (E1 := fun _ => G (written ++ meta)).
  2:{ intros e. apply triple_bind with (Q1 := fun _ => G (written ++ meta)).
      - apply triple_modify. intros w Hw. exact Hw.
      - intros u. apply triple_ret. exact Hsame. }
  apply triple_bind with (Q1 := fun _ => G (written ++ meta));
    [apply G_getSchemaVersion|].
  intros schemaVersion.
  apply triple_bind
    with (Q1 := fun _ => G ((written ++ meta)
                            ++ [Journal.SetMetadata "schema_version" schemaVersion])).
  - apply G_noting.
  - intros u. apply triple_ret. intros w Hw.
    exists (meta ++ [Journal.SetMetadata "schema_version" schemaVersion]).
    rewrite app_assoc. split; [exact Hw|]. rewrite forallb_app, Hm, length_app.
    simpl. split; [reflexivity|lia].
Qed.

Let Start (w : World (Journal.t D)) : Prop :=
  contents (indexedDB w) = contents db0 /\
  Journal.calls (localStorageProvider w) = before.

(** What a run of [migrate] has done when it returns [result]. *)
Let Done (result : MigrationResult.t) (w : World (Journal.t D)) : Prop :=
  contents (indexedDB w) = contents db0 /\
  exists written,
    Journal.calls (localStorageProvider w) = before ++ written /\
    if MigrationResult.success result then
      exists meta,
        written = profile_writes db0 ++ config_writes db0 ++ meta
                  ++ [Journal.SetSchemaVersion 2] /\
        forallb is_SetMetadata meta = true /\
        MigrationResult.migratedItems result
        = List.length (profiles db0) + List.length (reachable_configs db0)
          + List.length meta
    else
      unmarked written /\ MigrationResult.migratedItems result = 0.

Lemma Done_failure message written w :
  contents (indexedDB w) = contents db0 ->
  Journal.calls (localStorageProvider w) = before ++ written ->
  unmarked written ->
  Done (MigrationResult.mk false message 0) w.
Proof.
  intros Hc Hj Hu. split; [exact Hc|]. exists written. simpl. auto.
Qed.

Lemma transfer_body :
  triple (G [])
    (console_log "Starting IndexedDB to localStorage migration..." ;;
     profiles <- ProviderDB.getAllProfiles ;;
     console_log
       (String.append "Found "
         (String.append (string_of_nat (List.length profiles)) " profiles to migrate")) ;;
     migratedItems <- LocalStorageMigration.migrate_profiles profiles 0 ;;
     allProfiles <- ProviderDB.getAllProfiles ;;
     counters <- LocalStorageMigration.migrate_configs allProfiles (migratedItems, 0) ;;
     migratedItems <- LocalStorageMigration.migrate_metadata (fst counters) ;;
     writing (LocalStorageProvider.setSchemaVersion 2) ;;
     console_log
       (String.append "Migration completed successfully. Migrated "
         (String.append (string_of_nat migratedItems) " items.")) ;;
     ret (MigrationResult.mk true
            (String.append "Successfully migrated "
              (String.append (string_of_nat (List.length profiles))
                (String.append " profiles and "
                  (String.append (string_of_nat (snd counters))
                                 " provider configurations"))))
            migratedItems))
    Done Failed.
Proof.
  assert (HF : forall written e w, unmarked written -> G written w -> Failed e w).
  { intros written e w Hu Hw. exists written. auto. }
  apply triple_bind with (Q1 := fun _ => G []).
  { apply triple_modify. intros w Hw. exact Hw. }
  intros u1.
  apply triple_bind with (Q1 := fun l w => G [] w /\ l = profiles db0).
  { eapply triple_conseq; [apply (G_getAllProfiles [])|auto|auto|].
    intros e w Hw. now apply (HF []). }
  intros profiles. apply triple_pure. intros ->.
  apply triple_bind with (Q1 := fun _ => G []).
  { apply triple_modify. intros w Hw. exact Hw. }
  intros u2.
  apply triple_bind
    with (Q1 := fun n w => G (profile_writes db0) w /\
                           n = List.length (profiles db0)).
  { eapply triple_conseq;
      [apply (transfer_profiles [] (profiles db0) 0); reflexivity|auto|auto|auto]. }
  intros migratedItems. apply triple_pure. intros ->.
  assert (Hp : unmarked (profile_writes db0)) by apply unmarked_profiles.
  apply triple_bind
    with (Q1 := fun l w => G (profile_writes db0) w /\ l = profiles db0).
  { eapply triple_conseq;
      [apply (G_getAllProfiles (profile_writes db0))|auto|auto|].
    intros e w Hw. now apply (HF (profile_writes db0)). }
  intros allProfiles. apply triple_pure. intros ->.
  apply triple_bind
    with (Q1 := fun c w =>
                  G (profile_writes db0 ++ config_writes db0) w /\
                  c = (List.length (profiles db0)
                       + List.length (reachable_configs db0),
                       List.length (reachable_configs db0))).
  { eapply triple_conseq;
      [apply (transfer_configs (profile_writes db0) (profiles db0)
                (List.length (profiles db0), 0) Hp)|auto|auto|auto]. }
  intros counters. apply triple_pure. intros ->. simpl fst. simpl snd.
  assert (Hc : unmarked (profile_writes db0 ++ config_writes db0))
    by (apply unmarked_app; [exact Hp|apply unmarked_configs]).
  apply triple_bind
    with (Q1 := fun n w =>
                  exists meta,
                    G ((profile_writes db0 ++ config_writes db0) ++ meta) w /\
                    forallb is_SetMetadata meta = true /\
                    n = List.length (profiles db0)
                        + List.length (reachable_configs db0)
                        + List.length meta).
  { eapply triple_conseq;
      [apply (transfer_metadata (profile_writes db0 ++ config_writes db0))
      |auto|auto|].
    intros e w []. }
  intros migratedItems w (meta & Hw & Hm & ->). revert w Hw.
  assert (Hall : unmarked ((profile_writes db0 ++ config_writes db0) ++ meta))
    by (apply unmarked_app; [exact Hc|now apply unmarked_metadata]).
  set (n := List.length (profiles db0) + List.length (reachable_configs db0)
            + List.length meta).
  set (message := String.append "Successfully migrated " _).
  change (triple (G ((profile_writes db0 ++ config_writes db0) ++ meta))
            (writing (LocalStorageProvider.setSchemaVersion 2) ;;
             console_log
               (String.append "Migration completed successfully. Migrated "
                 (String.append (string_of_nat n) " items.")) ;;
             ret (MigrationResult.mk true message n))
            Done Failed).
  apply triple_bind
    with (Q1 := fun _ => G (((profile_writes db0 ++ config_writes db0) ++ meta)
                            ++ [Journal.SetSchemaVersion 2])).
  { eapply triple_conseq;
      [apply (G_noting ((profile_writes db0 ++ config_writes db0) ++ meta))
      |auto|auto|].
    intros e w Hw. now apply (HF _ e w Hall). }
  intros u3.
  apply triple_bind
    with (Q1 := fun _ => G (((profile_writes db0 ++ config_writes db0) ++ meta)
                            ++ [Journal.SetSchemaVersion 2])).
  { apply triple_modify. intros w Hw. exact Hw. }
  intros u4. apply triple_ret. intros w (_ & Hs & Hj).
  split; [exact Hs|]. eexists. split; [exact Hj|]. simpl.
  exists meta. rewrite <- !app_assoc. auto.
Qed.

Lemma transfer_migrate :
  triple Start LocalStorageMigration.migrate Done never.
Proof.
  unfold LocalStorageMigration.migrate.
  assert (Hgate : forall message w, Start w ->
            Done (MigrationResult.mk false message 0) w).
  { intros message w [Hc Hj].
    apply (Done_failure message []); [exact Hc| |reflexivity].
    now rewrite app_nil_r. }
  apply triple_bind with (Q1 := fun _ => Start); [now apply triple_gets|].
  intros available. apply triple_if; intros _; [apply triple_ret; apply Hgate|].
  apply triple_bind
    with (Q1 := fun schemaValid w => Start w /\ indexedDBSchemaValid w = schemaValid).
  { intros w [Hc Hj].
    destruct (revalidate_effect w) as ((_ & Hd & _ & Hs) & _ & b & Hb & Hf).
    destruct (LocalStorageMigration.revalidate w) as [[b'|e] w1]; simpl in *;
      [|discriminate].
    inversion Hb; subst b'. unfold Start. rewrite Hs, Hd. auto. }
  intros schemaValid.
  apply triple_bind
    with (Q1 := fun _ w => Start w /\ indexedDBSchemaValid w = schemaValid);
    [now apply triple_gets|].
  intros present. apply triple_if; intros Hgo.
  { apply triple_ret. intros w [Hw _]. now apply Hgate. }
  apply orb_false_iff in Hgo. destruct Hgo as [_ Hv].
  apply negb_false_iff in Hv. subst schemaValid.
  apply triple_try with (E1 := Failed).
  - eapply triple_conseq; [apply transfer_body| |auto|auto].
    intros w [[Hc Hj] Hv]. repeat split; try assumption.
    now rewrite app_nil_r.
  - intros e. apply triple_bind with (Q1 := fun _ => Failed e).
    + apply triple_modify. intros w Hw. exact Hw.
    + intros u. apply triple_ret. intros w (written & (_ & Hc & Hj) & Hu).
      now apply (Done_failure _ written).
Qed.

End Transfer.

Section WriteByWrite.

Context {D : Type} `{LocalStorageProvider.Interface D}.

(** X8. A run of [migrate] that reports success has written, in this
    order and with nothing in between: every profile of the legacy
    store, the relay of every provider config of every profile, the
    metadata entries it copied, and last of all schema version 2; and
    [migratedItems] is the number of these writes without the last.
    This holds for every provider and whatever the open requests do. *)
Theorem migrate_success_writes_everything (w : World (Journal.t D)) result :
  fst (LocalStorageMigration.migrate w) = Ok result ->
  MigrationResult.success result = true ->
  exists meta,
    Journal.calls (localStorageProvider (snd (LocalStorageMigration.migrate w)))
    = Journal.calls (localStorageProvider w)
      ++ profile_writes (indexedDB w) ++ config_writes (indexedDB w)
      ++ meta ++ [Journal.SetSchemaVersion 2] /\
    forallb is_SetMetadata meta = true /\
    MigrationResult.migratedItems result
    = List.length (profiles (indexedDB w))
      + List.length (reachable_configs (indexedDB w)) + List.length meta.
Proof.
  intros Hr Hs.
  pose proof (transfer_migrate (indexedDB w) (Journal.calls (localStorageProvider w))
                w (conj eq_refl eq_refl)) as Hm.
  destruct (LocalStorageMigration.migrate w) as [[r|e] w1]; simpl in *;
    [|discriminate].
  inversion Hr; subst r.
  destruct Hm as (_ & written & Hj & Hw). rewrite Hs in Hw.
  destruct Hw as (meta & -> & Hmeta & Hn). exists meta. auto.
Qed.

(** X9. A run of [migrate] that reports a failure has not set the
    schema version of the provider: whatever it wrote before the failure
    stays, but none of these writes is [setSchemaVersion], so the
    migration is still seen as pending. *)
Theorem migrate_failure_never_marks (w : World (Journal.t D)) result :
  fst (LocalStorageMigration.migrate w) = Ok result ->
  MigrationResult.success result = false ->
  exists written,
    Journal.calls (localStorageProvider (snd (LocalStorageMigration.migrate w)))
    = Journal.calls (localStorageProvider w) ++ written /\
    unmarked written.
Proof.
  intros Hr Hs.
  pose proof (transfer_migrate (indexedDB w) (Journal.calls (localStorageProvider w))
                w (conj eq_refl eq_refl)) as Hm.
  destruct (LocalStorageMigration.migrate w) as [[r|e] w1]; simpl in *;
    [|discriminate].
  inversion Hr; subst r.
  destruct Hm as (_ & written & Hj & Hw). rewrite Hs in Hw.
  exists written. tauto.
Qed.

End WriteByWrite.

(** The scenario of two profiles and three configs, against a journaled
    provider: five writes, one metadata entry and the version. *)
Lemma migrate_success_writes_everything_witness :
  let w := Sample.two_profiles_journaled in
  let result := MigrationResult.mk true
                  "Successfully migrated 2 profiles and 3 provider configurations" 6 in
  fst (LocalStorageMigration.migrate w) = Ok result /\
  exists meta,
    Journal.calls (localStorageProvider (snd (LocalStorageMigration.migrate w)))
    = Journal.calls (localStorageProvider w)
      ++ profile_writes (indexedDB w) ++ config_writes (indexedDB w)
      ++ meta ++ [Journal.SetSchemaVersion 2] /\
    forallb is_SetMetadata meta = true.
Proof.
  intros w result.
  assert (Hr : fst (LocalStorageMigration.migrate w) = Ok result)
    by (vm_compute; reflexivity).
  split; [exact Hr|].
  destruct (migrate_success_writes_everything w result Hr eq_refl)
    as (meta & Hj & Hm & _).
  exists meta. auto.
Defined.

(** The interrupted run: both profiles written, no version set. *)
Lemma migrate_failure_never_marks_witness :
  let w := Sample.interrupted in
  let result := MigrationResult.mk false
                  "Migration failed: The transaction was aborted." 0 in
  fst (LocalStorageMigration.migrate w) = Ok result /\
  exists written,
    Journal.calls (localStorageProvider (snd (LocalStorageMigration.migrate w)))
    = Journal.calls (localStorageProvider w) ++ written /\
    unmarked written.
Proof.
  intros w result.
  assert (Hr : fst (LocalStorageMigration.migrate w) = Ok result)
    by (vm_compute; reflexivity).
  split; [exact Hr|].
  exact (migrate_failure_never_marks w result Hr eq_refl).
Defined.

(** ** What the engine leaves alone *)

Section Frame.

Context {D : Type} `{LocalStorageProvider.Interface D}.
Variable J : World D -> Prop.
Hypothesis J_revalidate : invariant J LocalStorageMigration.revalidate.
Hypothesis J_console : forall c, invariant J (modify (with_console c)).
Hypothesis J_getAllProfiles : invariant J ProviderDB.getAllProfiles.
Hypothesis J_getProviderConfigsByProfile :
  forall profileId, invariant J (ProviderDB.getProviderConfigsByProfile profileId).
Hypothesis J_getMetadata : forall key, invariant J (ProviderDB.getMetadata key).
Hypothesis J_getSchemaVersion : invariant J ProviderDB.getSchemaVersion.
Hypothesis J_writes : forall f : D -> Res D, invariant J (writing f).

Lemma frame_migrate_metadata n : invariant J (LocalStorageMigration.migrate_metadata n).
Proof.
  unfold LocalStorageMigration.migrate_metadata.
  apply inv_try.
  2:{ intros e. apply inv_bind; [apply J_console|].
      intros u. apply inv_ret. }
  apply inv_bind; [apply J_getMetadata|]. intros activeProfileId.
  apply inv_bind.
  { apply inv_if; [|apply inv_ret].
    apply inv_bind; [apply J_writes|]. intros u. apply inv_ret. }
  intros n1. apply inv_try.
  2:{ intros e. apply inv_bind; [apply J_console|].
      intros u. apply inv_ret. }
  apply inv_bind; [apply J_getSchemaVersion|]. intros schemaVersion.
  apply inv_bind; [apply J_writes|]. intros u. apply inv_ret.
Qed.

Lemma frame_migrate_profiles l n :
  invariant J (LocalStorageMigration.migrate_profiles l n).
Proof.
  apply inv_forFold. intros s p _.
  apply inv_bind; [apply J_writes|]. intros u. apply inv_ret.
Qed.

Lemma frame_migrate_configs l c :
  invariant J (LocalStorageMigration.migrate_configs l c).
Proof.
  apply inv_forFold. intros s p _.
  apply inv_bind; [apply J_getProviderConfigsByProfile|]. intros configs.
  apply inv_bind; [apply J_console|]. intros u.
  apply inv_forFold. intros s' config _.
  apply inv_bind; [apply J_writes|]. intros u'. apply inv_ret.
Qed.

Lemma frame_migrate : invariant J LocalStorageMigration.migrate.
Proof.
  unfold LocalStorageMigration.migrate.
  apply inv_bind; [apply inv_gets|]. intros available.
  apply inv_if; [apply inv_ret|].
  apply inv_bind; [apply J_revalidate|]. intros schemaValid.
  apply inv_bind; [apply inv_gets|]. intros present.
  apply inv_if; [apply inv_ret|].
  apply inv_try.
  2:{ intros e. apply inv_bind; [apply J_console|].
      intros u. apply inv_ret. }
  apply inv_bind; [apply J_console|]. intros u1.
  apply inv_bind; [apply J_getAllProfiles|]. intros profiles.
  apply inv_bind; [apply J_console|]. intros u2.
  apply inv_bind; [apply frame_migrate_profiles|]. intros migratedItems.
  apply inv_bind; [apply J_getAllProfiles|]. intros allProfiles.
  apply inv_bind; [apply frame_migrate_configs|]. intros counters.
  apply inv_bind; [apply frame_migrate_metadata|]. intros migratedItems'.
  apply inv_bind; [apply J_writes|]. intros u3.
  apply inv_bind; [apply J_console|]. intros u4.
  apply inv_ret.
Qed.

End Frame.

Section StableFrame.

Context {D : Type} `{LocalStorageProvider.Interface D}.
Variable J : World D -> Prop.
Hypothesis J_stable : stable J.
Hypothesis J_writes : forall f : D -> Res D, invariant J (writing f).

Lemma stable_frame_migrate : invariant J LocalStorageMigration.migrate.
Proof.
  apply frame_migrate; try assumption.
  - now apply inv_revalidate.
  - intros c. now apply inv_console.
  - now apply inv_getAllProfiles.
  - intros profileId. now apply inv_getProviderConfigsByProfile.
  - intros key. now apply inv_getMetadata.
  - now apply inv_getSchemaVersion.
Qed.

End StableFrame.

Section ReadOnly.

Context {D : Type} `{LocalStorageProvider.Interface D}.
Variable J : World D -> Prop.
Hypothesis J_stable : stable J.

Lemma frame_export_metadata : invariant J LocalStorageMigration.export_metadata.
Proof.
  unfold LocalStorageMigration.export_metadata.
  apply inv_try.
  2:{ intros e. apply inv_bind; [now apply inv_console_warn|].
      intros u. apply inv_ret. }
  apply inv_bind; [now apply inv_getMetadata|]. intros activeProfileId.
  apply inv_try.
  2:{ intros e. apply inv_bind; [now apply inv_console_warn|].
      intros u. apply inv_ret. }
  apply inv_bind; [now apply inv_getSchemaVersion|]. intros schemaVersion.
  apply inv_ret.
Qed.

Lemma frame_exportIndexedDBData now :
  invariant J (LocalStorageMigration.exportIndexedDBData now).
Proof.
  unfold LocalStorageMigration.exportIndexedDBData.
  apply inv_bind; [now apply inv_revalidate|]. intros schemaValid.
  apply inv_bind; [apply inv_gets|]. intros present.
  apply inv_if; [apply inv_throw|].
  apply inv_try; [|intros e; apply inv_throw].
  apply inv_bind; [now apply inv_getAllProfiles|]. intros profiles.
  apply inv_bind.
  { apply inv_forFold. intros s p _.
    apply inv_bind; [now apply inv_getProviderConfigsByProfile|]. intros configs.
    apply inv_ret. }
  intros providerConfigs.
  apply inv_bind; [apply frame_export_metadata|]. intros metadata.
  apply inv_ret.
Qed.

End ReadOnly.

Section CleanupFrame.

Context {D : Type} `{LocalStorageProvider.Interface D}.
Variable J : World D -> Prop.
Hypothesis J_stable : stable J.
Hypothesis J_deleteProviderConfig :
  forall id, invariant J (ProviderDB.deleteProviderConfig id).
Hypothesis J_deleteProfile :
  forall id, invariant J (ProviderDB.deleteProfile id).

Lemma frame_clearIndexedDB : invariant J LocalStorageMigration.clearIndexedDB.
Proof.
  unfold LocalStorageMigration.clearIndexedDB.
  apply inv_bind; [now apply inv_revalidate|]. intros schemaValid.
  apply inv_bind; [apply inv_gets|]. intros present.
  apply inv_if; [now apply inv_console_warn|].
  apply inv_try.
  2:{ intros e. apply inv_bind; [now apply inv_console_error|].
      intros u. apply inv_throw. }
  apply inv_bind; [now apply inv_console_log|]. intros u1.
  apply inv_bind; [now apply inv_getAllProfiles|]. intros profiles.
  apply inv_bind.
  { apply inv_forEach. intros p _.
    apply inv_bind; [now apply inv_getProviderConfigsByProfile|]. intros configs.
    apply inv_forEach. intros c _. apply J_deleteProviderConfig. }
  intros u2. apply inv_bind.
  { apply inv_forEach. intros p _.
    apply inv_if; [|apply inv_ret].
    apply inv_try; [apply J_deleteProfile|].
    intros e. now apply inv_console_warn. }
  intros u3. now apply inv_console_log.
Qed.

End CleanupFrame.

Section LeftAlone.

Context {D : Type} `{LocalStorageProvider.Interface D}.

Lemma contents_stable stored :
  stable (fun w : World D => contents (indexedDB w) = stored).
Proof. intros w w' (_ & _ & _ & Hc) Hw. congruence. Qed.

Lemma untouched_stable stored (d0 : D) :
  stable (fun w : World D =>
            contents (indexedDB w) = stored /\ localStorageProvider w = d0).
Proof. intros w w' (_ & Hd & _ & Hc) [Hw Hl]. split; congruence. Qed.

Lemma migrate_keeps_contents (w : World D) :
  contents (indexedDB (snd (LocalStorageMigration.migrate w)))
  = contents (indexedDB w).
Proof.
  apply (inv_after (fun w' : World D => contents (indexedDB w') = contents (indexedDB w))
           LocalStorageMigration.migrate w); [|reflexivity].
  apply stable_frame_migrate; [apply contents_stable|].
  intros f. apply triple_writing. intros w0 Hw0.
  destruct (f (localStorageProvider w0)); exact Hw0.
Qed.

(** X10. [migrate] never modifies the legacy store: whatever the
    provider and the open requests do, and whether the run succeeds or
    fails, the list of tables and the three tables of the legacy
    database hold afterwards what they held before. *)
Theorem migrate_leaves_legacy_store (w : World D) :
  objectStoreNames (indexedDB (snd (LocalStorageMigration.migrate w)))
  = objectStoreNames (indexedDB w) /\
  profiles (indexedDB (snd (LocalStorageMigration.migrate w)))
  = profiles (indexedDB w) /\
  provider_configs (indexedDB (snd (LocalStorageMigration.migrate w)))
  = provider_configs (indexedDB w) /\
  app_metadata (indexedDB (snd (LocalStorageMigration.migrate w)))
  = app_metadata (indexedDB w).
Proof.
  pose proof (migrate_keeps_contents w) as Hc. unfold contents in Hc.
  inversion Hc as [[E1 E2 E3 E4]]. auto.
Qed.

(** X11. [migrateAndCleanup] never throws, and when it reports a failure
    the legacy store is as it was: the cleanup only runs after a
    successful migration. *)
Theorem migrateAndCleanup_failure_leaves_legacy_store (w : World D) :
  exists result,
    fst (LocalStorageMigration.migrateAndCleanup w) = Ok result /\
    (CleanupResult.success result = false ->
     contents (indexedDB (snd (LocalStorageMigration.migrateAndCleanup w)))
     = contents (indexedDB w)).
Proof.
  pose proof (migrate_keeps_contents w) as Hc.
  pose proof (migrate_result w I) as Hm.
  unfold LocalStorageMigration.migrateAndCleanup, bind.
  destruct (LocalStorageMigration.migrate w) as [[r|e] w1]; simpl in *;
    [|contradiction].
  destruct (MigrationResult.success r) eqn:Hs; simpl.
  - unfold try_catch, ret.
    destruct (LocalStorageMigration.clearIndexedDB w1) as [[[]|e] w2]; simpl;
      eexists; (split; [reflexivity|discriminate]).
  - eexists. split; [reflexivity|]. intros _. exact Hc.
Qed.

(** X12. [exportIndexedDBData] only reads: whether it returns a document
    or throws, the legacy store and the provider are as they were. *)
Theorem exportIndexedDBData_read_only (w : World D) now :
  contents (indexedDB (snd (LocalStorageMigration.exportIndexedDBData now w)))
  = contents (indexedDB w) /\
  localStorageProvider (snd (LocalStorageMigration.exportIndexedDBData now w))
  = localStorageProvider w.
Proof.
  apply (inv_after
           (fun w' : World D =>
              contents (indexedDB w') = contents (indexedDB w) /\
              localStorageProvider w' = localStorageProvider w)
           (LocalStorageMigration.exportIndexedDBData now) w); [|auto].
  apply frame_exportIndexedDBData, untouched_stable.
Qed.

(** X13. [clearIndexedDB] only deletes profiles and provider configs:
    whatever its outcome, the provider, the list of tables and the
    metadata table are as they were, and every profile and provider
    config left in the legacy store was there before. *)
Theorem clearIndexedDB_only_deletes (w : World D) :
  let w' := snd (LocalStorageMigration.clearIndexedDB w) in
  localStorageProvider w' = localStorageProvider w /\
  objectStoreNames (indexedDB w') = objectStoreNames (indexedDB w) /\
  app_metadata (indexedDB w') = app_metadata (indexedDB w) /\
  incl (profiles (indexedDB w')) (profiles (indexedDB w)) /\
  incl (provider_configs (indexedDB w')) (provider_configs (indexedDB w)).
Proof.
  set (J := fun w' : World D =>
              localStorageProvider w' = localStorageProvider w /\
              objectStoreNames (indexedDB w') = objectStoreNames (indexedDB w) /\
              app_metadata (indexedDB w') = app_metadata (indexedDB w) /\
              incl (profiles (indexedDB w')) (profiles (indexedDB w)) /\
              incl (provider_configs (indexedDB w')) (provider_configs (indexedDB w))).
  apply (inv_after J LocalStorageMigration.clearIndexedDB w).
  2:{ unfold J. repeat split; auto using incl_refl. }
  apply frame_clearIndexedDB.
  - intros w1 w2 (_ & Hd & _ & Hc) (H1 & H2 & H3 & H4 & H5). unfold J.
    unfold contents in Hc. inversion Hc as [[E1 E2 E3 E4]].
    rewrite Hd, E1, E2, E3, E4. auto.
  - intros id w1 (H1 & H2 & H3 & H4 & H5).
    destruct (deleteProviderConfig_effect w1 id)
      as (_ & Hd & _ & _ & _ & Hn & Hp & Hm & _ & Hc).
    simpl in *.
    assert (HJ : J (snd (ProviderDB.deleteProviderConfig id w1))).
    { unfold J. rewrite Hd, Hn, Hp, Hm. repeat split; try assumption.
      destruct Hc as [-> | ->]; [assumption|].
      intros c Hin. apply filter_In in Hin. apply H5, Hin. }
    now destruct (ProviderDB.deleteProviderConfig id w1) as [[a|e] w2].
  - intros id w1 (H1 & H2 & H3 & H4 & H5).
    destruct (deleteProfile_effect w1 id)
      as (_ & Hd & _ & _ & _ & Hn & Hc & Hm & _ & Hp).
    simpl in *.
    assert (HJ : J (snd (ProviderDB.deleteProfile id w1))).
    { unfold J. rewrite Hd, Hn, Hc, Hm. repeat split; try assumption.
      destruct Hp as [-> | ->]; [assumption|].
      intros p Hin. apply filter_In in Hin. apply H4, Hin. }
    now destruct (ProviderDB.deleteProfile id w1) as [[a|e] w2].
Qed.

End LeftAlone.

(** ** A cleanup in which nothing fails *)

Lemma filter_twice {A} (f g : A -> bool) l :
  filter g (filter f l) = filter (fun x => f x && g x) l.
Proof.
  induction l as [|x l IH]; simpl; [reflexivity|].
  destruct (f x); simpl; [destruct (g x)|]; now rewrite IH.
Qed.

Lemma NoDup_map_filter {A B} (key : A -> B) (f : A -> bool) l :
  NoDup (map key l) -> NoDup (map key (filter f l)).
Proof.
  induction l as [|x l IH]; simpl; intros Hn; [constructor|].
  inversion Hn as [|? ? Hx Hl]; subst.
  destruct (f x); simpl; [|now apply IH].
  constructor; [|now apply IH].
  intros Hin. apply Hx. apply in_map_iff in Hin. destruct Hin as (y & Hy & Hf).
  apply filter_In in Hf. apply in_map_iff. exists y. tauto.
Qed.

(** In a list keyed by [key], looking for the key of [c] among the
    elements selected by [g] tells whether [g] selects [c]. *)
Lemma keyed_existsb {A} (key : A -> string) (g : A -> bool) l c :
  NoDup (map key l) -> In c l ->
  existsb (fun c' => key c =? key c') (filter g l) = g c.
Proof.
  intros Hn Hc. destruct (g c) eqn:Hg.
  - apply existsb_exists. exists c. split; [|apply String.eqb_refl].
    apply filter_In. auto.
  - destruct (existsb _ _) eqn:He; [|reflexivity].
    apply existsb_exists in He. destruct He as (c' & Hf & Hk).
    apply filter_In in Hf. destruct Hf as [Hin Hg'].
    apply String.eqb_eq in Hk.
    assert (c = c') by (eapply NoDup_map_eq; eauto). subst. congruence.
Qed.

Lemma filter_true_all {A} (l : list A) : filter (fun _ => true) l = l.
Proof. induction l as [|x l IH]; simpl; [reflexivity|now rewrite IH]. Qed.

Section CleanRun.

Context {D : Type} `{LocalStorageProvider.Interface D}.

Let never : exn -> World D -> Prop := fun _ _ => False.

(** The schema flag is up and the tables hold [ps] and [cs]. *)
Let Tables (ps : list ProfileRecord.t) (cs : list ProviderConfig.t) (w : World D) : Prop :=
  untroubled (indexedDB w) /\ ProviderDB w = true /\
  indexedDBSchemaValid w = true /\
  profiles (indexedDB w) = ps /\ provider_configs (indexedDB w) = cs.

Lemma untroubled_tables db :
  untroubled db ->
  includes (objectStoreNames db) "profiles" = true /\
  includes (objectStoreNames db) "provider_configs" = true /\
  includes (objectStoreNames db) "app_metadata" = true.
Proof.
  intros (_ & _ & Ht). unfold requiredStores in Ht. simpl in Ht.
  rewrite !andb_true_iff in Ht. tauto.
Qed.

Ltac clean_run w HS :=
  let Hd := fresh "Hd" in
  let Hf := fresh "Hf" in
  let Ht := fresh "Ht" in
  let Ha := fresh "Ha" in
  let Hv := fresh "Hv" in
  let Hp := fresh "Hp" in
  let Hc := fresh "Hc" in
  destruct HS as ((Hd & Hf & Ht) & Ha & Hv & Hp & Hc);
  destruct (untroubled_tables (indexedDB w) (conj Hd (conj Hf Ht))) as (? & ? & ?);
  unfold traced, transact, bind, gets, modify, open_request, handler_body,
    next_fate, fine, ret, throw; simpl;
  repeat match goal with
         | E : ?x = _ |- context [?x] => rewrite E; simpl
         end;
  unfold Tables, untroubled; simpl;
  repeat match goal with
         | E : ?x = _ |- context [?x] => rewrite E; simpl
         end.

Lemma clean_revalidate ps cs :
  triple (fun w => untroubled (indexedDB w) /\ ProviderDB w = true /\
                   profiles (indexedDB w) = ps /\
                   provider_configs (indexedDB w) = cs)
    LocalStorageMigration.revalidate
    (fun b w => Tables ps cs w /\ b = true) never.
Proof.
  intros w ((Hd & Hf & Ht) & Ha & Hp & Hc).
  unfold LocalStorageMigration.revalidate, hasValidIndexedDBSchema, bind, gets,
    try_catch, open_request, handler_body, modify, ret, next_fate, fine.
  rewrite Hd. simpl. rewrite Hf. simpl.
  pose proof Ht as Ht'. unfold requiredStores in Ht'. simpl in Ht'.
  rewrite Ht'. simpl.
  unfold Tables, untroubled. simpl. rewrite Hd, Hf. auto 10.
Qed.

Lemma clean_console ps cs c :
  triple (Tables ps cs) (modify (with_console c)) (fun _ => Tables ps cs) never.
Proof. apply triple_modify. intros w Hw. exact Hw. Qed.

Lemma clean_getAllProfiles ps cs :
  triple (Tables ps cs) ProviderDB.getAllProfiles
    (fun l w => Tables ps cs w /\ l = ps) never.
Proof.
  intros w HS. unfold ProviderDB.getAllProfiles. clean_run w HS. auto 10.
Qed.

Lemma clean_getProviderConfigsByProfile ps cs profileId :
  triple (Tables ps cs) (ProviderDB.getProviderConfigsByProfile profileId)
    (fun l w => Tables ps cs w /\
                l = filter (fun c => ProviderConfig.profileId c =? profileId) cs)
    never.
Proof.
  intros w HS. unfold ProviderDB.getProviderConfigsByProfile. clean_run w HS.
  auto 10.
Qed.

Lemma clean_deleteProviderConfig ps cs id :
  triple (Tables ps cs) (ProviderDB.deleteProviderConfig id)
    (fun _ => Tables ps (filter (fun c => negb (ProviderConfig.id c =? id)) cs)) never.
Proof.
  intros w HS. unfold ProviderDB.deleteProviderConfig. clean_run w HS. auto 10.
Qed.

Lemma clean_deleteProfile ps cs id :
  triple (Tables ps cs) (ProviderDB.deleteProfile id)
    (fun _ => Tables (filter (fun p => negb (ProfileRecord.id p =? id)) ps) cs) never.
Proof.
  intros w HS. unfold ProviderDB.deleteProfile. clean_run w HS. auto 10.
Qed.

Lemma clean_getMetadata ps cs key :
  triple (Tables ps cs) (ProviderDB.getMetadata key) (fun _ => Tables ps cs) never.
Proof.
  intros w HS. unfold ProviderDB.getMetadata. clean_run w HS. auto 10.
Qed.

Lemma clean_getSchemaVersion ps cs :
  triple (Tables ps cs) ProviderDB.getSchemaVersion (fun _ => Tables ps cs) never.
Proof.
  intros w HS. unfold ProviderDB.getSchemaVersion. clean_run w HS. auto 10.
Qed.

(** The configs left once the configs of the profiles [done] are
    deleted. *)
Let remaining (done : list ProfileRecord.t) (cs : list ProviderConfig.t) :=
  filter (fun c => negb (existsb (fun p => ProviderConfig.profileId c
                                           =? ProfileRecord.id p) done)) cs.

(** The profiles left once the profiles of [done] that are not the
    default are deleted. *)
Let surviving (done ps : list ProfileRecord.t) :=
  filter (fun p => negb (existsb (fun q => not_default q
                                           && (ProfileRecord.id p =? ProfileRecord.id q))
                                 done)) ps.

Lemma clean_delete_one ps cur p :
  NoDup (map ProviderConfig.id cur) ->
  triple (Tables ps cur)
    (configs <- ProviderDB.getProviderConfigsByProfile (ProfileRecord.id p) ;;
     forEach (fun config => ProviderDB.deleteProviderConfig (ProviderConfig.id config))
             configs)
    (fun _ => Tables ps (filter (fun c => negb (ProviderConfig.profileId c
                                                =? ProfileRecord.id p)) cur))
    never.
Proof.
  intros Hn.
  apply triple_bind
    with (Q1 := fun l w =>
                  Tables ps cur w /\
                  l = filter (fun c => ProviderConfig.profileId c =? ProfileRecord.id p)
                             cur);
    [apply clean_getProviderConfigsByProfile|].
  intros configs. apply triple_pure. intros ->.
  set (l := filter _ cur).
  set (I := fun (done : list ProviderConfig.t) =>
              Tables ps (filter (fun c => negb (existsb
                                   (fun c' => ProviderConfig.id c =? ProviderConfig.id c')
                                   done)) cur)).
  eapply triple_conseq.
  - refine (triple_forEach_done I _ l never _ []).
    intros done x. unfold I.
    eapply triple_conseq; [apply clean_deleteProviderConfig|intros w0 Hw0; exact Hw0| |auto].
    intros u w Hw. rewrite filter_twice in Hw.
    erewrite filter_ext; [exact Hw|].
    intros c. simpl. rewrite existsb_app. simpl.
    rewrite orb_false_r, negb_orb. reflexivity.
  - intros w Hw. unfold I. simpl. rewrite filter_true_all. exact Hw.
  - intros u w Hw. unfold I in Hw. simpl in Hw.
    erewrite filter_ext_in; [exact Hw|].
    intros c Hc. simpl. unfold l.
    now rewrite (keyed_existsb ProviderConfig.id _ cur c Hn Hc).
  - auto.
Qed.

Lemma clean_delete_configs ps cs l :
  NoDup (map ProviderConfig.id cs) ->
  triple (Tables ps cs) (LocalStorageMigration.delete_configs l)
    (fun _ => Tables ps (remaining l cs)) never.
Proof.
  intros Hn. unfold LocalStorageMigration.delete_configs.
  eapply triple_conseq.
  - refine (triple_forEach_done (fun done => Tables ps (remaining done cs)) _ l never _ []).
    intros done p.
    eapply triple_conseq;
      [apply (clean_delete_one ps (remaining done cs) p)|auto| |auto].
    + now apply NoDup_map_filter.
    + intros u w Hw. unfold remaining in *. rewrite filter_twice in Hw.
      erewrite filter_ext; [exact Hw|].
      intros c. simpl. rewrite existsb_app. simpl.
      rewrite orb_false_r, negb_orb. reflexivity.
  - intros w Hw. unfold remaining. simpl. rewrite filter_true_all. exact Hw.
  - intros u w Hw. exact Hw.
  - auto.
Qed.

Lemma clean_delete_profiles ps cs l :
  triple (Tables ps cs) (LocalStorageMigration.delete_profiles l)
    (fun _ => Tables (surviving l ps) cs) never.
Proof.
  unfold LocalStorageMigration.delete_profiles.
  eapply triple_conseq.
  - refine (triple_forEach_done (fun done => Tables (surviving done ps) cs) _ l never _ []).
    intros done q.
    assert (Hsame : forall b,
              filter (fun p => negb (existsb
                        (fun q0 => not_default q0
                                   && (ProfileRecord.id p =? ProfileRecord.id q0))
                        done)
                      && negb (b && (ProfileRecord.id p =? ProfileRecord.id q))) ps
              = filter (fun p => negb (existsb
                          (fun q0 => not_default q0
                                     && (ProfileRecord.id p =? ProfileRecord.id q0))
                          (done ++ [q]))) ps
              \/ b <> not_default q).
    { intros b. destruct (Bool.bool_dec b (not_default q)) as [->|Hb]; [left|now right].
      apply filter_ext. intros p. rewrite existsb_app. simpl.
      rewrite orb_false_r, negb_orb. reflexivity. }
    unfold not_default in Hsame at 3.
    destruct (ProfileRecord.isDefault q) eqn:Hq; simpl.
    + apply triple_ret. intros w Hw. unfold surviving.
      destruct (Hsame false) as [E|E]; [|now elim E].
      rewrite <- E. erewrite filter_ext; [exact Hw|].
      intros p. simpl. now rewrite andb_true_r.
    + apply triple_try with (E1 := never); [|intros e; apply triple_false].
      eapply triple_conseq; [apply clean_deleteProfile|intros w0 Hw0; exact Hw0| |auto].
      intros u w Hw. unfold surviving in *. rewrite filter_twice in Hw.
      destruct (Hsame true) as [E|E]; [|now elim E].
      rewrite <- E. exact Hw.
  - intros w Hw. unfold surviving. simpl. rewrite filter_true_all. exact Hw.
  - intros u w Hw. exact Hw.
  - auto.
Qed.

Lemma surviving_default ps :
  NoDup (map ProfileRecord.id ps) ->
  surviving ps ps = filter ProfileRecord.isDefault ps.
Proof.
  intros Hn. unfold surviving. apply filter_ext_in. intros p Hp.
  pose proof (keyed_existsb ProfileRecord.id not_default ps p Hn Hp) as Hk.
  assert (He : existsb (fun q => not_default q
                                 && (ProfileRecord.id p =? ProfileRecord.id q)) ps
               = existsb (fun q => ProfileRecord.id p =? ProfileRecord.id q)
                         (filter not_default ps)).
  { clear. induction ps as [|q ps IH]; simpl; [reflexivity|].
    destruct (not_default q); simpl; now rewrite IH. }
  rewrite He, Hk. unfold not_default. apply negb_involutive.
Qed.

Lemma clean_clearIndexedDB ps cs :
  NoDup (map ProfileRecord.id ps) ->
  NoDup (map ProviderConfig.id cs) ->
  triple (fun w => untroubled (indexedDB w) /\ ProviderDB w = true /\
                   profiles (indexedDB w) = ps /\
                   provider_configs (indexedDB w) = cs)
    LocalStorageMigration.clearIndexedDB
    (fun _ => Tables (filter ProfileRecord.isDefault ps) (remaining ps cs))
    never.
Proof.
  intros Hp Hc. unfold LocalStorageMigration.clearIndexedDB.
  apply triple_bind with (Q1 := fun b w => Tables ps cs w /\ b = true);
    [apply clean_revalidate|].
  intros schemaValid. apply triple_pure. intros ->.
  apply triple_bind with (Q1 := fun present w => Tables ps cs w /\ present = true).
  { apply triple_gets. intros w Hw. split; [exact Hw|]. apply Hw. }
  intros present. apply triple_pure. intros ->. simpl.
  apply triple_try with (E1 := never); [|intros e; apply triple_false].
  apply triple_bind with (Q1 := fun _ => Tables ps cs); [apply clean_console|].
  intros u1.
  apply triple_bind with (Q1 := fun l w => Tables ps cs w /\ l = ps);
    [apply clean_getAllProfiles|].
  intros profiles. apply triple_pure. intros ->.
  apply triple_bind with (Q1 := fun _ => Tables ps (remaining ps cs));
    [now apply clean_delete_configs|].
  intros u2.
  apply triple_bind
    with (Q1 := fun _ => Tables (filter ProfileRecord.isDefault ps) (remaining ps cs)).
  { rewrite <- (surviving_default ps Hp). apply clean_delete_profiles. }
  intros u3. apply clean_console.
Qed.

End CleanRun.

Section CleanCleanup.

Context {D : Type} `{LocalStorageProvider.Interface D}.

(** X14. When the legacy database has its three tables, the adapter is
    there and no request fails, [clearIndexedDB] returns normally and
    leaves in the legacy store exactly the default profiles and the
    provider configs that no listed profile owns (the tables being keyed
    by [id]): configs of a profile that is gone are never cleaned up. *)
Theorem clearIndexedDB_clean_run (w : World D) :
  untroubled (indexedDB w) ->
  ProviderDB w = true ->
  NoDup (map ProfileRecord.id (profiles (indexedDB w))) ->
  NoDup (map ProviderConfig.id (provider_configs (indexedDB w))) ->
  fst (LocalStorageMigration.clearIndexedDB w) = Ok tt /\
  profiles (indexedDB (snd (LocalStorageMigration.clearIndexedDB w)))
  = filter ProfileRecord.isDefault (profiles (indexedDB w)) /\
  provider_configs (indexedDB (snd (LocalStorageMigration.clearIndexedDB w)))
  = orphans (indexedDB w).
Proof.
  intros Hu Ha Hp Hc.
  pose proof (clean_clearIndexedDB _ _ Hp Hc w
                (conj Hu (conj Ha (conj eq_refl eq_refl)))) as Hm.
  destruct (LocalStorageMigration.clearIndexedDB w) as [[[]|e] w1]; simpl in *;
    [|contradiction].
  destruct Hm as (_ & _ & _ & Hps & Hcs). auto.
Qed.

End CleanCleanup.

(** Two profiles, their three configs and an orphan: the default
    profile and the orphan are what is left. *)
Lemma clearIndexedDB_clean_run_witness :
  let w := Sample.with_orphan in
  fst (LocalStorageMigration.clearIndexedDB w) = Ok tt /\
  profiles (indexedDB (snd (LocalStorageMigration.clearIndexedDB w))) = [Sample.work] /\
  provider_configs (indexedDB (snd (LocalStorageMigration.clearIndexedDB w)))
  = [Sample.c4].
Proof.
  intros w.
  assert (Hu : untroubled (indexedDB w)) by (repeat split).
  assert (Hp : NoDup (map ProfileRecord.id (profiles (indexedDB w)))).
  { simpl. repeat constructor; simpl; intuition discriminate. }
  assert (Hc : NoDup (map ProviderConfig.id (provider_configs (indexedDB w)))).
  { simpl. repeat constructor; simpl; intuition discriminate. }
  destruct (clearIndexedDB_clean_run w Hu eq_refl Hp Hc) as (Hr & Hps & Hcs).
  split; [exact Hr|]. split; [rewrite Hps|rewrite Hcs]; reflexivity.
Defined.

(** The scenario of two profiles: a migration is needed, and asking
    has written nothing. *)
Lemma isMigrationNeeded_true_means_data_witness :
  let w := Sample.two_profiles in
  fst (LocalStorageMigration.isMigrationNeeded w) = Ok true /\
  localStorageProvider (snd (LocalStorageMigration.isMigrationNeeded w))
  = localStorageProvider w /\
  profiles (indexedDB w) <> [].
Proof.
  intros w.
  assert (Hr : fst (LocalStorageMigration.isMigrationNeeded w) = Ok true)
    by (vm_compute; reflexivity).
  split; [exact Hr|].
  destruct (isMigrationNeeded_true_means_data w) as (needed & Hn & Hw).
  rewrite Hr in Hn. inversion Hn; subst needed.
  destruct (Hw eq_refl) as (Hd & _ & _ & Hp). auto.
Defined.

(** A legacy database with a missing table is reported as unavailable
    and empty. *)
Lemma getMigrationStatus_never_rejects_witness :
  let w := Sample.missing_table in
  exists status,
    fst (LocalStorageMigration.getMigrationStatus w) = Ok status /\
    MigrationStatus.indexedDBAvailable status = false /\
    MigrationStatus.indexedDBItems status = 0.
Proof.
  intros w.
  destruct (getMigrationStatus_never_rejects w) as (status & Hs & _ & Hi).
  assert (Ha : match fst (LocalStorageMigration.getMigrationStatus w) with
               | Ok s => MigrationStatus.indexedDBAvailable s = false
               | Throw _ => False
               end) by (vm_compute; reflexivity).
  rewrite Hs in Ha. exists status. auto.
Defined.

(** A migration that fails at the guard: the legacy store with its
    missing table is as it was. *)
Lemma migrateAndCleanup_failure_leaves_legacy_store_witness :
  let w := Sample.missing_table in
  exists result,
    fst (LocalStorageMigration.migrateAndCleanup w) = Ok result /\
    CleanupResult.success result = false /\
    contents (indexedDB (snd (LocalStorageMigration.migrateAndCleanup w)))
    = contents (indexedDB w).
Proof.
  intros w.
  destruct (migrateAndCleanup_failure_leaves_legacy_store w) as (result & Hr & Hc).
  assert (Hf : match fst (LocalStorageMigration.migrateAndCleanup w) with
               | Ok r => CleanupResult.success r = false
               | Throw _ => False
               end) by (vm_compute; reflexivity).
  rewrite Hr in Hf. exists result. auto.
Defined.

(** ** The legacy-store adapter *)

Lemma getProfile_effect {D} (w : World D) id :
  let m := ProviderDB.getProfile id in
  steady w (snd (m w)) /\
  indexedDBSchemaValid (snd (m w)) = indexedDBSchemaValid w /\
  forall r, fst (m w) = Ok r ->
            r = if indexedDBSchemaValid w then profile_of id (indexedDB w) else None.
Proof.
  unfold ProviderDB.getProfile, steady, profile_of. adapter_cases w;
    repeat split; try assumption; intros r E; inversion E; reflexivity.
Qed.

Lemma deleteProfile_resolved {D} (w : World D) id :
  let m := ProviderDB.deleteProfile id in
  fst (m w) = Ok tt ->
  indexedDBSchemaValid (snd (m w)) = indexedDBSchemaValid w /\
  (indexedDBSchemaValid w = true ->
   profiles (indexedDB (snd (m w)))
   = filter (fun p => negb (ProfileRecord.id p =? id)) (profiles (indexedDB w))).
Proof.
  unfold ProviderDB.deleteProfile. adapter_cases w; intros E;
    try discriminate E; split; try reflexivity; try assumption;
    intros; try reflexivity; discriminate.
Qed.

Lemma find_deleted {A} (key : A -> string) id l :
  find (fun x => key x =? id) (filter (fun x => negb (key x =? id)) l) = None.
Proof.
  induction l as [|x l IH]; simpl; [reflexivity|].
  destruct (key x =? id) eqn:E; simpl; [exact IH|]. now rewrite E.
Qed.

Lemma find_other {A} (key : A -> string) id id' l :
  id' <> id ->
  find (fun x => key x =? id') (filter (fun x => negb (key x =? id)) l)
  = find (fun x => key x =? id') l.
Proof.
  intros Hne. induction l as [|x l IH]; simpl; [reflexivity|].
  destruct (key x =? id) eqn:E; simpl.
  - apply String.eqb_eq in E. rewrite IH.
    destruct (key x =? id') eqn:E'; [|reflexivity].
    apply String.eqb_eq in E'. congruence.
  - now rewrite IH.
Qed.

(** X15. After a [deleteProfile(id)] that resolved, a [getProfile(id)]
    that resolves gives null, and with the schema flag up a
    [getProfile] of any other id gives what the table held for it
    before the deletion. *)
Theorem deleteProfile_then_getProfile {D} (w : World D) id id' r :
  fst (ProviderDB.deleteProfile id w) = Ok tt ->
  fst (ProviderDB.getProfile id' (snd (ProviderDB.deleteProfile id w))) = Ok r ->
  (id' = id -> r = None) /\
  (id' <> id -> indexedDBSchemaValid w = true ->
   r = profile_of id' (indexedDB w)).
Proof.
  intros Hd Hg.
  destruct (deleteProfile_resolved w id Hd) as [Hf Hp]. simpl in Hf, Hp.
  destruct (getProfile_effect (snd (ProviderDB.deleteProfile id w)) id')
    as (_ & _ & Hv).
  specialize (Hv r Hg). rewrite Hf in Hv. unfold profile_of in *.
  destruct (indexedDBSchemaValid w).
  - rewrite (Hp eq_refl) in Hv. split.
    + intros ->. rewrite Hv. apply find_deleted.
    + intros Hne _. rewrite Hv. now apply find_other.
  - split; [auto|discriminate].
Qed.

Lemma deleteProfile_then_getProfile_witness :
  let w := Sample.no_version in
  let w1 := snd (ProviderDB.deleteProfile "p-home" w) in
  fst (ProviderDB.getProfile "p-home" w1) = Ok None /\
  fst (ProviderDB.getProfile "p-work" w1) = Ok (Some Sample.work).
Proof.
  intros w w1.
  assert (Hd : fst (ProviderDB.deleteProfile "p-home" w) = Ok tt)
    by (vm_compute; reflexivity).
  assert (H1 : fst (ProviderDB.getProfile "p-home" w1) = Ok None)
    by (vm_compute; reflexivity).
  assert (H2 : fst (ProviderDB.getProfile "p-work" w1) = Ok (Some Sample.work))
    by (vm_compute; reflexivity).
  split; [exact H1|].
  destruct (deleteProfile_then_getProfile w "p-home" "p-work" _ Hd H2) as [_ Hr].
  rewrite (Hr ltac:(discriminate) eq_refl). reflexivity.
Defined.

(** X16. Every operation of the adapter that resolves has closed the
    connection it opened, and every one that rejects after the database
    was opened (a missing table, an exception in the handler, a failed
    store request) has left it open: [db.close()] is on the success path
    only. *)
Theorem adapter_closes_on_success_only {D} (w : World D) arg :
  closes_on_success_only ProviderDB.getAllProfiles w /\
  closes_on_success_only (ProviderDB.getProviderConfigsByProfile arg) w /\
  closes_on_success_only (ProviderDB.getMetadata arg) w /\
  closes_on_success_only ProviderDB.getSchemaVersion w /\
  closes_on_success_only (ProviderDB.deleteProviderConfig arg) w /\
  closes_on_success_only (ProviderDB.deleteProfile arg) w /\
  closes_on_success_only (ProviderDB.getProfile arg) w.
Proof.
  unfold closes_on_success_only.
  repeat split;
    [ unfold ProviderDB.getAllProfiles
    | unfold ProviderDB.getProviderConfigsByProfile
    | unfold ProviderDB.getMetadata
    | unfold ProviderDB.getSchemaVersion
    | unfold ProviderDB.deleteProviderConfig
    | unfold ProviderDB.deleteProfile
    | unfold ProviderDB.getProfile ];
    adapter_cases w; lia.
Qed.

(** ** The exported document *)

Lemma assign_keys {V} key (v : V) o k :
  In k (map fst (assign key v o)) <-> k = key \/ In k (map fst o).
Proof.
  induction o as [|[k0 v0] o IH]; simpl.
  - intuition.
  - destruct (k0 =? key) eqn:E; simpl.
    + apply String.eqb_eq in E. subst. intuition.
    + rewrite IH. intuition.
Qed.

Lemma assign_NoDup {V} key (v : V) o :
  NoDup (map fst o) -> NoDup (map fst (assign key v o)).
Proof.
  induction o as [|[k0 v0] o IH]; simpl; intros Hn.
  - constructor; [intros []|constructor].
  - inversion Hn as [|? ? Hk Ho]; subst.
    destruct (k0 =? key) eqn:E; simpl.
    + apply String.eqb_eq in E. subst. now constructor.
    + constructor; [|now apply IH].
      rewrite assign_keys. intros [->|Hin]; [|contradiction].
      now rewrite String.eqb_refl in E.
Qed.

Lemma assign_In {V} key (v : V) o k x :
  In (k, x) (assign key v o) -> (k, x) = (key, v) \/ In (k, x) o.
Proof.
  induction o as [|[k0 v0] o IH]; simpl.
  - intuition.
  - destruct (k0 =? key); simpl; intuition.
Qed.

Section Assignments.

Context {V : Type}.

Let put (o : list (string * V)) (kv : string * V) := assign (fst kv) (snd kv) o.

Lemma assignments_NoDup l o :
  NoDup (map fst o) -> NoDup (map fst (fold_left put l o)).
Proof.
  revert o. induction l as [|kv l IH]; simpl; intros o Hn; [exact Hn|].
  apply IH. now apply assign_NoDup.
Qed.

Lemma assignments_In l o k x :
  In (k, x) (fold_left put l o) -> In (k, x) l \/ In (k, x) o.
Proof.
  revert o. induction l as [|[k0 v0] l IH]; simpl; intros o Hin; [auto|].
  destruct (IH _ Hin) as [H1|H1]; [auto|].
  apply assign_In in H1. simpl in H1. intuition.
Qed.

Lemma assignments_keys l o k :
  In k (map fst l) \/ In k (map fst o) -> In k (map fst (fold_left put l o)).
Proof.
  revert o. induction l as [|[k0 v0] l IH]; simpl; intros o Hin.
  - tauto.
  - apply IH. unfold put at 1. rewrite assign_keys. simpl. intuition.
Qed.

End Assignments.

Section ExportRun.

Context {D : Type} `{LocalStorageProvider.Interface D}.
Variable db0 : IndexedDB.

(** Past the guard of [exportIndexedDBData]. *)
Let V (w : World D) : Prop :=
  indexedDBSchemaValid w = true /\ contents (indexedDB w) = contents db0.

(** The entries the loop of [exportIndexedDBData] assigns for the
    profiles [done], oldest first. *)
Let entries (done : list ProfileRecord.t) : list (string * ProviderConfig.t) :=
  flat_map (fun p => map (fun c => (LocalStorageMigration.export_key p c, c))
                         (configs_of db0 p)) done.

Let put (o : list (string * ProviderConfig.t)) (kv : string * ProviderConfig.t) :=
  assign (fst kv) (snd kv) o.

Lemma V_steady w w' :
  steady w w' -> indexedDBSchemaValid w' = indexedDBSchemaValid w -> V w -> V w'.
Proof.
  intros (_ & _ & _ & Hc) Hf (Hv & Hs). unfold V. rewrite Hf, Hc. auto.
Qed.

Lemma V_getAllProfiles :
  triple V ProviderDB.getAllProfiles
    (fun l w => V w /\ l = profiles db0) (fun _ _ => True).
Proof.
  intros w Hw. destruct (getAllProfiles_effect w) as (Hs & Hf & _ & Hv).
  destruct (ProviderDB.getAllProfiles w) as [[l|e] w1]; simpl in *; [|exact I].
  split; [now apply (V_steady w)|].
  rewrite (Hv l eq_refl). destruct Hw as (-> & Hc).
  unfold contents in Hc. congruence.
Qed.

Lemma V_getProviderConfigsByProfile p :
  triple V (ProviderDB.getProviderConfigsByProfile (ProfileRecord.id p))
    (fun l w => V w /\ l = configs_of db0 p) (fun _ _ => True).
Proof.
  intros w Hw.
  destruct (getProviderConfigsByProfile_effect w (ProfileRecord.id p))
    as (Hs & Hf & _ & Hv).
  destruct (ProviderDB.getProviderConfigsByProfile (ProfileRecord.id p) w)
    as [[l|e] w1]; simpl in *; [|exact I].
  split; [now apply (V_steady w)|].
  rewrite (Hv l eq_refl). destruct Hw as (-> & Hc).
  unfold contents in Hc. unfold configs_of. congruence.
Qed.

Lemma export_metadata_keys (P : World D -> Prop) :
  triple P LocalStorageMigration.export_metadata
    (fun metadata _ =>
       incl (map fst metadata) ["active_profile_id"; "schema_version"])
    (fun _ _ => False).
Proof.
  unfold LocalStorageMigration.export_metadata.
  apply triple_try with (E1 := fun _ _ => True).
  2:{ intros e. apply triple_bind with (Q1 := fun _ _ => True);
        [now apply triple_modify|].
      intros u. apply triple_ret. intros w _ k []. }
  apply triple_bind with (Q1 := fun _ _ => True).
  { apply triple_any. }
  intros activeProfileId.
  apply triple_try with (E1 := fun _ _ => True).
  2:{ intros e. apply triple_bind with (Q1 := fun _ _ => True);
        [now apply triple_modify|].
      intros u. apply triple_ret. intros w _ k. simpl. tauto. }
  apply triple_bind with (Q1 := fun _ _ => True).
  { apply triple_any. }
  intros schemaVersion. apply triple_ret. intros w _ k. simpl. tauto.
Qed.

Lemma export_loop l :
  triple V
    (forFold (fun providerConfigs profile =>
                configs <- ProviderDB.getProviderConfigsByProfile
                             (ProfileRecord.id profile) ;;
                ret (fold_left
                       (fun o config =>
                          assign (LocalStorageMigration.export_key profile config)
                                 config o)
                       configs providerConfigs))
             l [])
    (fun o w => V w /\ o = fold_left put (entries l) [])
    (fun _ _ => True).
Proof.
  eapply triple_conseq.
  - refine (triple_forFold_done
              (fun done o w => V w /\ o = fold_left put (entries done) [])
              _ l (fun _ _ => True) _ [] []).
    intros done o p _. apply triple_pure. intros ->.
    apply triple_bind with (Q1 := fun l0 w => V w /\ l0 = configs_of db0 p);
      [apply V_getProviderConfigsByProfile|].
    intros configs. apply triple_pure. intros ->.
    apply triple_ret. intros w Hw. split; [exact Hw|].
    unfold entries. rewrite flat_map_app, fold_left_app. simpl.
    rewrite app_nil_r.
    generalize (fold_left put
                  (flat_map
                     (fun p0 => map (fun c => (LocalStorageMigration.export_key p0 c, c))
                                    (configs_of db0 p0)) done) []).
    induction (configs_of db0 p) as [|c cs IH]; intros o; simpl; [reflexivity|].
    apply IH.
  - intros w Hw. split; [exact Hw|reflexivity].
  - intros o w Hw. exact Hw.
  - auto.
Qed.

(** What a returned document holds. *)
Let Exported (now : string) (doc : ExportDocument.t) : Prop :=
  ExportDocument.profiles doc = profiles db0 /\
  ExportDocument.exportedAt doc = now /\
  NoDup (map fst (ExportDocument.providers doc)) /\
  (forall k c, In (k, c) (ExportDocument.providers doc) ->
     exists p, In p (profiles db0) /\ In c (configs_of db0 p) /\
               k = LocalStorageMigration.export_key p c) /\
  (forall p c, In p (profiles db0) -> In c (configs_of db0 p) ->
     In (LocalStorageMigration.export_key p c)
        (map fst (ExportDocument.providers doc))) /\
  incl (map fst (ExportDocument.metadata doc))
       ["active_profile_id"; "schema_version"].

Lemma export_document now :
  triple (fun w : World D => contents (indexedDB w) = contents db0)
    (LocalStorageMigration.exportIndexedDBData now)
    (fun doc _ => Exported now doc)
    (fun e _ => e = export_refused \/ exists cause, e = export_failed cause).
Proof.
  unfold LocalStorageMigration.exportIndexedDBData.
  apply triple_bind
    with (Q1 := fun schemaValid w =>
                  contents (indexedDB w) = contents db0 /\
                  indexedDBSchemaValid w = schemaValid).
  { intros w Hc.
    destruct (revalidate_effect w) as ((_ & _ & _ & Hs) & _ & b & Hb & Hf).
    destruct (LocalStorageMigration.revalidate w) as [[b'|e] w1]; simpl in *;
      [|discriminate].
    inversion Hb; subst b'. split; congruence. }
  intros schemaValid.
  apply triple_bind
    with (Q1 := fun _ w => contents (indexedDB w) = contents db0 /\
                           indexedDBSchemaValid w = schemaValid);
    [now apply triple_gets|].
  intros present. apply triple_if; intros Hgo.
  { apply triple_throw. intros w _. now left. }
  apply orb_false_iff in Hgo. destruct Hgo as [_ Hv].
  apply negb_false_iff in Hv. subst schemaValid.
  apply triple_try with (E1 := fun _ _ => True).
  2:{ intros e. apply triple_throw. intros w _. right. now exists e. }
  apply triple_bind with (Q1 := fun l w => V w /\ l = profiles db0).
  { eapply triple_conseq; [apply V_getAllProfiles| |auto|auto].
    intros w [Hc Hv]. split; assumption. }
  intros stored. apply triple_pure. intros ->.
  apply triple_bind
    with (Q1 := fun o w => V w /\ o = fold_left put (entries (profiles db0)) []).
  { apply export_loop. }
  intros providerConfigs. apply triple_pure. intros ->. simpl.
  apply triple_bind
    with (Q1 := fun metadata _ =>
                  incl (map fst metadata) ["active_profile_id"; "schema_version"]).
  { eapply triple_conseq; [apply (export_metadata_keys V)|auto|auto|].
    intros e w []. }
  intros metadata. apply triple_ret. intros w Hm.
  unfold Exported. simpl. repeat split; try assumption.
  - apply assignments_NoDup. constructor.
  - intros k c Hin. apply assignments_In in Hin. destruct Hin as [Hin|[]].
    unfold entries in Hin. apply in_flat_map in Hin.
    destruct Hin as (p & Hp & Hin). apply in_map_iff in Hin.
    destruct Hin as (c' & Heq & Hc'). inversion Heq; subst. eauto.
  - intros p c Hp Hc. apply assignments_keys. left.
    apply in_map_iff. exists (LocalStorageMigration.export_key p c, c).
    split; [reflexivity|]. unfold entries. apply in_flat_map. exists p.
    split; [exact Hp|]. apply in_map_iff. eauto.
Qed.

End ExportRun.

Section ExportedDocument.

Context {D : Type} `{LocalStorageProvider.Interface D}.

(** X17. A document [exportIndexedDBData] returns holds the profiles of
    the legacy store and the time of the export; its [providers] object
    has one entry per key, every entry is a provider config of a listed
    profile under the key "profile id:provider id", and every such
    config has its key in the object (configs sharing a key share one
    entry); its [metadata] has no key besides [active_profile_id] and
    [schema_version].  When the call throws, the error is the one of the
    guard or "Failed to export IndexedDB data: " followed by the cause. *)
Theorem exportIndexedDBData_document (w : World D) now :
  match fst (LocalStorageMigration.exportIndexedDBData now w) with
  | Ok doc =>
      ExportDocument.profiles doc = profiles (indexedDB w) /\
      ExportDocument.exportedAt doc = now /\
      NoDup (map fst (ExportDocument.providers doc)) /\
      (forall k c, In (k, c) (ExportDocument.providers doc) ->
         exists p, In p (profiles (indexedDB w)) /\
                   In c (configs_of (indexedDB w) p) /\
                   k = LocalStorageMigration.export_key p c) /\
      (forall p c, In p (profiles (indexedDB w)) ->
         In c (configs_of (indexedDB w) p) ->
         In (LocalStorageMigration.export_key p c)
            (map fst (ExportDocument.providers doc))) /\
      incl (map fst (ExportDocument.metadata doc))
           ["active_profile_id"; "schema_version"]
  | Throw e => e = export_refused \/ exists cause, e = export_failed cause
  end.
Proof.
  pose proof (export_document (indexedDB w) now w eq_refl) as Hm.
  destruct (LocalStorageMigration.exportIndexedDBData now w) as [[doc|e] w1];
    exact Hm.
Qed.

End ExportedDocument.

(** ** The status of a legacy store in which nothing fails *)

Section CountingRule.

Context {D : Type}.

(** A counting loop whose body never throws counts as [g] does. *)
Lemma triple_forFoldTry_step {A S} (C : World D -> Prop) (f : S -> A -> M D S)
    (g : S -> A -> S) l :
  (forall s x, In x l ->
     triple C (f s x) (fun s' w => C w /\ s' = g s x) (fun _ _ => False)) ->
  forall s, triple C (forFoldTry f l s)
              (fun r w => C w /\ r = (fold_left g l s, None)) (fun _ _ => False).
Proof.
  induction l as [|x l IH]; intros Hf s w Hw; simpl.
  - auto.
  - assert (Hx := Hf s x (or_introl eq_refl) w Hw).
    destruct (f s x w) as [[s'|e] w1]; [|contradiction].
    destruct Hx as [Hw1 ->].
    apply IH; [|assumption]. intros s0 y Hy. apply Hf. now right.
Qed.

End CountingRule.

Lemma fold_left_add_length {A B} (f : A -> list B) l n :
  fold_left (fun items x => items + List.length (f x)) l n
  = n + List.length (flat_map f l).
Proof.
  revert n. induction l as [|x l IH]; intros n; simpl; [lia|].
  rewrite IH, length_app. lia.
Qed.

Section CleanStatus.

Context {D : Type} `{LocalStorageProvider.Interface D}.

Let never : exn -> World D -> Prop := fun _ _ => False.

Let Tables (ps : list ProfileRecord.t) (cs : list ProviderConfig.t) (w : World D) : Prop :=
  untroubled (indexedDB w) /\ ProviderDB w = true /\
  indexedDBSchemaValid w = true /\
  profiles (indexedDB w) = ps /\ provider_configs (indexedDB w) = cs.

Lemma Tables_reading {A} ps cs (f : D -> Res A) :
  invariant (Tables ps cs) (reading f).
Proof.
  apply triple_reading. intros w Hw. now destruct (f (localStorageProvider w)).
Qed.

Lemma Tables_writing ps cs (f : D -> Res D) :
  invariant (Tables ps cs) (writing f).
Proof.
  apply triple_writing. intros w Hw. now destruct (f (localStorageProvider w)).
Qed.

Lemma Tables_revalidate ps cs :
  triple (Tables ps cs) LocalStorageMigration.revalidate
    (fun b w => Tables ps cs w /\ b = true) (fun _ => Tables ps cs).
Proof.
  eapply triple_conseq; [apply (clean_revalidate ps cs)| |auto|].
  - intros w (Hu & Ha & _ & Hp & Hc). auto.
  - intros e w [].
Qed.

Lemma clean_isMigrationNeeded ps cs :
  triple (Tables ps cs) LocalStorageMigration.isMigrationNeeded
    (fun _ => Tables ps cs) never.
Proof.
  unfold LocalStorageMigration.isMigrationNeeded.
  apply triple_try with (E1 := fun _ => Tables ps cs).
  2:{ intros e.
      apply triple_bind with (Q1 := fun _ => Tables ps cs).
      { apply triple_modify. intros w Hw. exact Hw. }
      intros u.
      apply triple_bind with (Q1 := fun _ => Tables ps cs).
      { apply triple_try with (E1 := fun _ => Tables ps cs);
          [apply Tables_writing|].
        intros e'. now apply triple_ret. }
      intros u'. now apply triple_ret. }
  apply triple_bind with (Q1 := fun _ => Tables ps cs); [apply Tables_reading|].
  intros currentVersion. apply triple_if; intros _; [now apply triple_ret|].
  apply triple_bind with (Q1 := fun _ => Tables ps cs).
  { eapply triple_conseq; [apply (Tables_revalidate ps cs)|auto| |auto].
    intros b w [Hw _]. exact Hw. }
  intros schemaValid.
  apply triple_bind with (Q1 := fun _ => Tables ps cs); [now apply triple_gets|].
  intros present. apply triple_if; intros _.
  { apply triple_bind with (Q1 := fun _ => Tables ps cs); [apply Tables_writing|].
    intros u. now apply triple_ret. }
  apply triple_bind with (Q1 := fun _ => Tables ps cs).
  { eapply triple_conseq; [apply (clean_getAllProfiles ps cs)|auto| |].
    - intros l w [Hw _]. exact Hw.
    - intros e w []. }
  intros profiles. apply triple_if; intros _; [|now apply triple_ret].
  apply triple_bind with (Q1 := fun _ => Tables ps cs); [apply Tables_writing|].
  intros u. now apply triple_ret.
Qed.

Lemma clean_count_items ps cs :
  triple (Tables ps cs)
    (LocalStorageMigration.count_items ProviderDB.getAllProfiles
       (fun profile =>
          ProviderDB.getProviderConfigsByProfile (ProfileRecord.id profile)))
    (fun counted w =>
       Tables ps cs w /\
       counted = (List.length ps
                  + List.length
                      (flat_map
                         (fun p => filter (fun c => ProviderConfig.profileId c
                                                    =? ProfileRecord.id p) cs) ps),
                  None))
    never.
Proof.
  unfold LocalStorageMigration.count_items.
  apply triple_try with (E1 := never); [|intros e; apply triple_false].
  apply triple_bind with (Q1 := fun l w => Tables ps cs w /\ l = ps);
    [apply clean_getAllProfiles|].
  intros profiles. apply triple_pure. intros ->.
  eapply triple_conseq.
  - apply (triple_forFoldTry_step (Tables ps cs) _
             (fun items p =>
                items + List.length
                          (filter (fun c => ProviderConfig.profileId c
                                            =? ProfileRecord.id p) cs))).
    intros items p _.
    apply triple_bind
      with (Q1 := fun l w =>
                    Tables ps cs w /\
                    l = filter (fun c => ProviderConfig.profileId c
                                         =? ProfileRecord.id p) cs);
      [apply clean_getProviderConfigsByProfile|].
    intros configs. apply triple_pure. intros ->. apply triple_ret. auto.
  - auto.
  - intros counted w [Hw ->]. split; [exact Hw|].
    now rewrite fold_left_add_length.
  - auto.
Qed.

Lemma clean_getMigrationStatus ps cs :
  triple (fun w => untroubled (indexedDB w) /\ ProviderDB w = true /\
                   profiles (indexedDB w) = ps /\
                   provider_configs (indexedDB w) = cs)
    LocalStorageMigration.getMigrationStatus
    (fun status _ =>
       MigrationStatus.indexedDBAvailable status = true /\
       MigrationStatus.indexedDBItems status
       = List.length ps
         + List.length
             (flat_map
                (fun p => filter (fun c => ProviderConfig.profileId c
                                           =? ProfileRecord.id p) cs) ps))
    never.
Proof.
  unfold LocalStorageMigration.getMigrationStatus.
  apply triple_bind
    with (Q1 := fun _ w => untroubled (indexedDB w) /\ ProviderDB w = true /\
                           profiles (indexedDB w) = ps /\
                           provider_configs (indexedDB w) = cs);
    [now apply triple_gets|].
  intros localStorageAvailable.
  apply triple_bind with (Q1 := fun b w => Tables ps cs w /\ b = true);
    [apply clean_revalidate|].
  intros schemaValid. apply triple_pure. intros ->.
  apply triple_bind with (Q1 := fun present w => Tables ps cs w /\ present = true).
  { apply triple_gets. intros w Hw. split; [exact Hw|]. apply Hw. }
  intros present. apply triple_pure. intros ->. cbn [andb].
  apply triple_bind
    with (Q1 := fun available w => Tables ps cs w /\ available = true).
  { apply triple_gets. intros w Hw. split; [exact Hw|]. apply Hw. }
  intros indexedDBAvailable. apply triple_pure. intros ->. cbn [andb].
  apply triple_bind with (Q1 := fun _ => Tables ps cs);
    [apply clean_isMigrationNeeded|].
  intros needsMigration.
  apply triple_bind with (Q1 := fun _ => Tables ps cs).
  { apply triple_if; intros _; [|now apply triple_ret].
    apply triple_bind with (Q1 := fun _ => Tables ps cs).
    { eapply triple_conseq.
      - apply (triple_conj (Tables ps cs) (fun _ => True)).
        + apply inv_count_items; [apply Tables_reading|].
          intros p. apply Tables_reading.
        + apply count_items_returns.
      - intros w Hw. split; [exact Hw|exact I].
      - intros counted w [Hw _]. exact Hw.
      - intros e w [_ []]. }
    intros counted. destruct (snd counted).
    - apply triple_bind with (Q1 := fun _ => Tables ps cs).
      + apply triple_modify. intros w Hw. exact Hw.
      + intros u. now apply triple_ret.
    - now apply triple_ret. }
  intros localStorageItems.
  apply triple_bind
    with (Q1 := fun items w =>
                  items = List.length ps
                          + List.length
                              (flat_map
                                 (fun p => filter (fun c => ProviderConfig.profileId c
                                                            =? ProfileRecord.id p) cs)
                                 ps)).
  { apply triple_bind
      with (Q1 := fun counted w =>
                    Tables ps cs w /\
                    counted = (List.length ps
                               + List.length
                                   (flat_map
                                      (fun p => filter
                                                  (fun c => ProviderConfig.profileId c
                                                            =? ProfileRecord.id p) cs)
                                      ps), None));
      [apply clean_count_items|].
    intros counted. apply triple_pure. intros ->. simpl.
    apply triple_ret. auto. }
  intros indexedDBItems. apply triple_ret. intros w ->. simpl. auto.
Qed.

(** X18. When the legacy database has its three tables, the adapter is
    there and no request fails, [getMigrationStatus] reports the legacy
    store as available and counts its profiles plus the provider configs
    of each of them, whatever the provider does; a provider config that
    no listed profile owns is not counted. *)
Theorem getMigrationStatus_counts_legacy_items (w : World D) :
  untroubled (indexedDB w) ->
  ProviderDB w = true ->
  exists status,
    fst (LocalStorageMigration.getMigrationStatus w) = Ok status /\
    MigrationStatus.indexedDBAvailable status = true /\
    MigrationStatus.indexedDBItems status
    = List.length (profiles (indexedDB w))
      + List.length (reachable_configs (indexedDB w)).
Proof.
  intros Hu Ha.
  pose proof (clean_getMigrationStatus _ _ w
                (conj Hu (conj Ha (conj eq_refl eq_refl)))) as Hm.
  destruct (LocalStorageMigration.getMigrationStatus w) as [[status|e] w1];
    simpl in *; [|contradiction].
  exists status. split; [reflexivity|exact Hm].
Qed.

End CleanStatus.

(** Two profiles, their three configs and an orphan: five items. *)
Lemma getMigrationStatus_counts_legacy_items_witness :
  exists status,
    fst (LocalStorageMigration.getMigrationStatus Sample.with_orphan) = Ok status /\
    MigrationStatus.indexedDBAvailable status = true /\
    MigrationStatus.indexedDBItems status = 5.
Proof.
  assert (Hu : untroubled (indexedDB Sample.with_orphan)) by (repeat split).
  destruct (getMigrationStatus_counts_legacy_items Sample.with_orphan Hu eq_refl)
    as (status & Hs & Ha & Hi).
  exists status. auto.
Defined.

(** The scenario of two profiles: the export holds an entry for the
    config of the default profile. *)
Lemma exportIndexedDBData_document_witness :
  let w := Sample.two_profiles in
  exists doc,
    fst (LocalStorageMigration.exportIndexedDBData "2026-01-08T00:00:00.000Z" w)
    = Ok doc /\
    ExportDocument.profiles doc = [Sample.work; Sample.home] /\
    In "p-work:openai" (map fst (ExportDocument.providers doc)).
Proof.
  intros w.
  pose proof (exportIndexedDBData_document w "2026-01-08T00:00:00.000Z") as Hd.
  set (r := fst (LocalStorageMigration.exportIndexedDBData _ w)) in *.
  assert (Hr : exists doc, r = Ok doc) by (vm_compute; eexists; reflexivity).
  destruct Hr as [doc Hr]. rewrite Hr in Hd. exists doc.
  destruct Hd as (Hp & _ & _ & _ & Hk & _).
  split; [exact Hr|]. split; [exact Hp|].
  apply (Hk Sample.work Sample.c1); simpl; auto.
Defined.

(** ** The schema validator only probes *)

(** X19. [hasValidIndexedDBSchema] issues exactly one open request when
    [indexedDB] is defined and none otherwise; it never throws, and it
    changes neither the stored data, nor the history of adapter calls,
    nor the module's schema flag, which only its callers assign. *)
Theorem hasValidIndexedDBSchema_only_probes {D} (w : World D) :
  let w' := snd (hasValidIndexedDBSchema w) in
  (exists b, fst (hasValidIndexedDBSchema w) = Ok b) /\
  opens (indexedDB w')
  = opens (indexedDB w) + (if defined (indexedDB w) then 1 else 0) /\
  contents (indexedDB w') = contents (indexedDB w) /\
  history (indexedDB w') = history (indexedDB w) /\
  indexedDBSchemaValid w' = indexedDBSchemaValid w /\
  localStorageProvider w' = localStorageProvider w.
Proof.
  unfold hasValidIndexedDBSchema, bind, gets, try_catch, open_request, ret.
  destruct (defined (indexedDB w)) eqn:Hd; simpl.
  2:{ repeat split; try lia. now exists false. }
  destruct (next_fate (indexedDB w)) as [e|blocked [e|[|e|e]]]; simpl;
    repeat split; try lia; eexists; reflexivity.
Qed.

(** ** [fetchModels] *)

Lemma filter_all {A} (f : A -> bool) l : forallb f (filter f l) = true.
Proof.
  induction l as [|x l IH]; simpl; [reflexivity|].
  destruct (f x) eqn:E; simpl; [now rewrite E|exact IH].
Qed.

Lemma append_assoc (a b c : string) :
  String.append (String.append a b) c = String.append a (String.append b c).
Proof. induction a as [|x a IH]; simpl; [reflexivity|now rewrite IH]. Qed.

Lemma append_length (a b : string) :
  String.length (String.append a b) = String.length a + String.length b.
Proof. induction a as [|x a IH]; simpl; [reflexivity|now rewrite IH]. Qed.

Lemma substring_suffix (a b : string) :
  substring (String.length a) (String.length b) (String.append a b) = b.
Proof.
  induction a as [|x a IH]; simpl; [|exact IH].
  induction b as [|y b IHb]; simpl; [reflexivity|now rewrite IHb].
Qed.

Lemma endsWith_append (a b : string) : endsWith (String.append a b) b = true.
Proof.
  unfold endsWith. rewrite append_length.
  replace (String.length a + String.length b - String.length b)
    with (String.length a) by lia.
  rewrite substring_suffix, String.eqb_refl, andb_true_r.
  apply Nat.leb_le. lia.
Qed.

(** X20. Whatever the network does, [fetchModels] makes at most one
    request, never lists a falsy model id, lists no model at all when it
    reports a failure, and on success its message states the number of
    models listed. *)
Theorem fetchModels_result fetch baseUrl apiKey :
  let result := fst (FetchModels.fetchModels fetch baseUrl apiKey) in
  let requests := snd (FetchModels.fetchModels fetch baseUrl apiKey) in
  List.length requests <= 1 /\
  forallb truthy (FetchModels.models result) = true /\
  if FetchModels.success result then
    FetchModels.message result
    = String.append "Found "
        (String.append (string_of_nat (List.length (FetchModels.models result)))
                       " model(s)")
  else FetchModels.models result = [].
Proof.
  unfold FetchModels.fetchModels.
  destruct (baseUrl =? ""); simpl; [auto|].
  destruct (fetch _) as [response|e]; simpl; [|auto].
  destruct (FetchModels.ok response); simpl; [|auto].
  destruct (FetchModels.json response) as [[|[ids|]]|e]; simpl; auto.
  split; [lia|]. split; [apply filter_all|reflexivity].
Qed.

(** X21. A base URL with and without its trailing slash is the same to
    [fetchModels]: both runs make the same request, for the URL that
    ends in "/models", and so return the same result. *)
Theorem fetchModels_trailing_slash fetch baseUrl apiKey :
  baseUrl <> "" ->
  endsWith baseUrl "/" = false ->
  FetchModels.fetchModels fetch (String.append baseUrl "/") apiKey
  = FetchModels.fetchModels fetch baseUrl apiKey /\
  snd (FetchModels.fetchModels fetch baseUrl apiKey)
  = [FetchModels.mkRequest (String.append baseUrl "/models")
                           (String.append "Bearer " apiKey)].
Proof.
  intros Hne Hs. unfold FetchModels.fetchModels, FetchModels.models_url.
  rewrite (endsWith_append baseUrl "/"), Hs, append_assoc.
  assert (H1 : (baseUrl =? "") = false) by now apply String.eqb_neq.
  assert (H2 : (String.append baseUrl "/" =? "") = false).
  { apply String.eqb_neq. destruct baseUrl; discriminate. }
  rewrite H1, H2. simpl. auto.
Qed.

Lemma fetchModels_trailing_slash_witness :
  let fetch (_ : FetchModels.Request) :=
    Ok (FetchModels.mkResponse true 200 "OK"
          (Ok (FetchModels.BodyObject (Some [JString "gpt-4o"; JUndefined])))) in
  FetchModels.fetchModels fetch "https://api.example.com/v1/" "sk-1"
  = FetchModels.fetchModels fetch "https://api.example.com/v1" "sk-1" /\
  FetchModels.models
    (fst (FetchModels.fetchModels fetch "https://api.example.com/v1" "sk-1"))
  = [JString "gpt-4o"].
Proof.
  intros fetch. split; [|reflexivity].
  apply (fetchModels_trailing_slash fetch "https://api.example.com/v1" "sk-1");
    [discriminate|reflexivity].
Defined.

(** ** A healthy legacy store, from migration to cleanup *)

Section Healthy.

Context {D : Type} `{LocalStorageProvider.Interface D}.
Variable ps : list ProfileRecord.t.
Variable cs : list ProviderConfig.t.

Let never : exn -> World D -> Prop := fun _ _ => False.

(** The legacy store holds [ps] and [cs] and nothing is going to fail,
    whatever the schema flag says. *)
Let Healthy (w : World D) : Prop :=
  untroubled (indexedDB w) /\ ProviderDB w = true /\
  profiles (indexedDB w) = ps /\ provider_configs (indexedDB w) = cs.

(** An adapter read keeps a healthy store healthy: with the flag up it
    goes through, with the flag down it does not open the database. *)
Lemma Healthy_read {A} (m : M D A) (o : AdapterOp) (a : string) (skip : A)
    (run : M D A) :
  m = traced o a (valid <- gets indexedDBSchemaValid ;;
                  if negb valid then ret skip else run) ->
  triple (fun w => Healthy w /\ indexedDBSchemaValid w = true) m
         (fun _ => Healthy) never ->
  invariant Healthy m.
Proof.
  intros -> Hup w Hw. destruct (indexedDBSchemaValid w) eqn:Hv.
  - specialize (Hup w (conj Hw Hv)).
    match goal with
    | |- match ?r with _ => _ end => destruct r as [[x|e] w1]
    end; [exact Hup|contradiction].
  - unfold traced, bind, gets, ret. rewrite Hv. simpl. exact Hw.
Qed.

Lemma Healthy_getAllProfiles : invariant Healthy ProviderDB.getAllProfiles.
Proof.
  eapply Healthy_read; [reflexivity|].
  eapply triple_conseq; [apply (clean_getAllProfiles ps cs)| | |auto].
  - intros w ((Hu & Ha & Hp & Hc) & Hv). unfold Healthy; auto 10.
  - intros l w ((Hu & Ha & _ & Hp & Hc) & _). unfold Healthy; auto 10.
Qed.

Lemma Healthy_getProviderConfigsByProfile profileId :
  invariant Healthy (ProviderDB.getProviderConfigsByProfile profileId).
Proof.
  eapply Healthy_read; [reflexivity|].
  eapply triple_conseq;
    [apply (clean_getProviderConfigsByProfile ps cs profileId)| | |auto].
  - intros w ((Hu & Ha & Hp & Hc) & Hv). unfold Healthy; auto 10.
  - intros l w ((Hu & Ha & _ & Hp & Hc) & _). unfold Healthy; auto 10.
Qed.

Lemma Healthy_getMetadata key : invariant Healthy (ProviderDB.getMetadata key).
Proof.
  eapply Healthy_read; [reflexivity|].
  eapply triple_conseq; [apply (clean_getMetadata ps cs key)| | |auto].
  - intros w ((Hu & Ha & Hp & Hc) & Hv). unfold Healthy; auto 10.
  - intros l w (Hu & Ha & _ & Hp & Hc). unfold Healthy; auto 10.
Qed.

Lemma Healthy_getSchemaVersion : invariant Healthy ProviderDB.getSchemaVersion.
Proof.
  eapply Healthy_read; [reflexivity|].
  eapply triple_conseq; [apply (clean_getSchemaVersion ps cs)| | |auto].
  - intros w ((Hu & Ha & Hp & Hc) & Hv). unfold Healthy; auto 10.
  - intros l w (Hu & Ha & _ & Hp & Hc). unfold Healthy; auto 10.
Qed.

Lemma Healthy_revalidate : invariant Healthy LocalStorageMigration.revalidate.
Proof.
  eapply triple_conseq; [apply (clean_revalidate ps cs)|auto| |].
  - intros b w ((Hu & Ha & _ & Hp & Hc) & _). unfold Healthy; auto 10.
  - intros e w [].
Qed.

Lemma Healthy_migrate : invariant Healthy LocalStorageMigration.migrate.
Proof.
  apply frame_migrate.
  - apply Healthy_revalidate.
  - intros c. apply inv_modify. intros w Hw. exact Hw.
  - apply Healthy_getAllProfiles.
  - apply Healthy_getProviderConfigsByProfile.
  - apply Healthy_getMetadata.
  - apply Healthy_getSchemaVersion.
  - intros f. apply triple_writing. intros w Hw.
    now destruct (f (localStorageProvider w)).
Qed.

(** The cleanup ran and left the default profiles and the orphans. *)
Let Cleaned (result : CleanupResult.t) (w : World D) : Prop :=
  CleanupResult.success result = true ->
  (exists message,
     CleanupResult.message result
     = String.append message " IndexedDB has been cleaned up.") /\
  profiles (indexedDB w) = filter ProfileRecord.isDefault ps /\
  provider_configs (indexedDB w)
  = filter (fun c => negb (existsb (fun p => ProviderConfig.profileId c
                                             =? ProfileRecord.id p) ps)) cs.

Lemma Healthy_migrateAndCleanup :
  NoDup (map ProfileRecord.id ps) ->
  NoDup (map ProviderConfig.id cs) ->
  triple Healthy LocalStorageMigration.migrateAndCleanup Cleaned never.
Proof.
  intros Hp Hc. unfold LocalStorageMigration.migrateAndCleanup.
  apply triple_bind with (Q1 := fun _ => Healthy).
  { eapply triple_conseq.
    - apply (triple_conj Healthy (fun _ => True)
               LocalStorageMigration.migrate).
      + apply Healthy_migrate.
      + apply migrate_result.
    - intros w Hw. split; [exact Hw|exact I].
    - intros r w [Hw _]. exact Hw.
    - intros e w [_ []]. }
  intros migrationResult. apply triple_if; intros Hs.
  { apply triple_ret. intros w _ Hr. simpl in Hr.
    apply negb_true_iff in Hs. congruence. }
  apply triple_try with (E1 := never); [|intros e; apply triple_false].
  apply triple_bind
    with (Q1 := fun _ w =>
                  profiles (indexedDB w) = filter ProfileRecord.isDefault ps /\
                  provider_configs (indexedDB w)
                  = filter (fun c => negb (existsb
                                      (fun p => ProviderConfig.profileId c
                                                =? ProfileRecord.id p) ps)) cs).
  { eapply triple_conseq; [apply (clean_clearIndexedDB ps cs Hp Hc)|auto| |auto].
    intros u w (_ & _ & _ & H1 & H2). auto. }
  intros u. apply triple_ret. intros w Hw _. simpl.
  split; [eexists; reflexivity|exact Hw].
Qed.

(** With a pending version in the provider, the answer is whether the
    profiles table holds a profile. *)
Lemma Healthy_isMigrationNeeded d0 version :
  LocalStorageProvider.getSchemaVersion d0 = Ok version ->
  (version < 2)%Z ->
  triple (fun w => Healthy w /\ localStorageProvider w = d0)
    LocalStorageMigration.isMigrationNeeded
    (fun needed w =>
       needed = negb (Nat.eqb (List.length ps) 0) /\
       (needed = true -> localStorageProvider w = d0))
    never.
Proof.
  intros Hversion Hlt. unfold LocalStorageMigration.isMigrationNeeded.
  assert (Hstable : stable (fun w : World D => localStorageProvider w = d0)).
  { intros w w' (_ & Hd & _) Hw. congruence. }
  set (Up := fun w : World D =>
               (Healthy w /\ indexedDBSchemaValid w = true) /\
               localStorageProvider w = d0).
  apply triple_try with (E1 := fun _ _ => ps = []).
  2:{ intros e.
      apply triple_bind with (Q1 := fun _ _ => ps = []);
        [now apply triple_modify|].
      intros u.
      apply triple_bind with (Q1 := fun _ _ => ps = []).
      { apply triple_try with (E1 := fun _ _ => ps = []).
        - apply triple_writing. intros w Hw.
          now destruct (LocalStorageProvider.setSchemaVersion 2
                          (localStorageProvider w)).
        - intros e'. now apply triple_ret. }
      intros u'. apply triple_ret. intros w ->.
      split; [reflexivity|discriminate]. }
  apply triple_bind
    with (Q1 := fun v w => (Healthy w /\ localStorageProvider w = d0) /\ v = version).
  { apply triple_reading. intros w [Hw Hd]. rewrite Hd, Hversion. auto. }
  intros currentVersion. apply triple_pure. intros ->.
  assert (Hv : (2 <=? version)%Z = false) by (apply Z.leb_gt; exact Hlt).
  rewrite Hv.
  apply triple_bind with (Q1 := fun b w => Up w /\ b = true).
  { eapply triple_conseq.
    - apply (triple_conj Healthy (fun w => localStorageProvider w = d0)
               LocalStorageMigration.revalidate).
      + apply (clean_revalidate ps cs).
      + now apply inv_revalidate.
    - auto.
    - intros b w [[(Hu & Ha & Hf & Hp & Hc) Hb] Hd]. unfold Up, Healthy. auto 10.
    - intros e w [[] _]. }
  intros schemaValid. apply triple_pure. intros ->.
  apply triple_bind with (Q1 := fun present w => Up w /\ present = true).
  { apply triple_gets. intros w Hw. split; [exact Hw|]. apply Hw. }
  intros present. apply triple_pure. intros ->. simpl.
  apply triple_bind
    with (Q1 := fun l w => localStorageProvider w = d0 /\ l = ps).
  { eapply triple_conseq.
    - apply (triple_conj (fun w => Healthy w /\ indexedDBSchemaValid w = true)
               (fun w => localStorageProvider w = d0)
               ProviderDB.getAllProfiles).
      + eapply triple_conseq; [apply (clean_getAllProfiles ps cs)| | |].
        * intros w ((Hu & Ha & Hp & Hc) & Hf). unfold Healthy; auto 10.
        * intros l w Hw. exact Hw.
        * intros e w Hw. exact Hw.
      + now apply inv_getAllProfiles.
    - auto.
    - intros l w [[_ Hl] Hd]. auto.
    - intros e w [[] _]. }
  intros stored. apply triple_pure. intros ->.
  apply triple_if; intros Hn.
  - assert (Hnil : ps = []) by (destruct ps; [reflexivity|discriminate]).
    apply triple_bind with (Q1 := fun _ _ => True).
    + apply triple_writing. intros w _.
      now destruct (LocalStorageProvider.setSchemaVersion 2 (localStorageProvider w)).
    + intros u. apply triple_ret. intros w _. rewrite Hn.
      split; [reflexivity|discriminate].
  - apply triple_ret. intros w Hd. rewrite Hn. auto.
Qed.

End Healthy.

Section HealthyStore.

Context {D : Type} `{LocalStorageProvider.Interface D}.

(** X22. When the provider's version is below 2, the legacy database
    has its three tables, the adapter is there and no request fails,
    [isMigrationNeeded] answers whether the profiles table holds a
    profile; when it does, nothing was written to the provider. *)
Theorem isMigrationNeeded_pending (w : World D) version :
  untroubled (indexedDB w) ->
  ProviderDB w = true ->
  LocalStorageProvider.getSchemaVersion (localStorageProvider w) = Ok version ->
  (version < 2)%Z ->
  fst (LocalStorageMigration.isMigrationNeeded w)
  = Ok (negb (Nat.eqb (List.length (profiles (indexedDB w))) 0)) /\
  (profiles (indexedDB w) <> [] ->
   localStorageProvider (snd (LocalStorageMigration.isMigrationNeeded w))
   = localStorageProvider w).
Proof.
  intros Hu Ha Hversion Hlt.
  pose proof (Healthy_isMigrationNeeded _ _ _ version Hversion Hlt w
                (conj (conj Hu (conj Ha (conj eq_refl eq_refl))) eq_refl)) as Hm.
  destruct (LocalStorageMigration.isMigrationNeeded w) as [[needed|e] w1];
    simpl in *; [|contradiction].
  destruct Hm as [-> Hd]. split; [reflexivity|].
  intros Hne. apply Hd. destruct (profiles (indexedDB w)); [congruence|reflexivity].
Qed.

(** X23. When the legacy database has its three tables, keyed by [id],
    the adapter is there and no request fails, a [migrateAndCleanup]
    that reports success has run the cleanup to its end: its message
    ends in " IndexedDB has been cleaned up." and the legacy store is
    left with the default profiles and the provider configs that no
    listed profile owns. *)
Theorem migrateAndCleanup_clean_run (w : World D) :
  untroubled (indexedDB w) ->
  ProviderDB w = true ->
  NoDup (map ProfileRecord.id (profiles (indexedDB w))) ->
  NoDup (map ProviderConfig.id (provider_configs (indexedDB w))) ->
  exists result,
    fst (LocalStorageMigration.migrateAndCleanup w) = Ok result /\
    (CleanupResult.success result = true ->
     (exists message,
        CleanupResult.message result
        = String.append message " IndexedDB has been cleaned up.") /\
     profiles (indexedDB (snd (LocalStorageMigration.migrateAndCleanup w)))
     = filter ProfileRecord.isDefault (profiles (indexedDB w)) /\
     provider_configs (indexedDB (snd (LocalStorageMigration.migrateAndCleanup w)))
     = orphans (indexedDB w)).
Proof.
  intros Hu Ha Hp Hc.
  pose proof (Healthy_migrateAndCleanup _ _ Hp Hc w
                (conj Hu (conj Ha (conj eq_refl eq_refl)))) as Hm.
  destruct (LocalStorageMigration.migrateAndCleanup w) as [[result|e] w1];
    simpl in *; [|contradiction].
  exists result. split; [reflexivity|exact Hm].
Qed.

End HealthyStore.

(** The scenario of two profiles with a provider at version 0. *)
Lemma isMigrationNeeded_pending_witness :
  let w := Sample.two_profiles in
  fst (LocalStorageMigration.isMigrationNeeded w) = Ok true /\
  localStorageProvider (snd (LocalStorageMigration.isMigrationNeeded w))
  = localStorageProvider w.
Proof.
  intros w.
  assert (Hu : untroubled (indexedDB w)) by (repeat split).
  assert (Hv : LocalStorageProvider.getSchemaVersion (localStorageProvider w) = Ok 0%Z)
    by reflexivity.
  destruct (isMigrationNeeded_pending w 0%Z Hu eq_refl Hv ltac:(lia)) as [Hr Hd].
  split; [exact Hr|]. apply Hd. discriminate.
Defined.

(** Two profiles, their three configs and an orphan, migrated and
    cleaned up. *)
Lemma migrateAndCleanup_clean_run_witness :
  let w := Sample.with_orphan in
  exists result,
    fst (LocalStorageMigration.migrateAndCleanup w) = Ok result /\
    CleanupResult.success result = true /\
    profiles (indexedDB (snd (LocalStorageMigration.migrateAndCleanup w)))
    = [Sample.work] /\
    provider_configs (indexedDB (snd (LocalStorageMigration.migrateAndCleanup w)))
    = [Sample.c4].
Proof.
  intros w.
  assert (Hu : untroubled (indexedDB w)) by (repeat split).
  assert (Hp : NoDup (map ProfileRecord.id (profiles (indexedDB w)))).
  { simpl. repeat constructor; simpl; intuition discriminate. }
  assert (Hc : NoDup (map ProviderConfig.id (provider_configs (indexedDB w)))).
  { simpl. repeat constructor; simpl; intuition discriminate. }
  destruct (migrateAndCleanup_clean_run w Hu eq_refl Hp Hc) as (result & Hr & Hs).
  assert (Ht : match fst (LocalStorageMigration.migrateAndCleanup w) with
               | Ok r => CleanupResult.success r = true
               | Throw _ => False
               end) by (vm_compute; reflexivity).
  rewrite Hr in Ht. destruct (Hs Ht) as (_ & H1 & H2).
  exists result. split; [exact Hr|]. split; [exact Ht|].
  split; [rewrite H1|rewrite H2]; reflexivity.
Defined.

(** ** When [migrate] fails *)

Section Listings.

Context {D : Type} `{LocalStorageProvider.Interface D}.
Variable h0 : list AdapterCall.

(** The adapter calls made since the start, none of them a failed
    listing. *)
Let Quiet (w : World D) : Prop :=
  exists made,
    history (indexedDB w) = h0 ++ made /\ existsb failed_listing made = false.

Let Any (e : exn) (w : World D) : Prop :=
  exists made, history (indexedDB w) = h0 ++ made.

Let never : exn -> World D -> Prop := fun _ _ => False.

Lemma Quiet_Any e w : Quiet w -> Any e w.
Proof. intros (made & Hh & _). now exists made. Qed.

Lemma Quiet_call {A} (m : M D A) o a :
  (forall w, history (indexedDB (snd (m w)))
             = history (indexedDB w) ++ [entry o a (fst (m w))]) ->
  triple Quiet m (fun _ => Quiet) Any.
Proof.
  intros Hm w (made & Hh & Hq). specialize (Hm w).
  destruct (m w) as [[x|e] w1]; simpl in *.
  - exists (made ++ [mkCall o a None]). rewrite Hm, Hh, app_assoc.
    split; [reflexivity|]. rewrite existsb_app, Hq. simpl.
    unfold failed_listing. simpl. now destruct o.
  - eexists. rewrite Hm, Hh, app_assoc. reflexivity.
Qed.

Lemma Quiet_metadata_call {A} (m : M D A) o a :
  (o = GetMetadata \/ o = GetSchemaVersion) ->
  (forall w, history (indexedDB (snd (m w)))
             = history (indexedDB w) ++ [entry o a (fst (m w))]) ->
  invariant Quiet m.
Proof.
  intros Ho Hm w (made & Hh & Hq). specialize (Hm w).
  assert (HQ : Quiet (snd (m w))).
  { exists (made ++ [entry o a (fst (m w))]). rewrite Hm, Hh, app_assoc.
    split; [reflexivity|]. rewrite existsb_app, Hq. simpl.
    unfold failed_listing, entry. simpl.
    destruct Ho as [-> | ->]; now destruct (fst (m w)). }
  now destruct (m w) as [[x|e] w1].
Qed.

Lemma Quiet_console c : invariant Quiet (modify (with_console c)).
Proof. apply inv_modify. intros w Hw. exact Hw. Qed.

Lemma Quiet_writing (f : D -> Res D) : invariant Quiet (writing f).
Proof.
  apply triple_writing. intros w Hw. now destruct (f (localStorageProvider w)).
Qed.

Lemma Quiet_step {A} (m : M D A) :
  invariant Quiet m -> triple Quiet m (fun _ => Quiet) Any.
Proof.
  intros Hm. eapply triple_conseq; [exact Hm|auto|auto|].
  intros e w. apply Quiet_Any.
Qed.

Lemma Quiet_getAllProfiles :
  triple Quiet ProviderDB.getAllProfiles (fun _ => Quiet) Any.
Proof.
  apply (Quiet_call _ GetAllProfiles ""). intros w.
  apply (getAllProfiles_effect w).
Qed.

Lemma Quiet_getProviderConfigsByProfile profileId :
  triple Quiet (ProviderDB.getProviderConfigsByProfile profileId)
    (fun _ => Quiet) Any.
Proof.
  apply (Quiet_call _ GetProviderConfigsByProfile profileId). intros w.
  apply (getProviderConfigsByProfile_effect w profileId).
Qed.

Lemma Quiet_migrate_metadata n :
  invariant Quiet (LocalStorageMigration.migrate_metadata n).
Proof.
  apply frame_migrate_metadata.
  - apply Quiet_console.
  - intros key. apply (Quiet_metadata_call _ GetMetadata key); [now left|].
    intros w. apply (getMetadata_effect w key).
  - apply (Quiet_metadata_call _ GetSchemaVersion ""); [now right|].
    intros w. apply (getSchemaVersion_effect w).
  - apply Quiet_writing.
Qed.

(** A run that reports success has made no listing that failed. *)
Lemma migrate_listings :
  triple (fun w => history (indexedDB w) = h0) LocalStorageMigration.migrate
    (fun result w =>
       exists made,
         history (indexedDB w) = h0 ++ made /\
         (existsb failed_listing made = true ->
          MigrationResult.success result = false))
    never.
Proof.
  unfold LocalStorageMigration.migrate.
  assert (Hfail : forall message (w : World D),
            (exists made, history (indexedDB w) = h0 ++ made) ->
            exists made,
              history (indexedDB w) = h0 ++ made /\
              (existsb failed_listing made = true ->
               MigrationResult.success (MigrationResult.mk false message 0) = false)).
  { intros message w (made & Hh). exists made. auto. }
  assert (Hstart : forall w : World D,
            history (indexedDB w) = h0 -> exists made, history (indexedDB w) = h0 ++ made).
  { intros w Hw. exists []. now rewrite app_nil_r. }
  apply triple_bind with (Q1 := fun _ w => history (indexedDB w) = h0);
    [now apply triple_gets|].
  intros available. apply triple_if; intros _.
  { apply triple_ret. intros w Hw. now apply Hfail, Hstart. }
  apply triple_bind with (Q1 := fun _ w => history (indexedDB w) = h0).
  { intros w Hw. destruct (revalidate_effect w) as (_ & Hh & b & Hb & _).
    destruct (LocalStorageMigration.revalidate w) as [[b'|e] w1]; simpl in *;
      [congruence|discriminate]. }
  intros schemaValid.
  apply triple_bind with (Q1 := fun _ w => history (indexedDB w) = h0);
    [now apply triple_gets|].
  intros present. apply triple_if; intros _.
  { apply triple_ret. intros w Hw. now apply Hfail, Hstart. }
  apply triple_try with (E1 := Any).
  2:{ intros e. apply triple_bind with (Q1 := fun _ => Any e).
      - apply triple_modify. intros w Hw. exact Hw.
      - intros u. apply triple_ret. intros w Hw. now apply Hfail. }
  eapply triple_conseq with (P := Quiet) (Q := fun _ => Quiet) (E := Any).
  2:{ intros w Hw. exists []. now rewrite app_nil_r. }
  3:{ auto. }
  2:{ intros result w (made & Hh & Hq). exists made. split; [exact Hh|].
      rewrite Hq. discriminate. }
  apply triple_bind with (Q1 := fun _ => Quiet); [apply Quiet_step, Quiet_console|].
  intros u1.
  apply triple_bind with (Q1 := fun _ => Quiet); [apply Quiet_getAllProfiles|].
  intros profiles.
  apply triple_bind with (Q1 := fun _ => Quiet); [apply Quiet_step, Quiet_console|].
  intros u2.
  apply triple_bind with (Q1 := fun _ => Quiet).
  { apply (triple_forFold (fun _ => Quiet)). intros s p _.
    apply triple_bind with (Q1 := fun _ => Quiet); [apply Quiet_step, Quiet_writing|].
    intros u. now apply triple_ret. }
  intros migratedItems.
  apply triple_bind with (Q1 := fun _ => Quiet); [apply Quiet_getAllProfiles|].
  intros allProfiles.
  apply triple_bind with (Q1 := fun _ => Quiet).
  { apply (triple_forFold (fun _ => Quiet)). intros s p _.
    apply triple_bind with (Q1 := fun _ => Quiet);
      [apply Quiet_getProviderConfigsByProfile|].
    intros configs.
    apply triple_bind with (Q1 := fun _ => Quiet); [apply Quiet_step, Quiet_console|].
    intros u.
    apply (triple_forFold (fun _ => Quiet)). intros s' config _.
    apply triple_bind with (Q1 := fun _ => Quiet); [apply Quiet_step, Quiet_writing|].
    intros u'. now apply triple_ret. }
  intros counters.
  apply triple_bind with (Q1 := fun _ => Quiet);
    [apply Quiet_step, Quiet_migrate_metadata|].
  intros migratedItems'.
  apply triple_bind with (Q1 := fun _ => Quiet); [apply Quiet_step, Quiet_writing|].
  intros u3.
  apply triple_bind with (Q1 := fun _ => Quiet); [apply Quiet_step, Quiet_console|].
  intros u4. now apply triple_ret.
Qed.

End Listings.

Section FailedMigration.

Context {D : Type} `{LocalStorageProvider.Interface D}.

(** C2, as amended. Run against any provider behind a journal of the
    writes it accepts, [migrate] always returns a result.  The result
    has [success = false] whenever a listing of the legacy profiles or
    of the provider configs of a profile failed during the run, and
    whenever the provider has not accepted, during the run, one of the
    writes a complete migration makes (a legacy profile, the relay of a
    provider config of a legacy profile, schema version 2).  And every
    result with [success = false] has [migratedItems = 0], whatever was
    written before the failure. *)
Theorem migrate_failure_reports_zero (w : World (Journal.t D)) :
  exists result made written,
    fst (LocalStorageMigration.migrate w) = Ok result /\
    history (indexedDB (snd (LocalStorageMigration.migrate w)))
    = history (indexedDB w) ++ made /\
    Journal.calls (localStorageProvider (snd (LocalStorageMigration.migrate w)))
    = Journal.calls (localStorageProvider w) ++ written /\
    (existsb failed_listing made = true ->
     MigrationResult.success result = false) /\
    (forall call, In call (owed_writes (indexedDB w)) -> ~ In call written ->
     MigrationResult.success result = false) /\
    (MigrationResult.success result = false ->
     MigrationResult.migratedItems result = 0).
Proof.
  pose proof (migrate_listings (history (indexedDB w)) w eq_refl) as Hl.
  pose proof (transfer_migrate (indexedDB w) (Journal.calls (localStorageProvider w))
                w (conj eq_refl eq_refl)) as Hm.
  destruct (LocalStorageMigration.migrate w) as [[result|e] w1]; simpl in *;
    [|contradiction].
  destruct Hl as (made & Hh & Hlist).
  destruct Hm as (_ & written & Hj & Hw).
  exists result, made, written.
  split; [reflexivity|]. split; [exact Hh|]. split; [exact Hj|].
  split; [exact Hlist|].
  destruct (MigrationResult.success result).
  - destruct Hw as (meta & -> & _ & _). split; [|discriminate].
    intros call Hin Hnot. elim Hnot. unfold owed_writes in Hin.
    rewrite !in_app_iff in *. tauto.
  - split; [reflexivity|]. intros _. apply Hw.
Qed.

End FailedMigration.

(** A run interrupted after two writes: the listing of the provider
    configs of the first profile fails, no provider config is accepted,
    and the result reports a failure with no item. *)
Lemma migrate_failure_reports_zero_witness :
  let w := Sample.interrupted in
  exists result made written,
    fst (LocalStorageMigration.migrate w) = Ok result /\
    history (indexedDB (snd (LocalStorageMigration.migrate w))) = made /\
    Journal.calls (localStorageProvider (snd (LocalStorageMigration.migrate w)))
    = written /\
    existsb failed_listing made = true /\
    written = [Journal.SaveProfile Sample.work; Journal.SaveProfile Sample.home] /\
    MigrationResult.success result = false /\
    MigrationResult.migratedItems result = 0.
Proof.
  intros w.
  destruct (migrate_failure_reports_zero w)
    as (result & made & written & Hr & Hh & Hj & Hlist & _ & Hzero).
  exists result, made, written.
  assert (Hh' : history (indexedDB (snd (LocalStorageMigration.migrate w))) = made)
    by exact Hh.
  assert (Hj' : Journal.calls
                  (localStorageProvider (snd (LocalStorageMigration.migrate w)))
                = written) by exact Hj.
  clear Hh Hj.
  assert (Hf : existsb failed_listing
                 (history (indexedDB (snd (LocalStorageMigration.migrate w)))) = true)
    by (vm_compute; reflexivity).
  assert (Hc : Journal.calls
                 (localStorageProvider (snd (LocalStorageMigration.migrate w)))
               = [Journal.SaveProfile Sample.work; Journal.SaveProfile Sample.home])
    by (vm_compute; reflexivity).
  rewrite Hh' in Hf. rewrite Hj' in Hc.
  split; [exact Hr|]. split; [exact Hh'|]. split; [exact Hj'|].
  split; [exact Hf|]. split; [exact Hc|].
  split; [exact (Hlist Hf)|exact (Hzero (Hlist Hf))].
Defined.

(** An exception inside the metadata block is caught there: the run
    whose read of the legacy schema version fails still reports success,
    with the five records as its items. *)
Lemma migrate_swallows_metadata_failure :
  let w := Sample.metadata_read_fails in
  fst (LocalStorageMigration.migrate w)
  = Ok (MigrationResult.mk true
          "Successfully migrated 2 profiles and 3 provider configurations" 5) /\
  existsb (fun c => match failure c with Some _ => true | None => false end)
          (history (indexedDB (snd (LocalStorageMigration.migrate w)))) = true.
Proof. split; vm_compute; reflexivity. Qed.
